(** * opencode-mcp-server: reply correlation, pagination and token codecs

    A shallow embedding of [src/index.ts] and the properties of its
    asynchronous reply-correlation and bounded-pagination engine.

    Layout:
    - [JS]: the platform the program runs on (strings, numbers, JSON,
      Buffer's UTF-8 and base64url transforms), modelled as executable
      functions;
    - the helpers of [index.ts] (message accessors, token codecs,
      projection), in the order of the source;
    - the remote agent as an environment, and the three tool handlers
      [opencode_chat_async], [opencode_wait_for_reply] and
      [opencode_get_messages];
    - the vocabulary of the properties and the sample sessions they are
      tried on;
    - the facts about the platform, then the properties, handler by
      handler. *)

From Stdlib Require Import ZArith List Bool Lia String Ascii.
Import ListNotations.
Open Scope Z_scope.

(* ================================================================== *)
(** * The JavaScript platform *)
(* ================================================================== *)

Module JS.

(** ** Strings

    A JavaScript string is a sequence of UTF-16 code units; [length]
    counts code units.  A code unit is a [Z] in [0, 65536). *)

Definition jsstring := list Z.

Definition unit_ok (c : Z) : bool := (0 <=? c) && (c <? 65536).
Definition wf_string (s : jsstring) : Prop := Forall (fun c => 0 <= c < 65536) s.
Definition wf_stringb (s : jsstring) : bool := forallb unit_ok s.

(** String literals of the source are written [lit "..."]. *)
Definition lit (s : string) : jsstring :=
  map (fun a => Z.of_N (N_of_ascii a)) (list_ascii_of_string s).

Fixpoint str_eqb (a b : jsstring) : bool :=
  match a, b with
  | [], [] => true
  | x :: a', y :: b' => (x =? y) && str_eqb a' b'
  | _, _ => false
  end.

Definition str_length (s : jsstring) : Z := Z.of_nat (List.length s).

Definition is_high_surrogate (c : Z) : bool := (55296 <=? c) && (c <? 56320).
Definition is_low_surrogate (c : Z) : bool := (56320 <=? c) && (c <? 57344).

(** Well-formed UTF-16: every surrogate is part of a high/low pair. *)
Inductive wf_utf16 : jsstring -> Prop :=
| wf16_nil : wf_utf16 []
| wf16_unit c s :
    0 <= c < 65536 -> is_high_surrogate c = false ->
    is_low_surrogate c = false -> wf_utf16 s -> wf_utf16 (c :: s)
| wf16_pair hi lo s :
    is_high_surrogate hi = true -> is_low_surrogate lo = true ->
    wf_utf16 s -> wf_utf16 (hi :: lo :: s).

(** ** Buffer: UTF-8

    [Buffer.from(s)] encodes a string as UTF-8; a surrogate without its
    partner becomes U+FFFD (bytes EF BF BD). *)

Definition replacement_bytes : list Z := [239; 191; 189].

Fixpoint utf8_encode (s : jsstring) : list Z :=
  match s with
  | [] => []
  | c :: rest =>
      if c <? 128 then c :: utf8_encode rest
      else if c <? 2048 then
        192 + c / 64 :: 128 + c mod 64 :: utf8_encode rest
      else if is_high_surrogate c then
        match rest with
        | d :: rest' =>
            if is_low_surrogate d then
              let cp := 65536 + (c - 55296) * 1024 + (d - 56320) in
              240 + cp / 262144 :: 128 + (cp / 4096) mod 64 ::
              128 + (cp / 64) mod 64 :: 128 + cp mod 64 :: utf8_encode rest'
            else replacement_bytes ++ utf8_encode rest
        | [] => replacement_bytes
        end
      else if is_low_surrogate c then replacement_bytes ++ utf8_encode rest
      else
        224 + c / 4096 :: 128 + (c / 64) mod 64 :: 128 + c mod 64 ::
        utf8_encode rest
  end.

(** [buf.toString("utf8")]: the decoder of the Encoding Standard.  An
    ill-formed sequence yields U+FFFD and decoding resumes at the byte
    that broke the sequence. *)

Definition utf16_of_code_point (cp : Z) : jsstring :=
  if cp <? 65536 then [cp]
  else [55296 + (cp - 65536) / 1024; 56320 + (cp - 65536) mod 1024].

(** Pending multi-byte sequence: code point so far, bytes still needed,
    and the admissible range of the next byte. *)
Record utf8_pending := Pending { u_cp : Z; u_needed : Z; u_lower : Z; u_upper : Z }.

Definition utf8_lead (b : Z) : jsstring * option utf8_pending :=
  if (0 <=? b) && (b <? 128) then ([b], None)
  else if (194 <=? b) && (b <=? 223) then ([], Some (Pending (b - 192) 1 128 191))
  else if (224 <=? b) && (b <=? 239) then
    ([], Some (Pending (b - 224) 2 (if b =? 224 then 160 else 128)
                                   (if b =? 237 then 159 else 191)))
  else if (240 <=? b) && (b <=? 244) then
    ([], Some (Pending (b - 240) 3 (if b =? 240 then 144 else 128)
                                   (if b =? 244 then 143 else 191)))
  else ([65533], None).

Fixpoint utf8_decode_from (st : option utf8_pending) (bs : list Z) : jsstring :=
  match bs with
  | [] => match st with None => [] | Some _ => [65533] end
  | b :: rest =>
      match st with
      | None =>
          let '(out, st') := utf8_lead b in out ++ utf8_decode_from st' rest
      | Some p =>
          if (u_lower p <=? b) && (b <=? u_upper p) then
            let cp := u_cp p * 64 + (b - 128) in
            if u_needed p =? 1 then
              utf16_of_code_point cp ++ utf8_decode_from None rest
            else utf8_decode_from (Some (Pending cp (u_needed p - 1) 128 191)) rest
          else
            let '(out, st') := utf8_lead b in
            65533 :: out ++ utf8_decode_from st' rest
      end
  end.

Definition utf8_decode (bs : list Z) : jsstring := utf8_decode_from None bs.

(** ** Buffer: base64url

    [buf.toString("base64url")] writes the URL-safe alphabet without
    padding. *)

Definition b64url_char (i : Z) : Z :=
  if i <? 26 then 65 + i
  else if i <? 52 then 97 + (i - 26)
  else if i <? 62 then 48 + (i - 52)
  else if i =? 62 then 45 else 95.

Fixpoint sextets_of_bytes (bs : list Z) : list Z :=
  match bs with
  | a :: b :: c :: rest =>
      a / 4 :: (a mod 4) * 16 + b / 16 :: (b mod 16) * 4 + c / 64 :: c mod 64 ::
      sextets_of_bytes rest
  | [a; b] => [a / 4; (a mod 4) * 16 + b / 16; (b mod 16) * 4]
  | [a] => [a / 4; (a mod 4) * 16]
  | [] => []
  end.

Definition base64url_encode (bs : list Z) : jsstring :=
  map b64url_char (sextets_of_bytes bs).

(** [Buffer.from(s, "base64url")] never fails: it reads every code unit
    of the string by its low byte, accepts both the standard and the
    URL-safe alphabet, skips every other character and stops at the
    first ['=']; an incomplete trailing group contributes the bytes it
    fully determines. *)

Definition unbase64 (c : Z) : option Z :=
  if (65 <=? c) && (c <=? 90) then Some (c - 65)
  else if (97 <=? c) && (c <=? 122) then Some (c - 97 + 26)
  else if (48 <=? c) && (c <=? 57) then Some (c - 48 + 52)
  else if (c =? 43) || (c =? 45) then Some 62
  else if (c =? 47) || (c =? 95) then Some 63
  else None.

Fixpoint sextets_of_string (s : jsstring) : list Z :=
  match s with
  | [] => []
  | c :: rest =>
      let b := c mod 256 in
      if b =? 61 then []
      else match unbase64 b with
           | Some v => v :: sextets_of_string rest
           | None => sextets_of_string rest
           end
  end.

Fixpoint bytes_of_sextets (vs : list Z) : list Z :=
  match vs with
  | a :: b :: c :: d :: rest =>
      a * 4 + b / 16 :: (b mod 16) * 16 + c / 4 :: (c mod 4) * 64 + d ::
      bytes_of_sextets rest
  | [a; b; c] => [a * 4 + b / 16; (b mod 16) * 16 + c / 4]
  | [a; b] => [a * 4 + b / 16]
  | _ => []
  end.

Definition base64url_decode (s : jsstring) : list Z :=
  bytes_of_sextets (sextets_of_string s).

Definition wf_bytes (bs : list Z) : Prop := Forall (fun b => 0 <= b < 256) bs.

(** ** Numbers

    The numbers that matter to this program are integers (offsets,
    counts, millisecond timestamps); [Int z] is the integer [z].  A
    finite number that is not an integer is the decimal fraction
    [Frac m k], of value [m / 10^k] with [m] not a multiple of ten.
    Arithmetic is exact, where JavaScript computes in binary floating
    point.  The two agree on the integers up to 2^53 and on the products
    and quotients of them that are integers again; they differ where a
    double rounds (a literal of more than seventeen digits, a product
    such as [1.001 * 1000]), where it overflows (the literal [1e400] is
    [Infinity], which [number] does not have) and in the exponent
    notation of [toString] from 10^21 on.  Nothing below is claimed for
    such inputs. *)

Inductive number :=
| Int (z : Z)
| Frac (m : Z) (k : positive).

(** The number [m * 10^e] in canonical form. *)
Fixpoint strip_zeros (m : Z) (k : nat) : number :=
  match k with
  | O => Int m
  | S k' => if m mod 10 =? 0 then strip_zeros (m / 10) k' else Frac m (Pos.of_nat k)
  end.

Definition make_number (m e : Z) : number :=
  if 0 <=? e then Int (m * 10 ^ e) else strip_zeros m (Z.to_nat (- e)).

Definition Math_floor (n : number) : Z :=
  match n with
  | Int z => z
  | Frac m k => m / 10 ^ Z.pos k
  end.

Definition number_times (n : number) (c : Z) : number :=
  match n with
  | Int z => Int (z * c)
  | Frac m k => make_number (m * c) (- Z.pos k)
  end.

(** [Math.ceil(a / b)] for integers [a] and [b > 0]. *)
Definition Math_ceil_quot (a b : Z) : Z := - ((- a) / b).

Definition Number_isInteger (n : option number) : bool :=
  match n with
  | Some (Int _) => true
  | _ => false
  end.

Definition number_negative (n : number) : bool :=
  match n with
  | Int z => z <? 0
  | Frac m _ => m <? 0
  end.

(** Decimal digits of a non-negative integer, most significant first. *)
Fixpoint digits_aux (fuel : nat) (n : Z) (acc : jsstring) : jsstring :=
  match fuel with
  | O => acc
  | S fuel' =>
      let acc' := 48 + n mod 10 :: acc in
      if n <? 10 then acc' else digits_aux fuel' (n / 10) acc'
  end.

Definition digits (n : Z) : jsstring :=
  digits_aux (S (Z.to_nat (Z.log2 n))) n [].

(** [Number.prototype.toString]: integers in plain decimal (as
    JavaScript prints them below 10^21), fractions in positional
    notation. *)
Definition number_to_string (n : number) : jsstring :=
  match n with
  | Int z => if z <? 0 then 45 :: digits (- z) else digits z
  | Frac m k =>
      let ds := digits (Z.abs m) in
      let k' := Pos.to_nat k in
      let body :=
        if (k' <? List.length ds)%nat then
          firstn (List.length ds - k') ds ++ 46 :: skipn (List.length ds - k') ds
        else 48 :: 46 :: repeat 48 (k' - List.length ds) ++ ds in
      if m <? 0 then 45 :: body else body
  end.

(** ** JSON values

    The members of an object are kept in property order, the order in
    which they were added; keys that are array indices, which
    JavaScript lists first, are outside the model. *)

Unset Elimination Schemes.
Inductive json :=
| JNull
| JBool (b : bool)
| JNum (n : number)
| JStr (s : jsstring)
| JArr (elements : list json)
| JObj (members : list (jsstring * json)).
Set Elimination Schemes.

(** A JavaScript value where [undefined] can occur. *)
Definition jsvalue := option json.
Definition undefined : jsvalue := None.

Definition is_digit (c : Z) : bool := (48 <=? c) && (c <=? 57).

Definition digits_value (ds : jsstring) : Z :=
  fold_left (fun acc d => acc * 10 + (d - 48)) ds 0.

(** Own-property lookup.  Objects are the plain data objects that
    [JSON.parse] builds; [lookup] is [record[key]] for every key that
    [Object.prototype] does not have. *)
Fixpoint lookup (key : jsstring) (members : list (jsstring * json)) : jsvalue :=
  match members with
  | [] => None
  | (k, v) :: rest => if str_eqb k key then Some v else lookup key rest
  end.

(** The members that every plain object inherits from
    [Object.prototype]: eleven methods, whose values are functions, and
    the accessor [__proto__], whose value is the prototype itself (and
    [null] on the prototype).  The [in] operator and property access
    find them when the object has no member of that name; an assignment
    to [__proto__] sets the prototype and creates no member. *)
Definition Object_prototype_methods : list jsstring :=
  [lit "constructor"; lit "__defineGetter__"; lit "__defineSetter__";
   lit "hasOwnProperty"; lit "__lookupGetter__"; lit "__lookupSetter__";
   lit "isPrototypeOf"; lit "propertyIsEnumerable"; lit "toString";
   lit "valueOf"; lit "toLocaleString"].

Definition proto_key : jsstring := lit "__proto__".

(** An array index written canonically: ["0"], or digits without a
    leading zero. *)
Definition is_canonical_index (key : jsstring) : bool :=
  match key with
  | [] => false
  | [48] => true
  | c :: rest => (49 <=? c) && (c <=? 57) && forallb is_digit rest
  end.

(** [value[key]]: a member of an object, an element or the length of an
    array or of a string, [undefined] otherwise. *)
Definition prop (v : jsvalue) (key : jsstring) : jsvalue :=
  match v with
  | Some (JObj members) => lookup key members
  | Some (JArr elements) =>
      if str_eqb key (lit "length") then Some (JNum (Int (Z.of_nat (List.length elements))))
      else if is_canonical_index key then nth_error elements (Z.to_nat (digits_value key))
      else None
  | Some (JStr s) =>
      if str_eqb key (lit "length") then Some (JNum (Int (Z.of_nat (List.length s))))
      else if is_canonical_index key then
        match nth_error s (Z.to_nat (digits_value key)) with
        | Some c => Some (JStr [c])
        | None => None
        end
      else None
  | _ => None
  end.

(** [!!v] *)
Definition truthy (v : jsvalue) : bool :=
  match v with
  | None | Some JNull => false
  | Some (JBool b) => b
  | Some (JNum (Int z)) => negb (z =? 0)
  | Some (JNum (Frac _ _)) => true
  | Some (JStr s) => negb (str_eqb s [])
  | Some (JArr _) | Some (JObj _) => true
  end.

(** [typeof v === "object"]: objects, arrays and [null]. *)
Definition typeof_object (v : jsvalue) : bool :=
  match v with
  | Some JNull | Some (JArr _) | Some (JObj _) => true
  | _ => false
  end.

(** ** JSON.stringify (compact form) *)

Definition hex_digit (d : Z) : Z := if d <? 10 then 48 + d else 97 + (d - 10).

Definition unicode_escape (c : Z) : jsstring :=
  [92; 117; hex_digit (c / 4096); hex_digit ((c / 256) mod 16);
   hex_digit ((c / 16) mod 16); hex_digit (c mod 16)].

Definition quote_unit (c : Z) : jsstring :=
  if c =? 8 then [92; 98]
  else if c =? 9 then [92; 116]
  else if c =? 10 then [92; 110]
  else if c =? 12 then [92; 102]
  else if c =? 13 then [92; 114]
  else if c =? 34 then [92; 34]
  else if c =? 92 then [92; 92]
  else if c <? 32 then unicode_escape c
  else if is_low_surrogate c then unicode_escape c
  else [c].

(** Well-formed [JSON.stringify]: a surrogate pair is written as it is,
    a lone surrogate as an escape. *)
Fixpoint quote_chars (s : jsstring) : jsstring :=
  match s with
  | [] => []
  | c :: rest =>
      if is_high_surrogate c then
        match rest with
        | d :: rest' =>
            if is_low_surrogate d then c :: d :: quote_chars rest'
            else unicode_escape c ++ quote_chars rest
        | [] => unicode_escape c
        end
      else quote_unit c ++ quote_chars rest
  end.

Definition quote (s : jsstring) : jsstring := 34 :: quote_chars s ++ [34].

Fixpoint join_comma (parts : list jsstring) : jsstring :=
  match parts with
  | [] => []
  | [p] => p
  | p :: rest => p ++ 44 :: join_comma rest
  end.

Fixpoint JSON_stringify (v : json) : jsstring :=
  match v with
  | JNull => lit "null"
  | JBool true => lit "true"
  | JBool false => lit "false"
  | JNum n => number_to_string n
  | JStr s => quote s
  | JArr elements => 91 :: join_comma (map JSON_stringify elements) ++ [93]
  | JObj members =>
      123 :: join_comma
               (map (fun m => match m with
                              | (k, x) => quote k ++ 58 :: JSON_stringify x
                              end) members) ++ [125]
  end.

(** ** JSON.parse *)

Definition is_json_ws (c : Z) : bool :=
  (c =? 32) || (c =? 9) || (c =? 10) || (c =? 13).

Fixpoint skip_ws (s : jsstring) : jsstring :=
  match s with
  | c :: rest => if is_json_ws c then skip_ws rest else s
  | [] => []
  end.

Fixpoint take_digits (s : jsstring) : jsstring * jsstring :=
  match s with
  | c :: rest =>
      if is_digit c then let '(ds, r) := take_digits rest in (c :: ds, r)
      else ([], s)
  | [] => ([], [])
  end.

Definition hex_value (c : Z) : option Z :=
  if (48 <=? c) && (c <=? 57) then Some (c - 48)
  else if (97 <=? c) && (c <=? 102) then Some (c - 97 + 10)
  else if (65 <=? c) && (c <=? 70) then Some (c - 65 + 10)
  else None.

Definition hex4_value (a b c d : Z) : option Z :=
  match hex_value a, hex_value b, hex_value c, hex_value d with
  | Some x, Some y, Some z, Some w => Some (x * 4096 + y * 256 + z * 16 + w)
  | _, _, _, _ => None
  end.

Definition escape_value (e : Z) : option Z :=
  if e =? 34 then Some 34
  else if e =? 92 then Some 92
  else if e =? 47 then Some 47
  else if e =? 98 then Some 8
  else if e =? 102 then Some 12
  else if e =? 110 then Some 10
  else if e =? 114 then Some 13
  else if e =? 116 then Some 9
  else None.

Definition cons_result (c : Z) (r : option (jsstring * jsstring))
  : option (jsstring * jsstring) :=
  match r with
  | Some (s, rest) => Some (c :: s, rest)
  | None => None
  end.

(** The characters of a string literal after its opening quote. *)
Fixpoint parse_string_body (s : jsstring) : option (jsstring * jsstring) :=
  match s with
  | [] => None
  | c :: r =>
      if c =? 34 then Some ([], r)
      else if c =? 92 then
        match r with
        | [] => None
        | e :: r' =>
            if e =? 117 then
              match r' with
              | h1 :: h2 :: h3 :: h4 :: r'' =>
                  match hex4_value h1 h2 h3 h4 with
                  | Some u => cons_result u (parse_string_body r'')
                  | None => None
                  end
              | _ => None
              end
            else
              match escape_value e with
              | Some u => cons_result u (parse_string_body r')
              | None => None
              end
        end
      else if (0 <=? c) && (c <? 32) then None
      else cons_result c (parse_string_body r)
  end.

Definition is_nil {A} (l : list A) : bool :=
  match l with [] => true | _ => false end.

(** The exponent part shared by JSON numbers and numeric strings:
    [None] when an ['e'] is not followed by digits. *)
Definition parse_exponent (s : jsstring) : option (Z * jsstring) :=
  match s with
  | c :: r =>
      if (c =? 101) || (c =? 69) then
        let '(neg, r1) :=
          match r with
          | x :: r' =>
              if x =? 45 then (true, r')
              else if x =? 43 then (false, r')
              else (false, r)
          | [] => (false, r)
          end in
        let '(ds, r2) := take_digits r1 in
        if is_nil ds then None
        else Some (if neg then - digits_value ds else digits_value ds, r2)
      else Some (0, s)
  | [] => Some (0, s)
  end.

(** A JSON number: an optional minus sign, an integer part without
    leading zeros, an optional fraction and an optional exponent. *)
Definition parse_number (s : jsstring) : option (number * jsstring) :=
  let '(neg, s1) :=
    match s with
    | c :: r => if c =? 45 then (true, r) else (false, s)
    | [] => (false, s)
    end in
  let '(ip, s2) :=
    match s1 with
    | c :: r => if c =? 48 then ([48], r) else take_digits s1
    | [] => ([], s1)
    end in
  if is_nil ip then None
  else
    let frac :=
      match s2 with
      | c :: r =>
          if c =? 46 then
            let '(fp, r') := take_digits r in
            if is_nil fp then None else Some (fp, r')
          else Some ([], s2)
      | [] => Some ([], s2)
      end in
    match frac with
    | None => None
    | Some (fp, s3) =>
        match parse_exponent s3 with
        | None => None
        | Some (e, s4) =>
            let m := digits_value (ip ++ fp) in
            Some (make_number (if neg then - m else m)
                              (e - Z.of_nat (List.length fp)), s4)
        end
    end.

(** Defining a member: a repeated key keeps its first position and takes
    the last value. *)
Fixpoint obj_set (key : jsstring) (v : json) (members : list (jsstring * json))
  : list (jsstring * json) :=
  match members with
  | [] => [(key, v)]
  | (k, x) :: rest =>
      if str_eqb k key then (k, v) :: rest else (k, x) :: obj_set key v rest
  end.

Section Parser.
(** The parser of one value, at the nesting depth below. *)
Variable parse_value : jsstring -> option (json * jsstring).

(** The elements of an array, from the start of an element up to and
    including the closing bracket. *)
Fixpoint parse_elements (fuel : nat) (s : jsstring)
  : option (list json * jsstring) :=
  match fuel with
  | O => None
  | S fuel' =>
      match parse_value s with
      | None => None
      | Some (v, r) =>
          match skip_ws r with
          | 44 :: r' =>
              match parse_elements fuel' r' with
              | Some (vs, r'') => Some (v :: vs, r'')
              | None => None
              end
          | 93 :: r' => Some ([v], r')
          | _ => None
          end
      end
  end.

(** The members of an object, from the start of a key up to and
    including the closing brace; [acc] holds the members read so far. *)
Fixpoint parse_members (fuel : nat) (acc : list (jsstring * json))
  (s : jsstring) : option (list (jsstring * json) * jsstring) :=
  match fuel with
  | O => None
  | S fuel' =>
      match skip_ws s with
      | 34 :: r =>
          match parse_string_body r with
          | None => None
          | Some (key, r1) =>
              match skip_ws r1 with
              | 58 :: r2 =>
                  match parse_value r2 with
                  | None => None
                  | Some (v, r3) =>
                      let acc' := obj_set key v acc in
                      match skip_ws r3 with
                      | 44 :: r4 => parse_members fuel' acc' r4
                      | 125 :: r4 => Some (acc', r4)
                      | _ => None
                      end
                  end
              | _ => None
              end
          end
      | _ => None
      end
  end.
End Parser.

Definition starts_with (p s : jsstring) : option jsstring :=
  if str_eqb (firstn (List.length p) s) p then Some (skipn (List.length p) s)
  else None.

(** One JSON value after optional white space.  [fuel] bounds the
    nesting depth. *)
Fixpoint parse_value (fuel : nat) (s : jsstring) : option (json * jsstring) :=
  match fuel with
  | O => None
  | S fuel' =>
      let s := skip_ws s in
      match s with
      | [] => None
      | c :: r =>
          if c =? 110 then
            match starts_with (lit "null") s with
            | Some r' => Some (JNull, r') | None => None end
          else if c =? 116 then
            match starts_with (lit "true") s with
            | Some r' => Some (JBool true, r') | None => None end
          else if c =? 102 then
            match starts_with (lit "false") s with
            | Some r' => Some (JBool false, r') | None => None end
          else if c =? 34 then
            match parse_string_body r with
            | Some (str, r') => Some (JStr str, r') | None => None end
          else if c =? 91 then
            match skip_ws r with
            | 93 :: r' => Some (JArr [], r')
            | r1 =>
                match parse_elements (parse_value fuel') (S (List.length r1)) r1 with
                | Some (vs, r') => Some (JArr vs, r') | None => None end
            end
          else if c =? 123 then
            match skip_ws r with
            | 125 :: r' => Some (JObj [], r')
            | r1 =>
                match parse_members (parse_value fuel') (S (List.length r1)) [] r1 with
                | Some (ms, r') => Some (JObj ms, r') | None => None end
            end
          else
            match parse_number s with
            | Some (n, r') => Some (JNum n, r') | None => None end
      end
  end.

(** [JSON.parse(text)]; [None] stands for the [SyntaxError]. *)
Definition JSON_parse (text : jsstring) : option json :=
  match parse_value (S (List.length text)) text with
  | Some (v, rest) => if is_nil (skip_ws rest) then Some v else None
  | None => None
  end.

(** ** Conversions to number and string *)

Definition is_js_ws (c : Z) : bool :=
  ((9 <=? c) && (c <=? 13)) || (c =? 32) || (c =? 160) || (c =? 5760)
  || ((8192 <=? c) && (c <=? 8202)) || (c =? 8232) || (c =? 8233)
  || (c =? 8239) || (c =? 8287) || (c =? 12288) || (c =? 65279).

Fixpoint drop_ws (s : jsstring) : jsstring :=
  match s with
  | c :: rest => if is_js_ws c then drop_ws rest else s
  | [] => []
  end.

(** [s.trim()] *)
Definition trim (s : jsstring) : jsstring := rev (drop_ws (rev (drop_ws s))).

Definition radix_digit (radix c : Z) : option Z :=
  match hex_value c with
  | Some d => if d <? radix then Some d else None
  | None => None
  end.

Fixpoint radix_value (radix : Z) (acc : Z) (s : jsstring) : option Z :=
  match s with
  | [] => Some acc
  | c :: rest =>
      match radix_digit radix c with
      | Some d => radix_value radix (acc * radix + d) rest
      | None => None
      end
  end.

Definition radix_literal (radix : Z) (s : jsstring) : option number :=
  if is_nil s then None
  else match radix_value radix 0 s with
       | Some z => Some (Int z)
       | None => None
       end.

Definition decimal_literal (s : jsstring) : option number :=
  let '(neg, s1) :=
    match s with
    | 45 :: r => (true, r)
    | 43 :: r => (false, r)
    | _ => (false, s)
    end in
  let '(ip, s2) := take_digits s1 in
  let '(fp, s3) :=
    match s2 with
    | 46 :: r => take_digits r
    | _ => ([], s2)
    end in
  if is_nil ip && is_nil fp then None
  else
    match parse_exponent s3 with
    | Some (e, []) =>
        let m := digits_value (ip ++ fp) in
        Some (make_number (if neg then - m else m) (e - Z.of_nat (List.length fp)))
    | _ => None
    end.

(** [Number(s)] for a string.  [None] is a value that is not finite:
    [NaN] for text that is no numeric literal, an infinity for
    ["Infinity"]. *)
Definition string_to_number (s : jsstring) : option number :=
  match trim s with
  | [] => Some (Int 0)
  | 48 :: x :: r =>
      if (x =? 120) || (x =? 88) then radix_literal 16 r
      else if (x =? 111) || (x =? 79) then radix_literal 8 r
      else if (x =? 98) || (x =? 66) then radix_literal 2 r
      else decimal_literal (48 :: x :: r)
  | t => decimal_literal t
  end.

Fixpoint join_with (sep : jsstring) (parts : list jsstring) : jsstring :=
  match parts with
  | [] => []
  | [p] => p
  | p :: rest => p ++ sep ++ join_with sep rest
  end.

(** [String(v)]: an array joins its elements with commas, writing
    nothing for [null]. *)
Fixpoint to_string (v : json) : jsstring :=
  match v with
  | JNull => lit "null"
  | JBool true => lit "true"
  | JBool false => lit "false"
  | JNum n => number_to_string n
  | JStr s => s
  | JArr elements =>
      join_with [44]
        (map (fun e => match e with JNull => [] | _ => to_string e end) elements)
  | JObj _ => lit "[object Object]"
  end.

(** [Number(v)]; [None] is [NaN] or an infinity. *)
Definition Number (v : jsvalue) : option number :=
  match v with
  | None => None
  | Some JNull => Some (Int 0)
  | Some (JBool b) => Some (Int (if b then 1 else 0))
  | Some (JNum n) => Some n
  | Some (JStr s) => string_to_number s
  | Some (JArr elements) => string_to_number (to_string (JArr elements))
  | Some (JObj _) => None
  end.

(** ** Array helpers *)

(** [a.slice(start, stop)] for [0 <= start]. *)
Definition slice {A} (l : list A) (start stop : Z) : list A :=
  firstn (Z.to_nat (stop - start)) (skipn (Z.to_nat start) l).

Definition array_length {A} (l : list A) : Z := Z.of_nat (List.length l).

(** [a.at(-1)] *)
Definition at_last {A} (l : list A) : option A := last (map Some l) None.

End JS.

Import JS.

(* ================================================================== *)
(** * Helpers of [index.ts] *)
(* ================================================================== *)

Definition DEFAULT_MESSAGE_LIMIT : Z := 50.
Definition MAX_MESSAGE_LIMIT : Z := 200.
Definition DEFAULT_MAX_OUTPUT_TOKENS : Z := 5000.
Definition MAX_OUTPUT_TOKENS : Z := 20000.
Definition DEFAULT_MESSAGE_FIELDS : list jsstring :=
  [lit "info.id"; lit "info.role"; lit "info.time"; lit "parts.type";
   lit "parts.text"].

Record CursorPayload := { offset : Z }.

Record AsyncRequestPayload := {
  session_id : jsstring;
  message_id : jsstring;
  submitted_at_ms : number
}.

Record Question := { q_question : jsstring; q_header : jsstring }.

Record PendingQuestion := {
  pq_id : jsstring;
  pq_sessionID : jsstring;
  pq_questions : list Question
}.

Inductive StatusType := idle | busy | retry.

Record SessionStatusInfo := {
  st_type : StatusType;
  st_attempt : option number;
  st_message : option jsstring;
  st_next : option number
}.

(** A computation that returns a value or throws an [Error] with a
    message. *)
Inductive result (A : Type) :=
| Ok (a : A)
| Throw (msg : jsstring).
Arguments Ok {A} a.
Arguments Throw {A} msg.

Definition estimateTokensFromString (value : jsstring) : Z :=
  Math_ceil_quot (str_length value) 4.

Definition estimateTokensFromObject (value : json) : Z :=
  estimateTokensFromString (JSON_stringify value).

(** [!v || typeof v !== "object"] *)
Definition not_an_object (v : jsvalue) : bool :=
  negb (truthy v) || negb (typeof_object v).

(** The three accessors share their shape: a non-empty string member of
    [message.info]. *)
Definition info_string (message : json) (key : jsstring) : option jsstring :=
  if not_an_object (Some message) then None
  else
    let info := prop (Some message) (lit "info") in
    if not_an_object info then None
    else
      match prop info key with
      | Some (JStr s) => if 0 <? str_length s then Some s else None
      | _ => None
      end.

Definition getMessageId (message : json) : option jsstring :=
  info_string message (lit "id").

Definition getMessageRole (message : json) : option jsstring :=
  info_string message (lit "role").

Definition getMessageParentId (message : json) : option jsstring :=
  info_string message (lit "parentID").

(** [s === v] for a string [s] against any value. *)
Definition same_string (s : jsstring) (v : jsvalue) : bool :=
  match v with
  | Some (JStr t) => str_eqb s t
  | _ => false
  end.

(** [a === b] for [string | null] against a string. *)
Definition opt_str_is (a : option jsstring) (b : jsstring) : bool :=
  match a with
  | Some s => str_eqb s b
  | None => false
  end.

Definition encodeAsyncRequestId (payload : AsyncRequestPayload) : jsstring :=
  base64url_encode
    (utf8_encode
       (JSON_stringify
          (JObj [(lit "session_id", JStr (session_id payload));
                 (lit "message_id", JStr (message_id payload));
                 (lit "submitted_at_ms", JNum (submitted_at_ms payload))]))).

Definition invalid_async_request_id : jsstring :=
  lit "Invalid async_request_id. Expected a base64url encoded async request id.".

Definition decodeAsyncRequestId (asyncRequestId : jsstring)
  : result AsyncRequestPayload :=
  match JSON_parse (utf8_decode (base64url_decode asyncRequestId)) with
  | None => Throw invalid_async_request_id
  | Some JNull => Throw invalid_async_request_id
  | Some parsed =>
      match prop (Some parsed) (lit "session_id"),
            prop (Some parsed) (lit "message_id"),
            prop (Some parsed) (lit "submitted_at_ms") with
      | Some (JStr s), Some (JStr m), Some (JNum t) =>
          Ok {| session_id := s; message_id := m; submitted_at_ms := t |}
      | _, _, _ => Throw invalid_async_request_id
      end
  end.

Definition getPartTypes (message : json) : list jsstring :=
  if not_an_object (Some message) then []
  else
    match prop (Some message) (lit "parts") with
    | Some (JArr parts) =>
        flat_map
          (fun part =>
             if not_an_object (Some part) then []
             else match prop (Some part) (lit "type") with
                  | Some (JStr t) => if truthy (Some (JStr t)) then [t] else []
                  | _ => []
                  end)
          parts
    | _ => []
    end.

Fixpoint first_text (parts : list json) (maxLength : Z) : option jsstring :=
  match parts with
  | [] => None
  | part :: rest =>
      if not_an_object (Some part) then first_text rest maxLength
      else
        match prop (Some part) (lit "type"), prop (Some part) (lit "text") with
        | Some (JStr ty), Some (JStr text) =>
            if str_eqb ty (lit "text") && (0 <? str_length text) then
              Some (if maxLength <? str_length text
                    then firstn (Z.to_nat maxLength) text ++ lit "..."
                    else text)
            else first_text rest maxLength
        | _, _ => first_text rest maxLength
        end
  end.

Definition getFirstTextPreview (message : json) : option jsstring :=
  if not_an_object (Some message) then None
  else
    match prop (Some message) (lit "parts") with
    | Some (JArr parts) => first_text parts 180
    | _ => None
    end.

(** The loop of [findLatestAssistantReplyByParentId] runs from the last
    index down to 0; [scan_back] receives the messages in that order. *)
Fixpoint scan_back (newest_first : list json) (parentMessageId : jsstring)
  : option json :=
  match newest_first with
  | [] => None
  | message :: older =>
      if negb (opt_str_is (getMessageRole message) (lit "assistant")) then
        scan_back older parentMessageId
      else if negb (opt_str_is (getMessageParentId message) parentMessageId) then
        scan_back older parentMessageId
      else Some message
  end.

Definition findLatestAssistantReplyByParentId (messages : list json)
  (parentMessageId : jsstring) : option json :=
  scan_back (rev messages) parentMessageId.

Definition string_or_empty (v : jsvalue) : jsstring :=
  match v with
  | Some (JStr s) => s
  | _ => []
  end.

Definition normalizePendingQuestions (value : json) : list PendingQuestion :=
  match value with
  | JArr items =>
      filter
        (fun item => negb (is_nil (pq_id item)) && negb (is_nil (pq_sessionID item)))
        (map
           (fun item =>
              let rawQuestions :=
                match prop (Some item) (lit "questions") with
                | Some (JArr qs) => qs
                | _ => []
                end in
              {| pq_id := string_or_empty (prop (Some item) (lit "id"));
                 pq_sessionID := string_or_empty (prop (Some item) (lit "sessionID"));
                 pq_questions :=
                   map
                     (fun q =>
                        {| q_question := string_or_empty (prop (Some q) (lit "question"));
                           q_header := string_or_empty (prop (Some q) (lit "header")) |})
                     (filter (fun q => negb (not_an_object (Some q))) rawQuestions) |})
           (filter (fun item => negb (not_an_object (Some item))) items))
  | _ => []
  end.

Definition number_member (v : jsvalue) : option number :=
  match v with
  | Some (JNum n) => Some n
  | _ => None
  end.

Definition string_member (v : jsvalue) : option jsstring :=
  match v with
  | Some (JStr s) => Some s
  | _ => None
  end.

Definition normalizeSessionStatusInfo (value : jsvalue) : option SessionStatusInfo :=
  if not_an_object value then None
  else
    let with_type (t : StatusType) :=
      Some {| st_type := t;
              st_attempt := number_member (prop value (lit "attempt"));
              st_message := string_member (prop value (lit "message"));
              st_next := number_member (prop value (lit "next")) |} in
    match prop value (lit "type") with
    | Some (JStr t) =>
        if str_eqb t (lit "idle") then with_type idle
        else if str_eqb t (lit "busy") then with_type busy
        else if str_eqb t (lit "retry") then with_type retry
        else None
    | _ => None
    end.

Definition getSessionStatusForSession (value : json) (sessionId : jsstring)
  : option SessionStatusInfo :=
  if not_an_object (Some value) then None
  else normalizeSessionStatusInfo (prop (Some value) sessionId).

Definition encodeCursor (payload : CursorPayload) : jsstring :=
  base64url_encode
    (utf8_encode
       (JSON_stringify (JObj [(lit "offset", JNum (Int (offset payload)))]))).

Definition invalid_cursor : jsstring :=
  lit "Invalid cursor. Expected a base64url encoded cursor.".

Definition decodeCursor (cursor : option jsstring) : result CursorPayload :=
  match cursor with
  | None | Some [] => Ok {| offset := 0 |}
  | Some text =>
      match JSON_parse (utf8_decode (base64url_decode text)) with
      | None => Throw invalid_cursor
      | Some JNull => Throw invalid_cursor
      | Some parsed =>
          match Number (prop (Some parsed) (lit "offset")) with
          | Some (Int n) =>
              if n <? 0 then Throw invalid_cursor else Ok {| offset := n |}
          | _ => Throw invalid_cursor
          end
      end
  end.

(** [s.split(sep)] for a one-character separator. *)
Fixpoint split_on (sep : Z) (s : jsstring) : list jsstring :=
  match s with
  | [] => [[]]
  | c :: rest =>
      match split_on sep rest with
      | piece :: pieces =>
          if c =? sep then [] :: piece :: pieces else (c :: piece) :: pieces
      | [] => [[c]]
      end
  end.

(** [Array.from(new Set(values))]: first occurrences, in order. *)
Fixpoint dedupe (seen values : list jsstring) : list jsstring :=
  match values with
  | [] => []
  | v :: rest =>
      if existsb (str_eqb v) seen then dedupe seen rest
      else v :: dedupe (v :: seen) rest
  end.

Definition includes (values : list jsstring) (v : jsstring) : bool :=
  existsb (str_eqb v) values.

Definition non_empty (s : jsstring) : bool := negb (is_nil s).

Definition parseRequestedFields (fields : jsvalue) : list jsstring :=
  match fields with
  | None | Some JNull => DEFAULT_MESSAGE_FIELDS
  | Some given =>
      let values :=
        match given with
        | JArr items => map to_string items
        | _ => filter non_empty (map trim (split_on 44 (to_string given)))
        end in
      let normalized := filter non_empty (map trim values) in
      if is_nil normalized then DEFAULT_MESSAGE_FIELDS
      else if includes normalized (lit "*") then [lit "*"]
      else dedupe [] normalized
  end.

Definition path := list jsstring.

(** [pathExists] at a member that [record] inherits ([head in record]
    holds, and [record[head]] is no JSON value).  An inherited method is
    a function, which is no object: the path has to end there.
    [__proto__] is [Object.prototype], whose members are the methods
    and [__proto__], of value [null]. *)
Definition inherited_path (head : jsstring) (rest : path) : bool :=
  if str_eqb head proto_key then
    match rest with
    | [] => true
    | next :: rest' =>
        (str_eqb next proto_key || includes Object_prototype_methods next)
        && is_nil rest'
    end
  else includes Object_prototype_methods head && is_nil rest.

Fixpoint pathExists (value : json) (p : path) : bool :=
  match p with
  | [] => true
  | head :: rest =>
      match value with
      | JArr entries => existsb (fun entry => pathExists entry p) entries
      | JObj record =>
          (fix member (ms : list (jsstring * json)) : bool :=
             match ms with
             | [] => inherited_path head rest
             | (k, v) :: ms' =>
                 if str_eqb k head then pathExists v rest else member ms'
             end) record
      | _ => false
      end
  end.

(** The [buckets] map of [projectValue]: the tails of the paths grouped
    by their head, heads in order of first occurrence. *)
Fixpoint bucket_add (head : jsstring) (rest : path)
  (buckets : list (jsstring * list path)) : list (jsstring * list path) :=
  match buckets with
  | [] => [(head, [rest])]
  | (k, tails) :: bs =>
      if str_eqb k head then (k, tails ++ [rest]) :: bs
      else (k, tails) :: bucket_add head rest bs
  end.

Definition make_buckets (pathGroups : list path) : list (jsstring * list path) :=
  fold_left
    (fun buckets p =>
       match p with
       | [] => buckets
       | head :: rest => bucket_add head rest buckets
       end)
    pathGroups [].

Definition defined {A} (v : option A) : list A :=
  match v with
  | Some x => [x]
  | None => []
  end.

(** A bucket of [projectValue] whose key [record] inherits as a method
    and one of whose paths ends at the key: [projectValue] then stores
    the function in [output].  The member counts for [Object.keys], and
    [JSON.stringify] leaves it out. *)
Definition keeps_method (record : list (jsstring * json))
  (bucket : jsstring * list path) : bool :=
  match lookup (fst bucket) record with
  | Some _ => false
  | None =>
      includes Object_prototype_methods (fst bucket) && existsb is_nil (snd bucket)
  end.

(** The result of [projectValue] is kept as the JSON value that
    [JSON.stringify] writes for it, which is all the handler does with
    it.  [output] holds the members that are written; a bucket with the
    key [__proto__] adds none, because [output[key] = projected] then
    sets the prototype of [output]. *)
Fixpoint projectValue (value : json) (pathGroups : list path) : jsvalue :=
  if existsb is_nil pathGroups then Some value
  else
    match value with
    | JArr entries =>
        Some (JArr (flat_map (fun entry => defined (projectValue entry pathGroups))
                             entries))
    | JObj record =>
        let buckets := make_buckets pathGroups in
        let output :=
          flat_map
            (fun bucket =>
               match bucket with
               | (key, nestedPaths) =>
                   (fix member (ms : list (jsstring * json))
                      : list (jsstring * json) :=
                      match ms with
                      | [] => []
                      | (k, v) :: ms' =>
                          if str_eqb k key then
                            match projectValue v nestedPaths with
                            | Some projected =>
                                if str_eqb key proto_key then []
                                else [(key, projected)]
                            | None => []
                            end
                          else member ms'
                      end) record
               end)
            buckets in
        if is_nil output && negb (existsb (keeps_method record) buckets)
        then None else Some (JObj output)
    | _ => None
    end.

Definition field_path (field : jsstring) : path :=
  filter non_empty (split_on 46 field).

Definition projectMessage (message : json) (fields : list jsstring)
  : json * list jsstring :=
  if includes fields (lit "*") then (message, [])
  else
    let paths := map field_path fields in
    let missingFields :=
      filter (fun field => negb (pathExists message (field_path field))) fields in
    let projected :=
      match projectValue message paths with
      | None | Some JNull => JObj []
      | Some v => v
      end in
    (projected, missingFields).

(* ================================================================== *)
(** * The remote agent and the effects of a tool call *)
(* ================================================================== *)

(** The HTTP requests that the three handlers issue. *)
Inductive Request :=
| CreateSession (directory : option jsstring)
    (* POST /session?directory= *)
| PromptAsync (sessionId : jsstring) (directory : option jsstring)
    (messageID text : jsstring)
    (* POST /session/{id}/prompt_async?directory= *)
| ListMessages (sessionId : jsstring) (limit : Z)
    (* GET /session/{id}/message?limit= *)
| GetSessionStatus
    (* GET /session/status *)
| ListQuestions
    (* GET /question *)
| ListPermissions.
    (* GET /permission *)

(** What [fetch] yields: a promise rejected with an error of message
    [reason], or a response with its [ok] flag, status code, body text
    and the outcome of [response.json()]: the value of the body, or the
    message of the error thrown for a body that is not JSON. *)
Inductive Response :=
| NetworkFailure (reason : jsstring)
| Reply (ok : bool) (status : Z) (body : result json) (text : jsstring).

(** The environment of a tool call: the answer of the remote agent to
    the n-th request of the call, the time that request takes, and the
    random suffixes of [generateMessageId]. *)
Record Env := {
  remote : nat -> Request -> Response;
  latency : nat -> N;
  random_suffix : nat -> jsstring
}.

(** The state a call threads through: the clock in milliseconds, the
    requests issued so far (oldest first), the random draws made. *)
Record World := {
  now : Z;
  trace : list Request;
  draws : nat
}.

Definition M (A : Type) : Type := World -> result A * World.

Definition ret {A} (a : A) : M A := fun w => (Ok a, w).

Definition bind {A B} (m : M A) (k : A -> M B) : M B :=
  fun w =>
    match m w with
    | (Ok a, w') => k a w'
    | (Throw msg, w') => (Throw msg, w')
    end.

Definition throw {A} (msg : jsstring) : M A := fun w => (Throw msg, w).

(** [try { m } catch { handler }] *)
Definition try_catch {A} (m : M A) (handler : M A) : M A :=
  fun w =>
    match m w with
    | (Ok a, w') => (Ok a, w')
    | (Throw _, w') => handler w'
    end.

Declare Scope tool_scope.
Delimit Scope tool_scope with tool.
Notation "x <- m ;; k" := (bind m (fun x => k))
  (at level 61, m at next level, right associativity) : tool_scope.
Notation "m ;;; k" := (bind m (fun _ => k))
  (at level 61, right associativity) : tool_scope.
Open Scope tool_scope.

Definition Date_now : M Z := fun w => (Ok (now w), w).

(** [setTimeout(resolve, ms)]: a delay below 1 or above [TIMEOUT_MAX]
    is replaced by 1. *)
Definition TIMEOUT_MAX : Z := 2147483647.

Definition timer_delay (ms : Z) : Z :=
  if (1 <=? ms) && (ms <=? TIMEOUT_MAX) then ms else 1.

(** The clock of a call advances by the delay of every timer and by the
    latency of every request. *)
Definition after_sleep (ms : Z) (w : World) : World :=
  {| now := now w + timer_delay ms; trace := trace w; draws := draws w |}.

Definition sleep (ms : Z) : M unit := fun w => (Ok tt, after_sleep ms w).

(** The world once a request has been answered: the clock has advanced
    by the latency of the request and the request is on the trace. *)
Definition after_fetch (env : Env) (req : Request) (w : World) : World :=
  {| now := now w + Z.of_N (latency env (List.length (trace w)));
     trace := trace w ++ [req];
     draws := draws w |}.

Definition fetch (env : Env) (req : Request) : M Response :=
  fun w =>
    match remote env (List.length (trace w)) req with
    | NetworkFailure reason => (Throw reason, after_fetch env req w)
    | r => (Ok r, after_fetch env req w)
    end.

Definition response_ok (r : Response) : bool :=
  match r with
  | Reply ok _ _ _ => ok
  | NetworkFailure _ => false
  end.

Definition response_status (r : Response) : Z :=
  match r with
  | Reply _ status _ _ => status
  | NetworkFailure _ => 0
  end.

Definition response_text (r : Response) : jsstring :=
  match r with
  | Reply _ _ _ text => text
  | NetworkFailure _ => []
  end.

(** [await response.json()] *)
Definition response_json (r : Response) : M json :=
  match r with
  | Reply _ _ (Ok v) _ => ret v
  | Reply _ _ (Throw msg) _ => throw msg
  | NetworkFailure reason => throw reason
  end.

Definition generateMessageId (env : Env) : M jsstring :=
  fun w =>
    (Ok (lit "msg_async_" ++ number_to_string (Int (now w)) ++ lit "_"
         ++ random_suffix env (draws w)),
     {| now := now w; trace := trace w; draws := S (draws w) |}).

Definition fetchSessionMessages (env : Env) (sessionId : jsstring) (limit : Z)
  : M (list json) :=
  response <- fetch env (ListMessages sessionId limit) ;;
  if negb (response_ok response) then
    throw (lit "Failed to get messages: "
           ++ number_to_string (Int (response_status response)))
  else
    messages <- response_json response ;;
    match messages with
    | JArr items => ret items
    | _ => throw (lit "Unexpected message response format: expected an array.")
    end.

Definition fetchOptionalJson (env : Env) (req : Request) : M json :=
  try_catch
    (response <- fetch env req ;;
     if negb (response_ok response) then ret JNull
     else response_json response)
    (ret JNull).

(** [sessionId] is a string by its type only: [opencode_chat_async]
    passes the [id] of a created session unchecked, so the model takes
    any value. *)
Definition fetchPendingQuestionsForSession (env : Env) (sessionId : jsvalue)
  : M (list PendingQuestion) :=
  raw <- fetchOptionalJson env ListQuestions ;;
  ret (filter (fun question => same_string (pq_sessionID question) sessionId)
              (normalizePendingQuestions raw)).

Definition fetchSessionStatusForSession (env : Env) (sessionId : jsstring)
  : M (option SessionStatusInfo) :=
  raw <- fetchOptionalJson env GetSessionStatus ;;
  ret (getSessionStatusForSession raw sessionId).

(* ================================================================== *)
(** * Tool results *)
(* ================================================================== *)

(** One entry of [pending_questions] in a blocked diagnosis. *)
Record QuestionSummary := {
  qs_request_id : jsstring;
  qs_question_count : Z;
  qs_headers : list jsstring
}.

Definition summarize (question : PendingQuestion) : QuestionSummary :=
  {| qs_request_id := pq_id question;
     qs_question_count := array_length (pq_questions question);
     qs_headers := map q_header (pq_questions question) |}.

Record ReplyPayload := {
  rp_session_id : jsstring;
  rp_async_request_id : jsstring;
  rp_target_parent_message_id : jsstring;
  rp_reply_message_id : option jsstring;
  rp_reply : json;
  rp_streaming : bool;
  rp_session_status : option SessionStatusInfo;
  rp_timeout_seconds : number;
  rp_elapsed_ms : Z;
  rp_poll_interval_ms : Z;
  rp_next_action : option jsstring
}.

Record MessageDigest := {
  md_id : option jsstring;
  md_parentID : option jsstring;
  md_part_types : list jsstring;
  md_text_preview : option jsstring
}.

Record TimeoutReport := {
  tr_streaming : bool;
  tr_session_status : option SessionStatusInfo;
  tr_latest_partial_reply : option json;
  tr_message_window_count : Z;
  tr_assistant_count_in_window : Z;
  tr_matching_parent_count : Z;
  tr_latest_assistant : option MessageDigest;
  tr_latest_matching_parent : option MessageDigest;
  tr_pending_permissions_count : option Z;
  tr_pending_questions_count : option Z;
  tr_note : jsstring
}.

Record TimeoutPayload := {
  tp_session_id : jsstring;
  tp_async_request_id : jsstring;
  tp_target_parent_message_id : jsstring;
  tp_timeout_seconds : number;
  tp_poll_interval_ms : Z;
  tp_poll_limit : Z;
  tp_elapsed_ms : Z;
  (** [None]: the minimal report, when collecting diagnostics failed. *)
  tp_report : option TimeoutReport
}.

Record PageInfo := {
  pg_limit : Z;
  pg_cursor : option jsstring;
  pg_next_cursor : option jsstring;
  pg_has_more : bool;
  pg_offset : Z;
  pg_returned : Z
}.

Record BudgetInfo := {
  bg_max_output_tokens : Z;
  bg_estimated_output_tokens : Z;
  bg_truncated : bool;
  bg_finish_reason : jsstring
}.

Record ProjectionInfo := {
  pj_requested_fields : list jsstring;
  pj_missing_fields : list jsstring
}.

Record PagePayload := {
  pl_session_id : jsstring;
  pl_items : list json;
  pl_page : PageInfo;
  pl_budget : BudgetInfo;
  pl_projection : ProjectionInfo;
  pl_notice : option jsstring
}.

(** What a handler returns.  The text of a result is a heading followed
    by [JSON.stringify(payload, null, 2)]; the results are kept here as
    the payloads themselves. *)
Inductive ToolResult :=
| SessionBlocked (session : jsvalue) (pending : list QuestionSummary)
| AsyncAccepted (session : jsvalue) (message_id : jsstring) (submitted_at_ms : Z)
    (async_request_id : jsstring)
| ReplyReceived (payload : ReplyPayload)
| BlockedWaiting (session async_request_id target : jsstring)
    (pending : list QuestionSummary) (elapsed_ms poll_interval_ms : Z)
| TimedOut (payload : TimeoutPayload)
| MessagePage (payload : PagePayload)
| ToolError (message : jsstring).

(** The [try]/[catch] around every handler: a thrown error becomes an
    error result.  [error] injects it into the result type of the
    handler ([ToolError] itself, or [Some] of it for the handler whose
    loop is bounded by fuel). *)
Definition run_tool {A} (error : ToolResult -> A) (m : M A) (w : World)
  : A * World :=
  match m w with
  | (Ok r, w') => (r, w')
  | (Throw msg, w') => (error (ToolError msg), w')
  end.

(* ================================================================== *)
(** * The tool handlers *)
(* ================================================================== *)

(** [if (directory) queryParams.append("directory", directory)] *)
Definition directory_param (directory : option jsstring) : option jsstring :=
  match directory with
  | Some d => if is_nil d then None else Some d
  | None => None
  end.

Definition status_and_text (prefix : jsstring) (r : Response) : jsstring :=
  prefix ++ number_to_string (Int (response_status r)) ++ lit " - "
  ++ response_text r.

(** [((await createResponse.json()) as { id: string }).id].  The cast
    checks nothing: the result is the [id] member of whatever the remote
    agent answered, [undefined] when there is none; reading [id] of
    [null] throws a [TypeError]. *)
Definition created_session_id (createResponse : Response) : M jsvalue :=
  sessionData <- response_json createResponse ;;
  match sessionData with
  | JNull => throw (lit "Cannot read properties of null (reading 'id')")
  | _ => ret (prop (Some sessionData) (lit "id"))
  end.

(** The first lines shared by [opencode_chat] and [opencode_chat_async]:
    use the given session or create one. *)
Definition target_session (env : Env) (session_id directory : option jsstring)
  : M jsvalue :=
  match session_id with
  | Some (c :: s) => ret (Some (JStr (c :: s)))
  | _ =>
      createResponse <- fetch env (CreateSession (directory_param directory)) ;;
      if negb (response_ok createResponse) then
        throw (status_and_text (lit "Failed to create session: ") createResponse)
      else created_session_id createResponse
  end.

(** [`${v}`]: a value inside a template literal. *)
Definition template_text (v : jsvalue) : jsstring :=
  match v with
  | Some j => to_string j
  | None => lit "undefined"
  end.

(** [encodeAsyncRequestId] at the object literal of [opencode_chat_async],
    whose [session_id] is the value that the cast let through:
    [JSON.stringify] leaves out a member that is [undefined]. *)
Definition encodeAsyncRequestId_of (session : jsvalue) (message_id : jsstring)
  (submitted_at_ms : number) : jsstring :=
  base64url_encode
    (utf8_encode
       (JSON_stringify
          (JObj (match session with
                 | Some j => [(lit "session_id", j)]
                 | None => []
                 end
                 ++ [(lit "message_id", JStr message_id);
                     (lit "submitted_at_ms", JNum submitted_at_ms)])))).

Definition opencode_chat_async (env : Env) (message : jsstring)
  (session_id directory : option jsstring) : M ToolResult :=
  targetSessionId <- target_session env session_id directory ;;
  submittedAtMs <- Date_now ;;
  asyncMessageId <- generateMessageId env ;;
  pendingBeforeSend <- fetchPendingQuestionsForSession env targetSessionId ;;
  if 0 <? array_length pendingBeforeSend then
    ret (SessionBlocked targetSessionId (map summarize pendingBeforeSend))
  else
    response <- fetch env (PromptAsync (template_text targetSessionId)
                                       (directory_param directory)
                                       asyncMessageId message) ;;
    if negb (response_ok response) then
      throw (status_and_text (lit "Failed to send async message: ") response)
    else
      ret (AsyncAccepted targetSessionId asyncMessageId submittedAtMs
             (encodeAsyncRequestId_of targetSessionId asyncMessageId
                (Int submittedAtMs))).

(** [v ?? d] *)
Definition or_default {A} (v : option A) (d : A) : A :=
  match v with
  | Some x => x
  | None => d
  end.

Definition status_is (s : option SessionStatusInfo) (t : StatusType) : bool :=
  match s with
  | Some info =>
      match st_type info, t with
      | idle, idle | busy, busy | retry, retry => true
      | _, _ => false
      end
  | None => false
  end.

Definition still_streaming : jsstring :=
  lit "Assistant output is still streaming. Call opencode_wait_for_reply again with the same async_request_id for further incremental output.".

(** How the polling loop ends. *)
Inductive LoopExit :=
| Returned (r : ToolResult)
| DeadlinePassed
| OutOfFuel.

Section WaitForReply.
Variable env : Env.
Variables async_request_id session_id targetMessageId : jsstring.
Variables timeoutMs intervalMs pollLimitValue startTime deadline : Z.

(** The branch of the loop body taken once a matching reply is in the
    window. *)
Definition resolve_reply (latestMatchingReply : json) : M ToolResult :=
  sessionStatus <- fetchSessionStatusForSession env session_id ;;
  resolvedReply <-
    (if status_is sessionStatus idle then
       refreshedMessages <-
         try_catch
           (ms <- fetchSessionMessages env session_id pollLimitValue ;;
            ret (Some ms))
           (ret None) ;;
       ret match refreshedMessages with
           | Some ms =>
               match findLatestAssistantReplyByParentId ms targetMessageId with
               | Some refreshedReply => refreshedReply
               | None => latestMatchingReply
               end
           | None => latestMatchingReply
           end
     else ret latestMatchingReply) ;;
  let stillStreaming :=
    status_is sessionStatus busy || status_is sessionStatus retry in
  finished <- Date_now ;;
  ret (ReplyReceived
         {| rp_session_id := session_id;
            rp_async_request_id := async_request_id;
            rp_target_parent_message_id := targetMessageId;
            rp_reply_message_id := getMessageId resolvedReply;
            rp_reply := resolvedReply;
            rp_streaming := stillStreaming;
            rp_session_status := sessionStatus;
            rp_timeout_seconds := make_number timeoutMs (-3);
            rp_elapsed_ms := finished - startTime;
            rp_poll_interval_ms := intervalMs;
            rp_next_action :=
              if stillStreaming then Some still_streaming else None |}).

(** [while (Date.now() < deadline) { ... }]; one unit of [fuel] per
    test of the loop condition. *)
Fixpoint poll_loop (fuel : nat) : M LoopExit :=
  match fuel with
  | O => ret OutOfFuel
  | S fuel' =>
      t <- Date_now ;;
      if t <? deadline then
        messages <- fetchSessionMessages env session_id pollLimitValue ;;
        match findLatestAssistantReplyByParentId messages targetMessageId with
        | Some latestMatchingReply =>
            r <- resolve_reply latestMatchingReply ;;
            ret (Returned r)
        | None =>
            pendingQuestionsInLoop <-
              fetchPendingQuestionsForSession env (Some (JStr session_id)) ;;
            if 0 <? array_length pendingQuestionsInLoop then
              blockedAt <- Date_now ;;
              ret (Returned
                     (BlockedWaiting session_id async_request_id targetMessageId
                        (map summarize pendingQuestionsInLoop)
                        (blockedAt - startTime) intervalMs))
            else
              sleep intervalMs ;;;
              poll_loop fuel'
        end
      else ret DeadlinePassed
  end.

Definition digest (message : json) : MessageDigest :=
  {| md_id := getMessageId message;
     md_parentID := getMessageParentId message;
     md_part_types := getPartTypes message;
     md_text_preview := getFirstTextPreview message |}.

Definition count_if_array (v : json) : option Z :=
  match v with
  | JArr items => Some (array_length items)
  | _ => None
  end.

(** The diagnostic payload built after the deadline. *)
Definition timeout_report : M TimeoutReport :=
  latestMessages <-
    try_catch (fetchSessionMessages env session_id pollLimitValue) (ret []) ;;
  let assistantMessages :=
    filter (fun message => opt_str_is (getMessageRole message) (lit "assistant"))
           latestMessages in
  let matchingParent :=
    filter (fun message => opt_str_is (getMessageParentId message) targetMessageId)
           assistantMessages in
  let latestAssistant := at_last assistantMessages in
  let latestMatching := at_last matchingParent in
  sessionStatus <-
    try_catch (fetchSessionStatusForSession env session_id) (ret None) ;;
  pendingPermissions <-
    try_catch (fetchOptionalJson env ListPermissions) (ret JNull) ;;
  pendingQuestions <-
    try_catch (fetchOptionalJson env ListQuestions) (ret JNull) ;;
  ret {| tr_streaming :=
           status_is sessionStatus busy || status_is sessionStatus retry;
         tr_session_status := sessionStatus;
         tr_latest_partial_reply := latestMatching;
         tr_message_window_count := array_length latestMessages;
         tr_assistant_count_in_window := array_length assistantMessages;
         tr_matching_parent_count := array_length matchingParent;
         tr_latest_assistant := option_map digest latestAssistant;
         tr_latest_matching_parent :=
           option_map
             (fun m => {| md_id := getMessageId m;
                          md_parentID := None;
                          md_part_types := getPartTypes m;
                          md_text_preview := getFirstTextPreview m |})
             latestMatching;
         tr_pending_permissions_count := count_if_array pendingPermissions;
         tr_pending_questions_count := count_if_array pendingQuestions;
         tr_note :=
           match latestMatching with
           | Some _ =>
               lit "Timeout reached. Returned the latest partial reply found in the session window."
           | None =>
               lit "Request was accepted by prompt_async, but no matching assistant reply appeared before timeout."
           end |}.

Definition timeout_payload : M ToolResult :=
  report <- try_catch (r <- timeout_report ;; ret (Some r)) (ret None) ;;
  finished <- Date_now ;;
  ret (TimedOut
         {| tp_session_id := session_id;
            tp_async_request_id := async_request_id;
            tp_target_parent_message_id := targetMessageId;
            tp_timeout_seconds := make_number timeoutMs (-3);
            tp_poll_interval_ms := intervalMs;
            tp_poll_limit := pollLimitValue;
            tp_elapsed_ms := finished - startTime;
            tp_report := report |}).
End WaitForReply.

(** The number of tests of the loop condition that [timeoutMs] and
    [intervalMs] allow: every iteration that does not return sleeps for
    the delay that the timer makes of [intervalMs]. *)
Definition poll_fuel (timeoutMs intervalMs : Z) : nat :=
  Z.to_nat (timeoutMs / timer_delay intervalMs) + 2.

(** The three numeric arguments of [opencode_wait_for_reply], with their
    defaults, floors and caps.  The product [timeout_seconds * 1000] is
    exact here; it is the product of the source whenever that one is
    exact too, as for every whole number of seconds.  An infinite
    timeout, which the source accepts and which keeps its loop going
    until a reply, a question or an error ends it, is no [number]. *)
Definition wait_timeout_ms (timeout_seconds : option number) : Z :=
  Z.max (Math_floor (number_times (or_default timeout_seconds (Int 30)) 1000)) 1000.

Definition wait_interval_ms (poll_interval_ms : option number) : Z :=
  Z.max (Math_floor (or_default poll_interval_ms (Int 500))) 300.

Definition wait_poll_limit (poll_limit : option number) : Z :=
  Z.min (Z.max (Math_floor (or_default poll_limit (Int 200))) 1) MAX_MESSAGE_LIMIT.

(** [None] would mean that the loop outran [poll_fuel]; with the finite
    timeouts of the model it never does (see [wait_for_reply_returns]). *)
Definition opencode_wait_for_reply (env : Env) (async_request_id : jsstring)
  (timeout_seconds poll_interval_ms poll_limit : option number)
  : M (option ToolResult) :=
  match decodeAsyncRequestId async_request_id with
  | Throw msg => throw msg
  | Ok requestPayload =>
      let session_id := session_id requestPayload in
      let targetMessageId := message_id requestPayload in
      let timeoutMs := wait_timeout_ms timeout_seconds in
      let intervalMs := wait_interval_ms poll_interval_ms in
      let pollLimitValue := wait_poll_limit poll_limit in
      startTime <- Date_now ;;
      let deadline := startTime + timeoutMs in
      exit <- poll_loop env async_request_id session_id targetMessageId
                timeoutMs intervalMs pollLimitValue startTime deadline
                (poll_fuel timeoutMs intervalMs) ;;
      match exit with
      | Returned r => ret (Some r)
      | DeadlinePassed =>
          r <- timeout_payload env async_request_id session_id targetMessageId
                 timeoutMs intervalMs pollLimitValue startTime ;;
          ret (Some r)
      | OutOfFuel => ret None
      end
  end.

(** The serialized form of the page payload, members in the order of the
    object literal of the source; [notice] is added last by
    [Object.assign]. *)
Definition json_of_string_option (s : option jsstring) : json :=
  match s with
  | Some x => JStr x
  | None => JNull
  end.

Definition payload_json (p : PagePayload) : json :=
  JObj
    ([(lit "session_id", JStr (pl_session_id p));
      (lit "items", JArr (pl_items p));
      (lit "page",
       JObj [(lit "limit", JNum (Int (pg_limit (pl_page p))));
             (lit "cursor", json_of_string_option (pg_cursor (pl_page p)));
             (lit "next_cursor", json_of_string_option (pg_next_cursor (pl_page p)));
             (lit "has_more", JBool (pg_has_more (pl_page p)));
             (lit "offset", JNum (Int (pg_offset (pl_page p))));
             (lit "returned", JNum (Int (pg_returned (pl_page p))))]);
      (lit "budget",
       JObj [(lit "max_output_tokens", JNum (Int (bg_max_output_tokens (pl_budget p))));
             (lit "estimated_output_tokens",
              JNum (Int (bg_estimated_output_tokens (pl_budget p))));
             (lit "truncated", JBool (bg_truncated (pl_budget p)));
             (lit "finish_reason", JStr (bg_finish_reason (pl_budget p)))]);
      (lit "projection",
       JObj [(lit "requested_fields",
              JArr (map JStr (pj_requested_fields (pl_projection p))));
             (lit "missing_fields",
              JArr (map JStr (pj_missing_fields (pl_projection p))))])]
     ++ match pl_notice p with
        | Some n => [(lit "notice", JStr n)]
        | None => []
        end).

(** The budget loop over the projected page: [responseItems] grows while
    the candidate list fits, or while it is still empty. *)
Fixpoint fill_budget (maxOutputTokens : Z) (responseItems projectedPage : list json)
  : list json * bool :=
  match projectedPage with
  | [] => (responseItems, false)
  | item :: rest =>
      let candidate := responseItems ++ [item] in
      let estimatedTokens := estimateTokensFromString (JSON_stringify (JArr candidate)) in
      if (estimatedTokens <=? maxOutputTokens)
         || (array_length responseItems =? 0)
      then fill_budget maxOutputTokens candidate rest
      else (responseItems, true)
  end.

(** The body of the safety loop: drop the last item and recompute the
    page and budget members. *)
Definition drop_last_item (cursorOffset : Z) (p : PagePayload) : PagePayload :=
  let items := removelast (pl_items p) in
  {| pl_session_id := pl_session_id p;
     pl_items := items;
     pl_page :=
       {| pg_limit := pg_limit (pl_page p);
          pg_cursor := pg_cursor (pl_page p);
          pg_next_cursor :=
            Some (encodeCursor {| offset := cursorOffset + array_length items |});
          pg_has_more := true;
          pg_offset := pg_offset (pl_page p);
          pg_returned := array_length items |};
     pl_budget :=
       {| bg_max_output_tokens := bg_max_output_tokens (pl_budget p);
          bg_estimated_output_tokens := estimateTokensFromObject (JArr items);
          bg_truncated := true;
          bg_finish_reason := lit "length" |};
     pl_projection := pl_projection p;
     pl_notice := pl_notice p |}.

Definition over_budget (maxOutputTokens : Z) (p : PagePayload) : bool :=
  maxOutputTokens <? estimateTokensFromObject (payload_json p).

(** [while (estimate(payload) > max && payload.items.length > 0) {...}];
    the loop runs at most once per item. *)
Fixpoint safety_loop (fuel : nat) (maxOutputTokens cursorOffset : Z)
  (p : PagePayload) : PagePayload :=
  match fuel with
  | O => p
  | S fuel' =>
      if over_budget maxOutputTokens p && (0 <? array_length (pl_items p)) then
        safety_loop fuel' maxOutputTokens cursorOffset
          (drop_last_item cursorOffset p)
      else p
  end.

Definition budget_notice : jsstring :=
  lit "Payload still exceeds token budget with current field projection. Reduce fields or increase max_output_tokens.".

(** The final test: the payload is still over budget. *)
Definition give_up_page (maxOutputTokens cursorOffset : Z) (p : PagePayload)
  : PagePayload :=
  if over_budget maxOutputTokens p then
    {| pl_session_id := pl_session_id p;
       pl_items := [];
       pl_page :=
         {| pg_limit := pg_limit (pl_page p);
            pg_cursor := pg_cursor (pl_page p);
            pg_next_cursor := Some (encodeCursor {| offset := cursorOffset |});
            pg_has_more := true;
            pg_offset := pg_offset (pl_page p);
            pg_returned := 0 |};
       pl_budget :=
         {| bg_max_output_tokens := bg_max_output_tokens (pl_budget p);
            bg_estimated_output_tokens := estimateTokensFromObject (JArr []);
            bg_truncated := true;
            bg_finish_reason := lit "length" |};
       pl_projection := pl_projection p;
       pl_notice := Some budget_notice |}
  else p.

(** The missing fields of a page: the [Set] collects what each message
    of the raw page lacks, in order of first insertion. *)
Definition collect_missing (dropped : list (list jsstring)) : list jsstring :=
  dedupe [] (List.concat dropped).

(** The slice of the fetched window that the page is cut from. *)
Definition raw_page (messages : list json) (pageSize cursorOffset : Z) : list json :=
  slice messages cursorOffset (cursorOffset + pageSize).

(** The payload as first assembled from the fetched window: slice,
    projection, budget loop and the object literal of the source. *)
Definition initial_payload (session_id : jsstring) (cursor : option jsstring)
  (pageSize cursorOffset maxOutputTokens : Z) (requestedFields : list jsstring)
  (messages : list json) : PagePayload :=
  let rawPage := raw_page messages pageSize cursorOffset in
  let hasMoreFromSource :=
    cursorOffset + array_length rawPage <? array_length messages in
  let projections := map (fun message => projectMessage message requestedFields) rawPage in
  let missingFields := collect_missing (map snd projections) in
  let projectedPage := map fst projections in
  let '(responseItems, truncatedByBudget) :=
    fill_budget maxOutputTokens [] projectedPage in
  let nextOffset := cursorOffset + array_length responseItems in
  let hasMore :=
    (nextOffset <? cursorOffset + array_length projectedPage) || hasMoreFromSource in
  {| pl_session_id := session_id;
     pl_items := responseItems;
     pl_page :=
       {| pg_limit := pageSize;
          pg_cursor := cursor;
          pg_next_cursor :=
            if hasMore then Some (encodeCursor {| offset := nextOffset |}) else None;
          pg_has_more := hasMore;
          pg_offset := cursorOffset;
          pg_returned := array_length responseItems |};
     pl_budget :=
       {| bg_max_output_tokens := maxOutputTokens;
          bg_estimated_output_tokens :=
            estimateTokensFromString (JSON_stringify (JArr responseItems));
          bg_truncated := truncatedByBudget;
          bg_finish_reason := if truncatedByBudget then lit "length" else lit "stop" |};
     pl_projection :=
       {| pj_requested_fields := requestedFields;
          pj_missing_fields := missingFields |};
     pl_notice := None |}.

(** The page computed from the fetched window: everything in the handler
    after [fetchSessionMessages]. *)
Definition build_page (session_id : jsstring) (cursor : option jsstring)
  (pageSize cursorOffset maxOutputTokens : Z) (requestedFields : list jsstring)
  (messages : list json) : PagePayload :=
  let payload :=
    initial_payload session_id cursor pageSize cursorOffset maxOutputTokens
      requestedFields messages in
  give_up_page maxOutputTokens cursorOffset
    (safety_loop (List.length (pl_items payload)) maxOutputTokens cursorOffset
       payload).

(** The two numeric arguments of [opencode_get_messages]. *)
Definition page_size (limit : option number) : Z :=
  Z.min (Z.max (Math_floor (or_default limit (Int DEFAULT_MESSAGE_LIMIT))) 1)
        MAX_MESSAGE_LIMIT.

Definition output_budget (max_output_tokens : option number) : Z :=
  Z.min
    (Z.max (Math_floor (or_default max_output_tokens
                          (Int DEFAULT_MAX_OUTPUT_TOKENS))) 1)
    MAX_OUTPUT_TOKENS.

Definition opencode_get_messages (env : Env) (session_id : jsstring)
  (limit : option number) (cursor : option jsstring)
  (max_output_tokens : option number) (fields : jsvalue) : M ToolResult :=
  let pageSize := page_size limit in
  match decodeCursor cursor with
  | Throw msg => throw msg
  | Ok cursorData =>
      let requestedFields := parseRequestedFields fields in
      let maxOutputTokens := output_budget max_output_tokens in
      let fetchLimit := offset cursorData + pageSize + 1 in
      messages <- fetchSessionMessages env session_id fetchLimit ;;
      ret (MessagePage
             (build_page session_id cursor pageSize (offset cursorData)
                maxOutputTokens requestedFields messages))
  end.

(* ================================================================== *)
(** * Vocabulary of the properties *)
(* ================================================================== *)

(** ** The text that [JSON.stringify] writes *)

(** A decimal digit. *)
Definition digit_char (c : Z) : Prop := 48 <= c <= 57.

(** What may follow a number for its digits to end there. *)
Definition ends_number (rest : jsstring) : Prop :=
  match rest with
  | [] => True
  | c :: _ => (c < 48 \/ 57 < c) /\ c <> 46 /\ c <> 101 /\ c <> 69
  end.

(** The member values of the token payloads: strings and non-negative
    integers. *)
Inductive simple_value : json -> Prop :=
| simple_str s : wf_string s -> simple_value (JStr s)
| simple_int n : 0 <= n -> simple_value (JNum (Int n)).

(** A value inside an object is followed by a comma or a brace. *)
Definition ends_value (rest : jsstring) : Prop :=
  exists c r, rest = c :: r /\ (c = 44 \/ c = 125).

Definition member_text (m : jsstring * json) : jsstring :=
  quote (fst m) ++ 58 :: JSON_stringify (snd m).

Definition flat_member (m : jsstring * json) : Prop :=
  wf_string (fst m) /\ simple_value (snd m).

(** [obj_set] over the members in order: what [JSON.parse] builds. *)
Definition define_all (ms acc : list (jsstring * json)) : list (jsstring * json) :=
  fold_left (fun a m => obj_set (fst m) (snd m) a) ms acc.

(** ** Handles and answers *)

(** A handle payload as the data model has it: two non-empty strings and
    a non-negative integer timestamp. *)
Definition valid_handle (p : AsyncRequestPayload) : Prop :=
  wf_string (session_id p) /\ session_id p <> []
  /\ wf_string (message_id p) /\ message_id p <> []
  /\ exists t, submitted_at_ms p = Int t /\ 0 <= t.

(** What each helper makes of the answer of the remote agent. *)

Definition optional_json_of (r : Response) : json :=
  match r with
  | Reply true _ (Ok v) _ => v
  | _ => JNull
  end.

Definition messages_of (r : Response) : result (list json) :=
  match r with
  | NetworkFailure reason => Throw reason
  | Reply false status _ _ =>
      Throw (lit "Failed to get messages: " ++ number_to_string (Int status))
  | Reply true _ (Throw msg) _ => Throw msg
  | Reply true _ (Ok (JArr items)) _ => Ok items
  | Reply true _ (Ok _) _ =>
      Throw (lit "Unexpected message response format: expected an array.")
  end.

Definition pending_of (r : Response) (sessionId : jsstring) : list PendingQuestion :=
  filter (fun question => str_eqb (pq_sessionID question) sessionId)
         (normalizePendingQuestions (optional_json_of r)).

(** The same for a session id that may be any value. *)
Definition pending_for (r : Response) (sessionId : jsvalue) : list PendingQuestion :=
  filter (fun question => same_string (pq_sessionID question) sessionId)
         (normalizePendingQuestions (optional_json_of r)).

(** The answer the environment gives to [req] in world [w]. *)
Definition answer (env : Env) (req : Request) (w : World) : Response :=
  remote env (List.length (trace w)) req.

(** A message that answers the handle: an assistant message whose parent
    is the target message. *)
Definition is_reply_to (target : jsstring) (message : json) : bool :=
  opt_str_is (getMessageRole message) (lit "assistant")
  && opt_str_is (getMessageParentId message) target.

(** [m] is the newest message of the window that answers the handle. *)
Definition latest_reply (window : list json) (target : jsstring) (m : json) : Prop :=
  exists older newer,
    window = older ++ m :: newer
    /\ is_reply_to target m = true
    /\ Forall (fun x => is_reply_to target x = false) newer.

Definition no_reply (window : list json) (target : jsstring) : Prop :=
  Forall (fun x => is_reply_to target x = false) window.

(** The same in terms of the message itself.  A message answers the
    handle when its [info] gives [assistant] for its role and the
    target message for its parent. *)
Definition answers (target : jsstring) (message : json) : Prop :=
  exists info,
    prop (Some message) (lit "info") = Some info
    /\ prop (Some info) (lit "role") = Some (JStr (lit "assistant"))
    /\ prop (Some info) (lit "parentID") = Some (JStr target).

(** [m] answers the handle and no message after it in the window
    does. *)
Definition newest_answer (window : list json) (target : jsstring) (m : json)
  : Prop :=
  exists older newer,
    window = older ++ m :: newer
    /\ answers target m
    /\ Forall (fun x => ~ answers target x) newer.

Definition no_answer (window : list json) (target : jsstring) : Prop :=
  Forall (fun x => ~ answers target x) window.

Definition idle_status (s : option SessionStatusInfo) : Prop :=
  exists info, s = Some info /\ st_type info = idle.

Definition is_prompt_async (req : Request) : bool :=
  match req with
  | PromptAsync _ _ _ _ => true
  | _ => false
  end.

(** The ways the fetch of [/question] fails: the request is rejected,
    the status is not 2xx, the body is not JSON, or it is no array. *)
Definition questions_unavailable (r : Response) : bool :=
  match r with
  | NetworkFailure _ => true
  | Reply false _ _ _ => true
  | Reply true _ (Throw _) _ => true
  | Reply true _ (Ok (JArr _)) _ => false
  | Reply true _ (Ok _) _ => true
  end.

Definition streaming_status (s : option SessionStatusInfo) : Prop :=
  exists info, s = Some info /\ (st_type info = busy \/ st_type info = retry).

(** The reply that [resolve_reply] settles on, and the world it ends
    in: the status request, and one more message request when the
    session is idle. *)
Definition status_answer (env : Env) (sid : jsstring) (w : World)
  : option SessionStatusInfo :=
  getSessionStatusForSession (optional_json_of (answer env GetSessionStatus w)) sid.

Definition resolved_reply (env : Env) (sid target : jsstring) (limit : Z)
  (candidate : json) (w : World) : json :=
  let w1 := after_fetch env GetSessionStatus w in
  if status_is (status_answer env sid w) idle then
    match messages_of (answer env (ListMessages sid limit) w1) with
    | Ok window =>
        match findLatestAssistantReplyByParentId window target with
        | Some fresh => fresh
        | None => candidate
        end
    | Throw _ => candidate
    end
  else candidate.

Definition resolved_world (env : Env) (sid : jsstring) (limit : Z) (w : World)
  : World :=
  let w1 := after_fetch env GetSessionStatus w in
  if status_is (status_answer env sid w) idle
  then after_fetch env (ListMessages sid limit) w1
  else w1.

(** The world after one draw of [Math.random]. *)
Definition drawn (w : World) : World :=
  {| now := now w; trace := trace w; draws := S (draws w) |}.

(** [polls_on w w']: the polling loop entered in world [w] comes to test
    its condition in world [w'], after zero or more iterations that
    found neither a reply nor a pending question and slept. *)
Inductive polls_on (env : Env) (sid target : jsstring)
  (limit intervalMs deadline : Z) : World -> World -> Prop :=
| polls_here w : polls_on env sid target limit intervalMs deadline w w
| polls_later w w' window :
    now w < deadline ->
    messages_of (answer env (ListMessages sid limit) w) = Ok window ->
    no_reply window target ->
    pending_of (answer env ListQuestions
                  (after_fetch env (ListMessages sid limit) w)) sid = [] ->
    polls_on env sid target limit intervalMs deadline
      (after_sleep intervalMs
         (after_fetch env ListQuestions
            (after_fetch env (ListMessages sid limit) w))) w' ->
    polls_on env sid target limit intervalMs deadline w w'.

(** ** Sample data: the scenario of the specification *)

Definition ses_1 : jsstring := lit "ses_1".
Definition msg_1 : jsstring := lit "msg_async_1000_abc".

Definition sample_handle : AsyncRequestPayload :=
  {| session_id := lit "ses_1";
     message_id := lit "msg_async_1000_abc";
     submitted_at_ms := Int 1000 |}.

Definition sample_token : jsstring := encodeAsyncRequestId sample_handle.

Definition text_part (text : string) : json :=
  JObj [(lit "type", JStr (lit "text")); (lit "text", JStr (lit text))].

Definition user_message (id text : string) : json :=
  JObj [(lit "info", JObj [(lit "id", JStr (lit id)); (lit "role", JStr (lit "user"))]);
        (lit "parts", JArr [text_part text])].

Definition assistant_message (id : string) (parent : jsstring) (text : string) : json :=
  JObj [(lit "info", JObj [(lit "id", JStr (lit id));
                            (lit "role", JStr (lit "assistant"));
                            (lit "parentID", JStr parent)]);
        (lit "parts", JArr [text_part text])].

Definition ok_json (v : json) : Response := Reply true 200 (Ok v) [].

(** What [response.json()] makes of a body that is plain text. *)
Definition no_json : result json :=
  Throw (lit "invalid json response body: Unexpected token").

Definition connection_refused : Response :=
  NetworkFailure (lit "request failed, reason: connect ECONNREFUSED").

Definition status_map (sid : jsstring) (type : string) : json :=
  JObj [(sid, JObj [(lit "type", JStr (lit type))])].

Definition start_world : World := {| now := 1000; trace := []; draws := 0 |}.

Definition no_latency : nat -> N := fun _ => 5%N.
Definition suffix_abc : nat -> jsstring := fun _ => lit "abc".

(** The agent has answered twice, then once more before the re-fetch;
    the session is idle. *)
Definition idle_env : Env :=
  {| remote := fun n _ =>
       match n with
       | 0%nat => ok_json (JArr [user_message "m1" "ping";
                                 assistant_message "m2" msg_1 "po";
                                 assistant_message "m3" msg_1 "pon"])
       | 1%nat => ok_json (status_map ses_1 "idle")
       | 2%nat => ok_json (JArr [user_message "m1" "ping";
                                 assistant_message "m2" msg_1 "po";
                                 assistant_message "m3" msg_1 "pon";
                                 assistant_message "m4" msg_1 "pong"])
       | _ => connection_refused
       end;
     latency := no_latency;
     random_suffix := suffix_abc |}.

(** The same race with other messages around: the reply of another
    prompt and a new user message come after the two partial replies,
    and the re-fetch finds the finished reply, again not in the last
    place. *)
Definition other_prompt : jsstring := lit "msg_async_2000_xyz".

Definition racing_env : Env :=
  {| remote := fun n _ =>
       match n with
       | 0%nat => ok_json (JArr [user_message "m1" "ping";
                                 assistant_message "m2" msg_1 "po";
                                 assistant_message "m3" msg_1 "pon";
                                 assistant_message "x1" other_prompt "else";
                                 user_message "m5" "next"])
       | 1%nat => ok_json (status_map ses_1 "idle")
       | 2%nat => ok_json (JArr [user_message "m1" "ping";
                                 assistant_message "m2" msg_1 "po";
                                 assistant_message "m3" msg_1 "pon";
                                 assistant_message "x1" other_prompt "else";
                                 user_message "m5" "next";
                                 assistant_message "m4" msg_1 "pong";
                                 user_message "m6" "thanks"])
       | _ => connection_refused
       end;
     latency := no_latency;
     random_suffix := suffix_abc |}.

(** The session is busy and the window ends in other messages. *)
Definition busy_env : Env :=
  {| remote := fun _ req =>
       match req with
       | ListMessages _ _ =>
           ok_json (JArr [user_message "m1" "ping";
                          assistant_message "m2" msg_1 "po";
                          assistant_message "m3" msg_1 "pon";
                          assistant_message "x1" other_prompt "else";
                          user_message "m5" "next"])
       | GetSessionStatus => ok_json (status_map ses_1 "busy")
       | _ => ok_json (JArr [])
       end;
     latency := no_latency;
     random_suffix := suffix_abc |}.

(** The first message fetch meets a 503; the next one would have found
    the reply. *)
Definition flaky_env : Env :=
  {| remote := fun n req =>
       match n with
       | 0%nat => Reply false 503 no_json (lit "unavailable")
       | _ =>
           match req with
           | ListMessages _ _ =>
               ok_json (JArr [user_message "m1" "ping";
                              assistant_message "m2" msg_1 "pong"])
           | GetSessionStatus => ok_json (status_map ses_1 "idle")
           | _ => ok_json (JArr [])
           end
       end;
     latency := no_latency;
     random_suffix := suffix_abc |}.

Definition pending_question_json (id : string) (sid : jsstring) : json :=
  JObj [(lit "id", JStr (lit id)); (lit "sessionID", JStr sid);
        (lit "questions",
         JArr [JObj [(lit "question", JStr (lit "Proceed?"));
                     (lit "header", JStr (lit "Confirm"))]])].

(** A question is pending for [ses_1]. *)
Definition blocked_env : Env :=
  {| remote := fun _ req =>
       match req with
       | ListQuestions => ok_json (JArr [pending_question_json "que_1" ses_1])
       | ListMessages _ _ => ok_json (JArr [user_message "m1" "ping"])
       | _ => ok_json (JObj [])
       end;
     latency := no_latency;
     random_suffix := suffix_abc |}.

(** [/question] answers 500; everything else works and no reply has
    arrived. *)
Definition no_question_env : Env :=
  {| remote := fun _ req =>
       match req with
       | ListQuestions => Reply false 500 no_json (lit "boom")
       | ListMessages _ _ => ok_json (JArr [user_message "m1" "ping"])
       | _ => ok_json (JObj [])
       end;
     latency := no_latency;
     random_suffix := suffix_abc |}.

(** ** Pages *)

(** The payload after [k] rounds of the safety loop. *)
Definition dropped (cursorOffset : Z) (k : nat) (p : PagePayload) : PagePayload :=
  Nat.iter k (drop_last_item cursorOffset) p.

(** The cursor of a page names the message after the last one returned. *)
Definition cursor_consistent (cursorOffset : Z) (p : PagePayload) : Prop :=
  pg_returned (pl_page p) = array_length (pl_items p)
  /\ pg_next_cursor (pl_page p)
     = if pg_has_more (pl_page p)
       then Some (encodeCursor {| offset := cursorOffset + array_length (pl_items p) |})
       else None.

(** The projected page that the budget loop of a call runs over. *)
Definition projected_page (messages : list json) (pageSize cursorOffset : Z)
  (requestedFields : list jsstring) : list json :=
  map fst (map (fun message => projectMessage message requestedFields)
               (raw_page messages pageSize cursorOffset)).

(** The token estimate of the first [n] items of a page: a quarter of
    the length of their JSON text, rounded up. *)
Definition tokens_of_first (n : nat) (page : list json) : Z :=
  let length := Z.of_nat (List.length (JSON_stringify (JArr (firstn n page)))) in
  (length + 3) / 4.

(** A remote agent that holds [history] and answers a message request
    with its first [limit] messages, oldest first. *)
Definition history_env (history : list json) : Env :=
  {| remote := fun _ req =>
       match req with
       | ListMessages _ limit => ok_json (JArr (firstn (Z.to_nat limit) history))
       | _ => connection_refused
       end;
     latency := no_latency;
     random_suffix := suffix_abc |}.

Definition five_messages : list json :=
  [user_message "m0" "zero"; assistant_message "m1" msg_1 "one";
   user_message "m2" "two"; assistant_message "m3" msg_1 "three";
   user_message "m4" "four"].

Definition all_fields : jsvalue := Some (JArr [JStr (lit "*")]).

(** A message whose text alone is 1000 characters. *)
Definition oversized_message : json :=
  JObj [(lit "info", JObj [(lit "id", JStr (lit "big")); (lit "role", JStr (lit "assistant"))]);
        (lit "parts",
         JArr [JObj [(lit "type", JStr (lit "text"));
                     (lit "text", JStr (repeat 97 1000))]])].

(** The page of a result, if it is one. *)
Definition page_of (r : result ToolResult * World) : option PagePayload :=
  match fst r with
  | Ok (MessagePage p) => Some p
  | _ => None
  end.

(** The cursor a caller holds when [o] messages have been delivered:
    none at the start, the cursor of the previous page afterwards. *)
Definition cursor_at (o : Z) : option jsstring :=
  if o =? 0 then None else Some (encodeCursor {| offset := o |}).

(** A caller that reads a session to its end: it calls
    [opencode_get_messages] without a cursor and then with each
    [next_cursor] it is given, until a page has none.  [None]: a call
    failed, or [fuel] calls were not enough. *)
Fixpoint read_all (env : Env) (sid : jsstring) (limit budget : option number)
  (fields : jsvalue) (fuel : nat) (cursor : option jsstring) (w : World)
  : option (list PagePayload) :=
  match fuel with
  | O => None
  | S fuel' =>
      match opencode_get_messages env sid limit cursor budget fields w with
      | (Ok (MessagePage p), w') =>
          match pg_next_cursor (pl_page p) with
          | Some next =>
              option_map (cons p)
                (read_all env sid limit budget fields fuel' (Some next) w')
          | None => Some [p]
          end
      | _ => None
      end
  end.

(** ** Projection *)

(** The key paths of the members of a value, arrays being transparent:
    [{info: {id: 1}, parts: [{text: "a"}]}] has the member paths [info],
    [info.id], [parts] and [parts.text]. *)
Fixpoint member_paths (v : json) : list path :=
  match v with
  | JArr entries => flat_map member_paths entries
  | JObj members =>
      flat_map
        (fun m =>
           match m with
           | (key, x) => [key] :: map (cons key) (member_paths x)
           end)
        members
  | _ => []
  end.

Definition is_prefix (a b : path) : Prop := exists c, b = a ++ c.

(** A member path lies on a requested path: it leads towards the
    requested field, or into it. *)
Definition on_requested_path (requested : list path) (q : path) : Prop :=
  exists f, In f requested /\ (is_prefix q f \/ is_prefix f q).

(** [extracted item value]: [item] is [value] with members and array
    elements left out; what remains sits under its original key. *)
Inductive extracted : json -> json -> Prop :=
| extracted_whole v : extracted v v
| extracted_array kept entries :
    extracted_entries kept entries -> extracted (JArr kept) (JArr entries)
| extracted_object kept record :
    extracted_members kept record -> extracted (JObj kept) (JObj record)
with extracted_entries : list json -> list json -> Prop :=
| entries_nil : extracted_entries [] []
| entries_drop kept e entries :
    extracted_entries kept entries -> extracted_entries kept (e :: entries)
| entries_keep k kept e entries :
    extracted k e -> extracted_entries kept entries ->
    extracted_entries (k :: kept) (e :: entries)
with extracted_members : list (jsstring * json) -> list (jsstring * json) -> Prop :=
| members_nil record : extracted_members [] record
| members_cons key x kept record v :
    lookup key record = Some v -> extracted x v ->
    extracted_members kept record ->
    extracted_members ((key, x) :: kept) record.

(** What lies behind the member [__proto__] that an object inherits:
    the prototype itself, and one step further its own members. *)
Definition prototype_path (rest : path) : Prop :=
  rest = []
  \/ exists next,
       rest = [next] /\ (next = proto_key \/ In next Object_prototype_methods).

(** [has_path v p]: the path [p] is present in [v].  An array has the
    paths of its elements.  An object has the paths that start at one
    of its members and go on in the value of the member; a member that
    the object inherits counts, as it does for JavaScript's [in], and
    since its value is no JSON object the path ends there (or, for
    [__proto__], one member further). *)
Inductive has_path : json -> path -> Prop :=
| path_end v : has_path v []
| path_in_array entries entry head rest :
    In entry entries -> has_path entry (head :: rest) ->
    has_path (JArr entries) (head :: rest)
| path_in_object record head rest v :
    lookup head record = Some v -> has_path v rest ->
    has_path (JObj record) (head :: rest)
| path_to_method record head :
    lookup head record = None -> In head Object_prototype_methods ->
    has_path (JObj record) [head]
| path_to_prototype record rest :
    lookup proto_key record = None -> prototype_path rest ->
    has_path (JObj record) (proto_key :: rest).

(** The paths through the members that the objects have themselves. *)
Inductive own_path : json -> path -> Prop :=
| own_end v : own_path v []
| own_in_array entries entry head rest :
    In entry entries -> own_path entry (head :: rest) ->
    own_path (JArr entries) (head :: rest)
| own_in_object record head rest v :
    lookup head record = Some v -> own_path v rest ->
    own_path (JObj record) (head :: rest).

(** A path none of whose keys names a member that every object
    inherits. *)
Definition plain_path (p : path) : Prop :=
  forall key, In key p -> key <> proto_key /\ ~ In key Object_prototype_methods.

(** What [projectValue] writes for one bucket, with [lookup] for the
    search of the record. *)
Definition project_member (record : list (jsstring * json))
  (project : json -> list path -> jsvalue) (bucket : jsstring * list path)
  : list (jsstring * json) :=
  match lookup (fst bucket) record with
  | Some v =>
      match project v (snd bucket) with
      | Some projected =>
          if str_eqb (fst bucket) proto_key then [] else [(fst bucket, projected)]
      | None => []
      end
  | None => []
  end.

(** Every tail of a bucket comes from a path that starts with the key
    of the bucket. *)
Definition bucket_sound (paths : list path) (buckets : list (jsstring * list path))
  : Prop :=
  forall key tails tail, In (key, tails) buckets -> In tail tails ->
                         In (key :: tail) paths.

(** Every bucket has a tail. *)
Definition bucket_inhabited (buckets : list (jsstring * list path)) : Prop :=
  forall key tails, In (key, tails) buckets -> tails <> [].

(** [tail] is filed under [key]. *)
Definition bucket_has (buckets : list (jsstring * list path)) (key : jsstring)
  (tail : path) : Prop :=
  exists tails, In (key, tails) buckets /\ In tail tails.

(** ** More sample data *)

(** The fields [info.id] and [info.parentID]. *)
Definition requested_fields_12 : jsvalue :=
  Some (JArr [JStr (lit "info.id"); JStr (lit "info.parentID")]).

(** The base64url text of the JSON object whose [offset] is [null]. *)
Definition null_offset_cursor : jsstring := lit "eyJvZmZzZXQiOm51bGx9".

(** The same with the string ["5"] for the offset. *)
Definition string_offset_cursor : jsstring := lit "eyJvZmZzZXQiOiI1In0".

(* ================================================================== *)
(** * More of [index.ts] *)
(* ================================================================== *)

(** ** getAuthHeader *)

(** [buf.toString("base64")]: the standard alphabet, padded with ['=']
    to a multiple of four characters. *)
Definition b64_char (i : Z) : Z :=
  if i <? 26 then 65 + i
  else if i <? 52 then 97 + (i - 26)
  else if i <? 62 then 48 + (i - 52)
  else if i =? 62 then 43 else 47.

Definition base64_padding (bs : list Z) : jsstring :=
  match (List.length bs mod 3)%nat with
  | 1%nat => [61; 61]
  | 2%nat => [61]
  | _ => []
  end.

Definition base64_encode (bs : list Z) : jsstring :=
  map b64_char (sextets_of_bytes bs) ++ base64_padding bs.

(** [Buffer.from(s, "base64")]: the decoder of [base64url_decode]; Node
    reads both alphabets alike. *)
Definition base64_decode (s : jsstring) : list Z :=
  bytes_of_sextets (sextets_of_string s).

(** The merged configuration of a tool call. *)
Record Config := {
  cfg_url : jsstring;
  cfg_username : jsstring;
  cfg_password : jsstring;
  cfg_token : jsstring;
  cfg_authType : jsstring
}.

(** The headers are a record with at most the key [Authorization]. *)
Definition getAuthHeader (config : Config) : list (jsstring * jsstring) :=
  if str_eqb (cfg_authType config) (lit "bearer") then
    if non_empty (cfg_token config) then
      [(lit "Authorization", lit "Bearer " ++ cfg_token config)]
    else if non_empty (cfg_password config) then
      [(lit "Authorization", lit "Bearer " ++ cfg_password config)]
    else []
  else if str_eqb (cfg_authType config) (lit "basic") then
    let user :=
      if non_empty (cfg_username config) then cfg_username config
      else lit "opencode" in
    let pass := cfg_password config in
    if non_empty pass then
      let credentials := base64_encode (utf8_encode (user ++ lit ":" ++ pass)) in
      [(lit "Authorization", lit "Basic " ++ credentials)]
    else []
  else [].

(** ** opencode_list_questions *)

(** The payload of the result: [count], [session_filter], [items]. *)
Record QuestionList := {
  ql_count : Z;
  ql_session_filter : option jsstring;
  ql_items : list PendingQuestion
}.

Definition opencode_list_questions (env : Env) (session_id : option jsstring)
  : M QuestionList :=
  raw <- fetchOptionalJson env ListQuestions ;;
  let allQuestions := normalizePendingQuestions raw in
  let questions :=
    match session_id with
    | Some (c :: s) =>
        filter (fun item => str_eqb (pq_sessionID item) (c :: s)) allQuestions
    | _ => allQuestions
    end in
  ret {| ql_count := array_length questions;
         ql_session_filter := session_id;
         ql_items := questions |}.

(** ** Vocabulary *)

(** A character of the URL-safe base64 alphabet. *)
Definition url_safe (c : Z) : Prop :=
  65 <= c <= 90 \/ 97 <= c <= 122 \/ 48 <= c <= 57 \/ c = 45 \/ c = 95.

(** The JSON object a handle is the encoding of. *)
Definition handle_json (p : AsyncRequestPayload) : json :=
  JObj [(lit "session_id", JStr (session_id p));
        (lit "message_id", JStr (message_id p));
        (lit "submitted_at_ms", JNum (submitted_at_ms p))].

(** A configuration for [basic] authentication without a user name. *)
Definition basic_config : Config :=
  {| cfg_url := lit "http://127.0.0.1:4096";
     cfg_username := [];
     cfg_password := lit "s3cret";
     cfg_token := [];
     cfg_authType := lit "basic" |}.

(** A request that reads: anything but the creation of a session and
    the posting of a prompt. *)
Definition read_request (req : Request) : bool :=
  match req with
  | CreateSession _ | PromptAsync _ _ _ _ => false
  | _ => true
  end.

(** A computation that only reads: whatever its outcome, it adds
    reading requests to the trace and nothing else, the clock does not
    go back and no random number is drawn. *)
Definition reads_only {A} (m : M A) : Prop :=
  forall w r w',
    m w = (r, w') ->
    now w <= now w'
    /\ draws w' = draws w
    /\ exists requests,
         trace w' = trace w ++ requests
         /\ forallb read_request requests = true.

(* ================================================================== *)
(** * Facts about the platform *)
(* ================================================================== *)

Module JSFacts.

(** Turn boolean comparisons into propositions, everywhere. *)
Ltac zbool :=
  repeat rewrite ?andb_true_iff, ?andb_false_iff, ?orb_true_iff, ?orb_false_iff,
    ?negb_true_iff, ?negb_false_iff,
    ?Z.ltb_lt, ?Z.ltb_ge, ?Z.leb_le, ?Z.leb_gt, ?Z.eqb_eq, ?Z.eqb_neq in *.

Ltac zbool_goal :=
  repeat rewrite ?andb_true_iff, ?andb_false_iff, ?orb_true_iff, ?orb_false_iff,
    ?negb_true_iff, ?negb_false_iff,
    ?Z.ltb_lt, ?Z.ltb_ge, ?Z.leb_le, ?Z.leb_gt, ?Z.eqb_eq, ?Z.eqb_neq.

(** Linear arithmetic with division and remainder by constants. *)
Ltac dlia := cbv beta; Z.to_euclidean_division_equations; lia.

(** Decide the test of a conditional in the goal by arithmetic. *)
Ltac decide_if :=
  match goal with
  | |- context [if ?b then _ else _] =>
      first
        [ replace b with true by (symmetry; zbool_goal; lia)
        | replace b with false by (symmetry; zbool_goal; lia) ]
  end.

Lemma str_eqb_spec (a b : jsstring) : reflect (a = b) (str_eqb a b).
Proof.
  revert b; induction a as [|x a IH]; intros [|y b]; simpl;
    try (constructor; congruence).
  destruct (Z.eqb_spec x y) as [->|Hne]; simpl.
  - destruct (IH b) as [->|Hne]; constructor; congruence.
  - constructor; congruence.
Qed.

Lemma str_eqb_refl (a : jsstring) : str_eqb a a = true.
Proof. destruct (str_eqb_spec a a); congruence. Qed.

Lemma str_eqb_eq (a b : jsstring) : str_eqb a b = true <-> a = b.
Proof. destruct (str_eqb_spec a b); split; congruence. Qed.

Lemma str_eqb_neq (a b : jsstring) : str_eqb a b = false <-> a <> b.
Proof. destruct (str_eqb_spec a b); split; congruence. Qed.

(** Prove [Forall P (x1 :: ... :: l)] with arithmetic heads. *)
Ltac forall_lia :=
  repeat (apply Forall_cons; [dlia|]); try apply Forall_nil; try assumption.

(** Induction over a list three elements at a time. *)
Lemma list_ind3 {A} (P : list A -> Prop) :
  P [] -> (forall a, P [a]) -> (forall a b, P [a; b]) ->
  (forall a b c l, P l -> P (a :: b :: c :: l)) ->
  forall l, P l.
Proof.
  intros H0 H1 H2 H3.
  fix IH 1.
  intros [|a [|b [|c l]]];
    [apply H0 | apply H1 | apply H2 | apply H3, IH].
Qed.

(** ** base64url *)

Lemma unbase64_char (i : Z) :
  0 <= i < 64 -> unbase64 (b64url_char i) = Some i /\ b64url_char i <> 61.
Proof.
  intros Hi. unfold unbase64, b64url_char.
  repeat match goal with
         | |- context [if ?b then _ else _] => destruct b eqn:?
         end; zbool; split; try (f_equal; dlia); try dlia.
Qed.

Lemma b64url_char_byte (i : Z) :
  0 <= i < 64 -> b64url_char i mod 256 = b64url_char i.
Proof.
  intros Hi. apply Z.mod_small. unfold b64url_char.
  repeat match goal with
         | |- context [if ?b then _ else _] => destruct b eqn:?
         end; zbool; lia.
Qed.

Lemma sextets_of_string_chars (vs : list Z) :
  Forall (fun v => 0 <= v < 64) vs ->
  sextets_of_string (map b64url_char vs) = vs.
Proof.
  induction 1 as [|v vs Hv _ IH]; cbn [map sextets_of_string]; [reflexivity|].
  cbv zeta. rewrite (b64url_char_byte v Hv).
  destruct (unbase64_char v Hv) as [-> Hne].
  apply Z.eqb_neq in Hne. rewrite Hne, IH. reflexivity.
Qed.

Lemma sextets_of_bytes_range (bs : list Z) :
  wf_bytes bs -> Forall (fun v => 0 <= v < 64) (sextets_of_bytes bs).
Proof.
  unfold wf_bytes.
  induction bs as [|a|a b|a b c l IH] using list_ind3; intros H; simpl.
  - constructor.
  - inversion_clear H. forall_lia.
  - inversion_clear H as [|? ? Ha H']. inversion_clear H' as [|? ? Hb _].
    forall_lia.
  - inversion_clear H as [|? ? Ha H']. inversion_clear H' as [|? ? Hb H''].
    inversion_clear H'' as [|? ? Hc Hl].
    specialize (IH Hl). forall_lia.
Qed.

Lemma bytes_of_sextets_of_bytes (bs : list Z) :
  wf_bytes bs -> bytes_of_sextets (sextets_of_bytes bs) = bs.
Proof.
  unfold wf_bytes.
  induction bs as [|a|a b|a b c l IH] using list_ind3; intros H; simpl.
  - reflexivity.
  - inversion_clear H. f_equal. dlia.
  - inversion_clear H as [|? ? Ha H']. inversion_clear H' as [|? ? Hb _].
    f_equal; [dlia|]. f_equal. dlia.
  - inversion_clear H as [|? ? Ha H']. inversion_clear H' as [|? ? Hb H''].
    inversion_clear H'' as [|? ? Hc Hl].
    rewrite IH by assumption.
    f_equal; [dlia|]. f_equal; [dlia|]. f_equal. dlia.
Qed.

Lemma base64url_roundtrip (bs : list Z) :
  wf_bytes bs -> base64url_decode (base64url_encode bs) = bs.
Proof.
  intros H. unfold base64url_decode, base64url_encode.
  rewrite sextets_of_string_chars by (apply sextets_of_bytes_range; assumption).
  apply bytes_of_sextets_of_bytes; assumption.
Qed.

(** ** UTF-8 *)

Lemma wf_utf16_app (a b : jsstring) :
  wf_utf16 a -> wf_utf16 b -> wf_utf16 (a ++ b).
Proof.
  induction 1; intros Hb; simpl; auto.
  - apply wf16_unit; auto.
  - apply wf16_pair; auto.
Qed.

Lemma wf_utf16_plain (s : jsstring) :
  Forall (fun c => 0 <= c < 55296) s -> wf_utf16 s.
Proof.
  induction 1 as [|c s Hc _ IH]; [constructor|].
  apply wf16_unit; auto; unfold is_high_surrogate, is_low_surrogate; zbool; dlia.
Qed.

Lemma wf_utf16_wf_string (s : jsstring) : wf_utf16 s -> wf_string s.
Proof.
  unfold wf_string; induction 1; auto.
  unfold is_high_surrogate, is_low_surrogate in *. zbool.
  apply Forall_cons; [dlia|]. apply Forall_cons; [dlia|]. assumption.
Qed.

Lemma utf8_encode_bytes (s : jsstring) :
  wf_utf16 s -> wf_bytes (utf8_encode s).
Proof.
  unfold wf_bytes.
  induction 1 as [|c s Hc Hh Hl _ IH|hi lo s Hh Hl _ IH].
  - constructor.
  - cbn [utf8_encode]. rewrite Hh, Hl.
    destruct (Z.ltb_spec c 128); [forall_lia|].
    destruct (Z.ltb_spec c 2048); forall_lia.
  - unfold is_high_surrogate, is_low_surrogate in Hh, Hl. zbool.
    cbn [utf8_encode]. unfold is_high_surrogate, is_low_surrogate.
    repeat decide_if. cbv zeta. forall_lia.
Qed.

(** The decoder steps through a two-, three- and four-byte sequence. *)
Lemma utf8_decode_2 (a b : Z) (rest : list Z) :
  2 <= a < 32 -> 0 <= b < 64 ->
  utf8_decode_from None (192 + a :: 128 + b :: rest)
  = a * 64 + b :: utf8_decode_from None rest.
Proof.
  intros Ha Hb. cbn [utf8_decode_from]. unfold utf8_lead.
  repeat decide_if. cbn [u_lower u_upper u_needed u_cp app].
  repeat decide_if. unfold utf16_of_code_point. decide_if.
  cbn [app]. f_equal. lia.
Qed.

Lemma utf8_decode_3 (a b c : Z) (rest : list Z) :
  0 <= a < 16 -> 0 <= b < 64 -> 0 <= c < 64 ->
  (a = 0 -> 32 <= b) -> (a = 13 -> b < 32) ->
  utf8_decode_from None (224 + a :: 128 + b :: 128 + c :: rest)
  = a * 4096 + b * 64 + c :: utf8_decode_from None rest.
Proof.
  intros Ha Hb Hc H0 H13. cbn [utf8_decode_from]. unfold utf8_lead.
  destruct (Z.eqb_spec (224 + a) 224); destruct (Z.eqb_spec (224 + a) 237);
    try lia; repeat decide_if; cbn [u_lower u_upper u_needed u_cp app];
    repeat decide_if; cbn [u_lower u_upper u_needed u_cp];
    repeat decide_if; unfold utf16_of_code_point; decide_if;
    cbn [app]; f_equal; lia.
Qed.

Lemma utf8_decode_4 (a b c d : Z) (rest : list Z) :
  0 <= a < 5 -> 0 <= b < 64 -> 0 <= c < 64 -> 0 <= d < 64 ->
  (a = 0 -> 16 <= b) -> (a = 4 -> b < 16) ->
  utf8_decode_from None (240 + a :: 128 + b :: 128 + c :: 128 + d :: rest)
  = utf16_of_code_point (a * 262144 + b * 4096 + c * 64 + d)
    ++ utf8_decode_from None rest.
Proof.
  intros Ha Hb Hc Hd H0 H4. cbn [utf8_decode_from]. unfold utf8_lead.
  destruct (Z.eqb_spec (240 + a) 240); destruct (Z.eqb_spec (240 + a) 244);
    try lia; repeat decide_if; cbn [u_lower u_upper u_needed u_cp app];
    repeat decide_if; cbn [u_lower u_upper u_needed u_cp];
    repeat decide_if; cbn [u_lower u_upper u_needed u_cp];
    repeat decide_if; do 2 f_equal; lia.
Qed.

Lemma utf8_roundtrip (s : jsstring) :
  wf_utf16 s -> utf8_decode (utf8_encode s) = s.
Proof.
  unfold utf8_decode.
  induction 1 as [|c s Hc Hh Hl _ IH|hi lo s Hh Hl _ IH].
  - reflexivity.
  - cbn [utf8_encode]. rewrite Hh, Hl.
    unfold is_high_surrogate, is_low_surrogate in Hh, Hl. zbool.
    destruct (Z.ltb_spec c 128).
    + cbn [utf8_decode_from]. unfold utf8_lead. decide_if.
      cbn [app]. rewrite IH. reflexivity.
    + destruct (Z.ltb_spec c 2048).
      * rewrite utf8_decode_2 by dlia. rewrite IH. f_equal. dlia.
      * rewrite utf8_decode_3 by dlia. rewrite IH. f_equal. dlia.
  - unfold is_high_surrogate, is_low_surrogate in Hh, Hl. zbool.
    cbn [utf8_encode]. unfold is_high_surrogate, is_low_surrogate.
    repeat decide_if. cbv zeta.
    set (cp := 65536 + (hi - 55296) * 1024 + (lo - 56320)).
    assert (Hcp : 65536 <= cp < 1114112) by (subst cp; lia).
    rewrite utf8_decode_4 by dlia. rewrite IH.
    replace (cp / 262144 * 262144 + (cp / 4096) mod 64 * 4096
             + (cp / 64) mod 64 * 64 + cp mod 64) with cp by dlia.
    unfold utf16_of_code_point. decide_if.
    cbn [app]. f_equal; [|f_equal]; subst cp; dlia.
Qed.

Lemma digits_value_snoc (ds : jsstring) (d : Z) :
  digits_value (ds ++ [d]) = digits_value ds * 10 + (d - 48).
Proof. unfold digits_value. rewrite fold_left_app. reflexivity. Qed.

Lemma digits_aux_step (fuel : nat) (n : Z) (acc : jsstring) :
  digits_aux (S fuel) n acc
  = if n <? 10 then 48 + n mod 10 :: acc
    else digits_aux fuel (n / 10) (48 + n mod 10 :: acc).
Proof. reflexivity. Qed.

Lemma digits_aux_spec (fuel : nat) :
  forall n acc, 0 <= n < 2 ^ Z.of_nat (S fuel) ->
  exists d ds,
    digits_aux (S fuel) n acc = d :: ds ++ acc
    /\ Forall digit_char (d :: ds)
    /\ digits_value (d :: ds) = n
    /\ (n = 0 -> d = 48 /\ ds = [])
    /\ (0 < n -> 49 <= d).
Proof.
  induction fuel as [|fuel IH]; intros n acc Hn.
  - change (2 ^ Z.of_nat 1) with 2 in Hn.
    exists (48 + n mod 10), []. rewrite digits_aux_step. cbn [app].
    replace (n <? 10) with true by (symmetry; apply Z.ltb_lt; lia).
    unfold digit_char, digits_value. cbn [fold_left].
    repeat split; try (apply Forall_cons; [|apply Forall_nil]); dlia.
  - rewrite digits_aux_step.
    destruct (Z.ltb_spec n 10) as [Hlt|Hge].
    + exists (48 + n mod 10), []. cbn [app].
      unfold digit_char, digits_value. cbn [fold_left].
      repeat split; try (apply Forall_cons; [|apply Forall_nil]); dlia.
    + assert (Hq : 0 <= n / 10 < 2 ^ Z.of_nat (S fuel)).
      { rewrite Nat2Z.inj_succ, Z.pow_succ_r in Hn by lia. dlia. }
      destruct (IH (n / 10) (48 + n mod 10 :: acc) Hq)
        as (d & ds & Heq & Hall & Hval & _ & Hpos).
      exists d, (ds ++ [48 + n mod 10]).
      rewrite Heq, <- app_assoc. cbn [app].
      split; [reflexivity|]. split; [|split; [|split]].
      * change (d :: ds ++ [48 + n mod 10]) with ((d :: ds) ++ [48 + n mod 10]).
        apply Forall_app. split; [assumption|].
        apply Forall_cons; [unfold digit_char; dlia|apply Forall_nil].
      * change (d :: ds ++ [48 + n mod 10]) with ((d :: ds) ++ [48 + n mod 10]).
        rewrite digits_value_snoc, Hval. dlia.
      * lia.
      * intros _. apply Hpos. dlia.
Qed.

Lemma digits_spec (n : Z) :
  0 <= n ->
  exists d ds,
    digits n = d :: ds
    /\ Forall digit_char (d :: ds)
    /\ digits_value (d :: ds) = n
    /\ (n = 0 -> d = 48 /\ ds = [])
    /\ (0 < n -> 49 <= d).
Proof.
  intros Hn. unfold digits.
  assert (Hb : 0 <= n < 2 ^ Z.of_nat (S (Z.to_nat (Z.log2 n)))).
  { split; [assumption|].
    rewrite Nat2Z.inj_succ, Z2Nat.id by apply Z.log2_nonneg.
    destruct (Z.eq_dec n 0) as [->|Hne]; [reflexivity|].
    apply Z.log2_spec. lia. }
  destruct (digits_aux_spec _ n [] Hb) as (d & ds & Heq & H).
  exists d, ds. rewrite Heq, app_nil_r. auto.
Qed.

Lemma digits_plain (n : Z) :
  0 <= n -> Forall (fun c => 0 <= c < 55296) (digits n).
Proof.
  intros Hn. destruct (digits_spec n Hn) as (d & ds & -> & Hall & _).
  eapply Forall_impl; [|exact Hall]. unfold digit_char. intros; lia.
Qed.

Lemma take_digits_app (ds rest : jsstring) :
  Forall digit_char ds -> ends_number rest ->
  take_digits (ds ++ rest) = (ds, rest).
Proof.
  intros Hds Hrest. induction Hds as [|d ds Hd _ IH]; cbn [app].
  - destruct rest as [|c rest]; [reflexivity|]. cbn [take_digits].
    unfold is_digit. destruct Hrest as [Hc _].
    replace ((48 <=? c) && (c <=? 57)) with false
      by (symmetry; zbool_goal; lia).
    reflexivity.
  - cbn [take_digits]. unfold is_digit. unfold digit_char in Hd.
    replace ((48 <=? d) && (d <=? 57)) with true
      by (symmetry; zbool_goal; lia).
    rewrite IH. reflexivity.
Qed.

Lemma parse_exponent_none (rest : jsstring) :
  ends_number rest -> parse_exponent rest = Some (0, rest).
Proof.
  destruct rest as [|c rest]; [reflexivity|]. intros (_ & _ & He & HE).
  cbn [parse_exponent].
  replace ((c =? 101) || (c =? 69)) with false by (symmetry; zbool_goal; lia).
  reflexivity.
Qed.

Lemma parse_number_digits (n : Z) (rest : jsstring) :
  0 <= n -> ends_number rest ->
  parse_number (digits n ++ rest) = Some (Int n, rest).
Proof.
  intros Hn Hrest.
  destruct (digits_spec n Hn) as (d & ds & -> & Hall & Hval & Hzero & Hpos).
  assert (Hd : digit_char d) by (inversion Hall; assumption).
  unfold digit_char in Hd.
  unfold parse_number. cbn [app].
  replace (d =? 45) with false by (symmetry; zbool_goal; lia).
  assert (Hfrac : forall (r : jsstring), ends_number r ->
            match r with
            | c :: r' =>
                if c =? 46
                then let '(fp, r'') := take_digits r' in
                     if is_nil fp then None else Some (fp, r'')
                else Some ([], r)
            | [] => Some ([], r)
            end = Some (@nil Z, r)).
  { intros [|c r] Hr; [reflexivity|]. destruct Hr as (_ & Hdot & _).
    replace (c =? 46) with false by (symmetry; zbool_goal; lia). reflexivity. }
  destruct (Z.eqb_spec d 48) as [->|Hne].
  - assert (n = 0) by (destruct (Z.eq_dec n 0); [assumption|];
                       specialize (Hpos ltac:(lia)); lia).
    destruct (Hzero H) as [_ ->]. cbn [app is_nil].
    rewrite Hfrac by assumption. rewrite parse_exponent_none by assumption.
    cbn [app List.length]. subst n. reflexivity.
  - change (d :: ds ++ rest) with ((d :: ds) ++ rest).
    rewrite take_digits_app by assumption. cbn [is_nil].
    rewrite Hfrac by assumption. rewrite parse_exponent_none by assumption.
    rewrite app_nil_r, Hval. cbn [List.length Z.of_nat].
    unfold make_number. cbn. rewrite Z.mul_1_r. reflexivity.
Qed.

(** ** String literals *)

Lemma hex_value_digit (d : Z) : 0 <= d < 16 -> hex_value (hex_digit d) = Some d.
Proof.
  intros Hd. unfold hex_value, hex_digit.
  destruct (Z.ltb_spec d 10); repeat decide_if; f_equal; lia.
Qed.

Lemma hex4_unicode_escape (c : Z) :
  0 <= c < 65536 ->
  hex4_value (hex_digit (c / 4096)) (hex_digit ((c / 256) mod 16))
             (hex_digit ((c / 16) mod 16)) (hex_digit (c mod 16)) = Some c.
Proof.
  intros Hc. unfold hex4_value.
  rewrite !hex_value_digit by dlia. f_equal. dlia.
Qed.

Lemma parse_unicode_escape (c : Z) (rest : jsstring) :
  0 <= c < 65536 ->
  parse_string_body (unicode_escape c ++ rest)
  = cons_result c (parse_string_body rest).
Proof.
  intros Hc. unfold unicode_escape. cbn [app parse_string_body].
  change (92 =? 34) with false. change (92 =? 92) with true.
  change (117 =? 117) with true. cbv iota.
  rewrite hex4_unicode_escape by assumption. reflexivity.
Qed.

Lemma parse_plain_char (c : Z) (rest : jsstring) :
  32 <= c -> c <> 34 -> c <> 92 ->
  parse_string_body (c :: rest) = cons_result c (parse_string_body rest).
Proof.
  intros H1 H2 H3. cbn [parse_string_body].
  repeat decide_if. reflexivity.
Qed.

Lemma parse_quote_unit (c : Z) (rest : jsstring) :
  0 <= c < 65536 ->
  parse_string_body (quote_unit c ++ rest)
  = cons_result c (parse_string_body rest).
Proof.
  intros Hc. unfold quote_unit.
  repeat match goal with
         | |- context [if ?x =? ?k then _ else _] =>
             destruct (Z.eqb_spec x k) as [->|?]; [reflexivity|]
         end.
  destruct (Z.ltb_spec c 32); [apply parse_unicode_escape; assumption|].
  destruct (is_low_surrogate c); [apply parse_unicode_escape; assumption|].
  apply parse_plain_char; lia.
Qed.

Lemma parse_quote_chars (s rest : jsstring) :
  wf_string s ->
  parse_string_body (quote_chars s ++ 34 :: rest) = Some (s, rest).
Proof.
  unfold wf_string.
  remember (List.length s) as n eqn:Hlen.
  assert (Hle : (List.length s <= n)%nat) by lia. clear Hlen.
  revert s Hle. induction n as [|n IH]; intros s Hle Hwf.
  - destruct s; [reflexivity|simpl in Hle; lia].
  - destruct s as [|c s]; [reflexivity|].
    inversion_clear Hwf as [|? ? Hc Hs]. cbn [List.length] in Hle.
    cbn [quote_chars].
    destruct (is_high_surrogate c) eqn:Hhi.
    + unfold is_high_surrogate in Hhi. zbool.
      destruct s as [|d s].
      * rewrite parse_unicode_escape by assumption. reflexivity.
      * inversion_clear Hs as [|? ? Hd Hs'].
        destruct (is_low_surrogate d) eqn:Hlo.
        -- unfold is_low_surrogate in Hlo. zbool. cbn [app].
           rewrite parse_plain_char by lia. rewrite parse_plain_char by lia.
           rewrite IH; [reflexivity| cbn [List.length] in Hle; lia | assumption].
        -- rewrite <- app_assoc, parse_unicode_escape by assumption.
           rewrite IH; [reflexivity| lia |].
           apply Forall_cons; assumption.
    + rewrite <- app_assoc, parse_quote_unit by assumption.
      rewrite IH; [reflexivity| lia | assumption].
Qed.

Lemma unicode_escape_plain (c : Z) :
  0 <= c < 65536 -> Forall (fun x => 0 <= x < 55296) (unicode_escape c).
Proof.
  intros Hc. unfold unicode_escape.
  assert (Hh : forall d, 0 <= d < 16 -> 0 <= hex_digit d < 55296).
  { intros d Hd. unfold hex_digit. destruct (Z.ltb_spec d 10); lia. }
  repeat (apply Forall_cons; [first [lia | apply Hh; dlia]|]).
  apply Forall_nil.
Qed.

Lemma quote_chars_wf (s : jsstring) : wf_string s -> wf_utf16 (quote_chars s).
Proof.
  unfold wf_string.
  remember (List.length s) as n eqn:Hlen.
  assert (Hle : (List.length s <= n)%nat) by lia. clear Hlen.
  revert s Hle. induction n as [|n IH]; intros s Hle Hwf.
  - destruct s; [constructor|simpl in Hle; lia].
  - destruct s as [|c s]; [constructor|].
    inversion_clear Hwf as [|? ? Hc Hs]. cbn [List.length] in Hle.
    cbn [quote_chars].
    destruct (is_high_surrogate c) eqn:Hhi.
    + destruct s as [|d s].
      * apply wf_utf16_plain, unicode_escape_plain; assumption.
      * inversion_clear Hs as [|? ? Hd Hs'].
        destruct (is_low_surrogate d) eqn:Hlo.
        -- apply wf16_pair; auto. apply IH; [cbn [List.length] in Hle; lia|assumption].
        -- apply wf_utf16_app.
           ++ apply wf_utf16_plain, unicode_escape_plain; assumption.
           ++ apply IH; [lia|]. apply Forall_cons; assumption.
    + apply wf_utf16_app; [|apply IH; [lia|assumption]].
      unfold quote_unit.
      repeat match goal with
             | |- context [if ?x =? ?k then _ else _] =>
                 destruct (Z.eqb_spec x k) as [->|?];
                 [apply wf_utf16_plain; repeat (apply Forall_cons; [lia|]);
                  apply Forall_nil|]
             end.
      destruct (Z.ltb_spec c 32);
        [apply wf_utf16_plain, unicode_escape_plain; assumption|].
      destruct (is_low_surrogate c) eqn:Hlo;
        [apply wf_utf16_plain, unicode_escape_plain; assumption|].
      apply wf16_unit; auto. constructor.
Qed.

Lemma quote_wf (s : jsstring) : wf_string s -> wf_utf16 (quote s).
Proof.
  intros H. unfold quote.
  change (34 :: quote_chars s ++ [34]) with ([34] ++ quote_chars s ++ [34]).
  apply wf_utf16_app; [apply wf_utf16_plain; forall_lia|].
  apply wf_utf16_app; [apply quote_chars_wf; assumption|].
  apply wf_utf16_plain; forall_lia.
Qed.

Lemma skip_ws_other (c : Z) (r : jsstring) :
  is_json_ws c = false -> skip_ws (c :: r) = c :: r.
Proof. intros H. cbn [skip_ws]. rewrite H. reflexivity. Qed.

Lemma parse_value_simple (fuel : nat) (v : json) (rest : jsstring) :
  simple_value v -> ends_value rest ->
  parse_value (S fuel) (JSON_stringify v ++ rest) = Some (v, rest).
Proof.
  intros Hv (c & r & -> & Hc). destruct Hv as [s Hs|n Hn].
  - cbn [JSON_stringify]. unfold quote. cbn [app].
    cbn [parse_value]. rewrite skip_ws_other by reflexivity.
    change (34 =? 110) with false. change (34 =? 116) with false.
    change (34 =? 102) with false. change (34 =? 34) with true. cbv iota.
    rewrite <- app_assoc. cbn [app].
    rewrite parse_quote_chars by assumption. reflexivity.
  - cbn [JSON_stringify number_to_string].
    replace (n <? 0) with false by (symmetry; apply Z.ltb_ge; lia).
    assert (Hend : ends_number (c :: r)) by (cbn; lia).
    pose proof (parse_number_digits n (c :: r) Hn Hend) as Hnum.
    destruct (digits_spec n Hn) as (d & ds & Heq & Hall & _).
    rewrite Heq in *. inversion_clear Hall as [|? ? Hd _].
    unfold digit_char in Hd. cbn [app] in *.
    cbn [parse_value]. rewrite skip_ws_other
      by (unfold is_json_ws; zbool_goal; lia).
    repeat decide_if. rewrite Hnum. reflexivity.
Qed.

Lemma parse_members_flat (depth : nat) (ms : list (jsstring * json)) :
  forall fuel acc rest,
  (0 < depth)%nat ->
  ms <> [] -> Forall flat_member ms -> (List.length ms <= fuel)%nat ->
  parse_members (parse_value depth) fuel acc
    (join_comma (map member_text ms) ++ 125 :: rest)
  = Some (define_all ms acc, rest).
Proof.
  intros fuel acc rest Hdepth. destruct depth as [|pfuel]; [lia|]. clear Hdepth.
  revert fuel acc rest.
  induction ms as [|[k v] ms IH]; intros fuel acc rest Hne Hall Hfuel;
    [congruence|].
  inversion_clear Hall as [|? ? [Hk Hv] Hms]. cbn [fst snd] in *.
  destruct fuel as [|fuel]; [cbn [List.length] in Hfuel; lia|].
  cbn [List.length] in Hfuel.
  assert (Hstep : forall tail, ends_value tail ->
            parse_members (parse_value (S pfuel)) (S fuel) acc
              (member_text (k, v) ++ tail)
            = match skip_ws tail with
              | 44 :: r4 =>
                  parse_members (parse_value (S pfuel)) fuel (obj_set k v acc) r4
              | 125 :: r4 => Some (obj_set k v acc, r4)
              | _ => None
              end).
  { intros tail Htail. unfold member_text, quote. cbn [fst snd app].
    cbn [parse_members]. rewrite skip_ws_other by reflexivity.
    rewrite <- !app_assoc. cbn [app].
    rewrite parse_quote_chars by assumption.
    rewrite skip_ws_other by reflexivity.
    rewrite parse_value_simple by assumption. reflexivity. }
  destruct ms as [|m ms].
  - cbn [map join_comma]. rewrite Hstep by (eexists _, _; split; [reflexivity|lia]).
    rewrite skip_ws_other by reflexivity. reflexivity.
  - change (join_comma (map member_text ((k, v) :: m :: ms)))
      with (member_text (k, v) ++ 44 :: join_comma (map member_text (m :: ms))).
    rewrite <- app_assoc. cbn [app].
    rewrite Hstep by (eexists _, _; split; [reflexivity|lia]).
    rewrite skip_ws_other by reflexivity.
    rewrite IH; [reflexivity|congruence|assumption|lia].
Qed.

Lemma stringify_object (ms : list (jsstring * json)) :
  JSON_stringify (JObj ms) = 123 :: join_comma (map member_text ms) ++ [125].
Proof.
  cbn [JSON_stringify]. do 3 f_equal. apply map_ext. intros [k v]. reflexivity.
Qed.

Lemma parse_value_object (fuel : nat) (r : jsstring) :
  parse_value (S fuel) (123 :: 34 :: r)
  = match parse_members (parse_value fuel) (S (List.length (34 :: r))) []
            (34 :: r) with
    | Some (ms, r') => Some (JObj ms, r')
    | None => None
    end.
Proof. reflexivity. Qed.

Lemma join_comma_length (ms : list (jsstring * json)) :
  (List.length ms <= S (List.length (join_comma (map member_text ms))))%nat.
Proof.
  induction ms as [|m [|m' ms] IH]; cbn [List.length map join_comma] in *;
    try lia.
  rewrite length_app. cbn [List.length]. lia.
Qed.

Lemma parse_stringify_flat (ms : list (jsstring * json)) :
  ms <> [] -> Forall flat_member ms ->
  JSON_parse (JSON_stringify (JObj ms)) = Some (JObj (define_all ms [])).
Proof.
  intros Hne Hall. rewrite stringify_object. unfold JSON_parse.
  pose proof (join_comma_length ms) as Hlen.
  set (body := join_comma (map member_text ms)) in *.
  assert (Hbody : exists r, body ++ [125] = 34 :: r).
  { subst body. destruct ms as [|[k v] ms]; [congruence|].
    destruct ms; cbn [map join_comma]; unfold member_text, quote;
      cbn [fst app]; eauto. }
  destruct Hbody as (r & Hbody).
  assert (Hr : (List.length ms <= S (List.length (34%Z :: r)))%nat).
  { rewrite <- Hbody, length_app. cbn [List.length]. lia. }
  cbn [List.length]. rewrite Hbody, parse_value_object.
  set (fuel := S (List.length (34 :: r))) in *. rewrite <- Hbody.
  subst body. rewrite parse_members_flat by (assumption || (subst fuel; lia)).
  reflexivity.
Qed.

Lemma stringify_flat_wf (ms : list (jsstring * json)) :
  Forall flat_member ms -> wf_utf16 (JSON_stringify (JObj ms)).
Proof.
  intros Hall. rewrite stringify_object.
  change (123 :: join_comma (map member_text ms) ++ [125])
    with ([123] ++ join_comma (map member_text ms) ++ [125]).
  apply wf_utf16_app; [apply wf_utf16_plain; forall_lia|].
  apply wf_utf16_app; [|apply wf_utf16_plain; forall_lia].
  assert (Hm : forall m, flat_member m -> wf_utf16 (member_text m)).
  { intros [k v] [Hk Hv]. unfold member_text. cbn [fst snd] in *.
    apply wf_utf16_app; [apply quote_wf; assumption|].
    change (58 :: JSON_stringify v) with ([58] ++ JSON_stringify v).
    apply wf_utf16_app; [apply wf_utf16_plain; forall_lia|].
    destruct Hv as [s Hs|n Hn]; cbn [JSON_stringify number_to_string].
    - apply quote_wf; assumption.
    - replace (n <? 0) with false by (symmetry; apply Z.ltb_ge; lia).
      apply wf_utf16_plain, digits_plain; assumption. }
  induction Hall as [|m ms Hmm Hms IH]; [constructor|].
  destruct ms as [|m' ms]; [cbn [map join_comma]; apply Hm; assumption|].
  change (join_comma (map member_text (m :: m' :: ms)))
    with (member_text m ++ [44] ++ join_comma (map member_text (m' :: ms))).
  apply wf_utf16_app; [apply Hm; assumption|].
  apply wf_utf16_app; [apply wf_utf16_plain; forall_lia|exact IH].
Qed.

(** The codec of both tokens on a flat object. *)
Lemma token_roundtrip (ms : list (jsstring * json)) :
  ms <> [] -> Forall flat_member ms ->
  JSON_parse
    (utf8_decode
       (base64url_decode
          (base64url_encode (utf8_encode (JSON_stringify (JObj ms))))))
  = Some (JObj (define_all ms [])).
Proof.
  intros Hne Hall.
  pose proof (stringify_flat_wf ms Hall) as Hwf.
  rewrite base64url_roundtrip by (apply utf8_encode_bytes; assumption).
  rewrite utf8_roundtrip by assumption.
  apply parse_stringify_flat; assumption.
Qed.

Lemma lit_wf (s : string) : wf_string (lit s).
Proof.
  unfold wf_string, lit. apply Forall_map, Forall_forall. intros a _.
  pose proof (N_ascii_bounded a). lia.
Qed.

End JSFacts.

Import JSFacts.

(* ================================================================== *)
(** * Token codecs *)
(* ================================================================== *)

Lemma decodeCursor_encodeCursor (n : Z) :
  0 <= n -> decodeCursor (Some (encodeCursor {| offset := n |})) = Ok {| offset := n |}.
Proof.
  intros Hn. unfold decodeCursor, encodeCursor. cbn [offset].
  set (ms := [(lit "offset", JNum (Int n))]).
  assert (Hflat : Forall flat_member ms).
  { subst ms. apply Forall_cons; [|apply Forall_nil].
    split; [apply lit_wf|apply simple_int; assumption]. }
  assert (Hne : ms <> []) by (subst ms; discriminate).
  rewrite (token_roundtrip ms Hne Hflat).
  destruct (base64url_encode (utf8_encode (JSON_stringify (JObj ms)))) eqn:Henc.
  - exfalso. rewrite stringify_object in Henc. discriminate.
  - subst ms. cbn. replace (n <? 0) with false by (symmetry; apply Z.ltb_ge; lia).
    reflexivity.
Qed.

Lemma decodeAsyncRequestId_encodeAsyncRequestId (p : AsyncRequestPayload) :
  wf_string (session_id p) -> wf_string (message_id p) ->
  (exists t, submitted_at_ms p = Int t /\ 0 <= t) ->
  decodeAsyncRequestId (encodeAsyncRequestId p) = Ok p.
Proof.
  intros Hs Hm (t & Ht & Hpos). destruct p as [sid mid ts].
  cbn [session_id message_id submitted_at_ms] in *. subst ts.
  unfold decodeAsyncRequestId, encodeAsyncRequestId.
  cbn [session_id message_id submitted_at_ms].
  set (ms := [(lit "session_id", JStr sid); (lit "message_id", JStr mid);
              (lit "submitted_at_ms", JNum (Int t))]).
  assert (Hflat : Forall flat_member ms).
  { subst ms. repeat (apply Forall_cons; [split; [apply lit_wf|]|]);
      cbn [snd]; try apply Forall_nil; constructor; assumption. }
  assert (Hne : ms <> []) by (subst ms; discriminate).
  rewrite (token_roundtrip ms Hne Hflat). subst ms. reflexivity.
Qed.

(** C7 (codec round-trip).  For every valid handle payload, a non-empty
    [session_id], a non-empty [message_id] and an integer
    [submitted_at_ms >= 0], [decodeAsyncRequestId] gives back what
    [encodeAsyncRequestId] was given; for every integer offset [n >= 0],
    so also for those up to 2^31, [decodeCursor] gives back the offset
    that [encodeCursor] was given; and an absent cursor decodes to
    offset 0.  The strings are arbitrary sequences of UTF-16 code units. *)
Theorem codec_roundtrip (p : AsyncRequestPayload) (n : Z) :
  valid_handle p -> 0 <= n ->
  decodeAsyncRequestId (encodeAsyncRequestId p) = Ok p
  /\ decodeCursor (Some (encodeCursor {| offset := n |})) = Ok {| offset := n |}
  /\ decodeCursor None = Ok {| offset := 0 |}.
Proof.
  intros (Hs & _ & Hm & _ & Ht) Hn. split; [|split].
  - apply decodeAsyncRequestId_encodeAsyncRequestId; assumption.
  - apply decodeCursor_encodeCursor; assumption.
  - reflexivity.
Qed.

Lemma codec_roundtrip_witness :
  (valid_handle sample_handle /\ 0 <= 2 ^ 31)
  /\ decodeAsyncRequestId (encodeAsyncRequestId sample_handle) = Ok sample_handle
  /\ decodeCursor (Some (encodeCursor {| offset := 2 ^ 31 |}))
     = Ok {| offset := 2 ^ 31 |}
  /\ decodeCursor None = Ok {| offset := 0 |}.
Proof.
  assert (Hv : valid_handle sample_handle).
  { unfold valid_handle, sample_handle.
    cbn [session_id message_id submitted_at_ms].
    split; [apply lit_wf|]. split; [discriminate|].
    split; [apply lit_wf|]. split; [discriminate|].
    exists 1000. split; [reflexivity|lia]. }
  assert (Hn : 0 <= 2 ^ 31) by lia.
  split; [split; assumption|].
  exact (codec_roundtrip sample_handle (2 ^ 31) Hv Hn).
Defined.

Example encodeCursor_2 : encodeCursor {| offset := 2 |} = lit "eyJvZmZzZXQiOjJ9".
Proof. vm_compute. reflexivity. Qed.

(* ================================================================== *)
(** * Running the effects *)
(* ================================================================== *)

Lemma bind_run {A B} (m : M A) (k : A -> M B) (w : World) :
  bind m k w = match m w with
               | (Ok a, w') => k a w'
               | (Throw msg, w') => (Throw msg, w')
               end.
Proof. reflexivity. Qed.

Lemma fetch_run (env : Env) (req : Request) (w : World) :
  fetch env req w
  = (match answer env req w with
     | NetworkFailure reason => Throw reason
     | r => Ok r
     end, after_fetch env req w).
Proof. unfold fetch, answer. destruct (remote env _ req); reflexivity. Qed.

Lemma fetchOptionalJson_run (env : Env) (req : Request) (w : World) :
  fetchOptionalJson env req w
  = (Ok (optional_json_of (answer env req w)), after_fetch env req w).
Proof.
  unfold fetchOptionalJson, try_catch. rewrite bind_run, fetch_run.
  destruct (answer env req w) as [|[|] status [v|] text]; reflexivity.
Qed.

Lemma fetchSessionMessages_run (env : Env) (sid : jsstring) (limit : Z) (w : World) :
  fetchSessionMessages env sid limit w
  = (messages_of (answer env (ListMessages sid limit) w),
     after_fetch env (ListMessages sid limit) w).
Proof.
  unfold fetchSessionMessages. rewrite bind_run, fetch_run.
  destruct (answer env _ w) as [|[|] status [v|] text]; try reflexivity.
  destruct v; reflexivity.
Qed.

Lemma fetchPendingQuestionsForSession_value (env : Env) (v : jsvalue) (w : World) :
  fetchPendingQuestionsForSession env v w
  = (Ok (pending_for (answer env ListQuestions w) v),
     after_fetch env ListQuestions w).
Proof.
  unfold fetchPendingQuestionsForSession. rewrite bind_run, fetchOptionalJson_run.
  reflexivity.
Qed.

Lemma fetchPendingQuestionsForSession_run (env : Env) (sid : jsstring) (w : World) :
  fetchPendingQuestionsForSession env (Some (JStr sid)) w
  = (Ok (pending_of (answer env ListQuestions w) sid),
     after_fetch env ListQuestions w).
Proof. apply fetchPendingQuestionsForSession_value. Qed.

Lemma fetchSessionStatusForSession_run (env : Env) (sid : jsstring) (w : World) :
  fetchSessionStatusForSession env sid w
  = (Ok (getSessionStatusForSession
           (optional_json_of (answer env GetSessionStatus w)) sid),
     after_fetch env GetSessionStatus w).
Proof.
  unfold fetchSessionStatusForSession. rewrite bind_run, fetchOptionalJson_run.
  reflexivity.
Qed.

(** ** The newest matching reply *)

Lemma scan_back_some (l : list json) (target : jsstring) (m : json) :
  scan_back l target = Some m <->
  exists before after,
    l = before ++ m :: after
    /\ Forall (fun x => is_reply_to target x = false) before
    /\ is_reply_to target m = true.
Proof.
  induction l as [|x l IH]; cbn [scan_back].
  - split; [discriminate|]. intros (b & a & H & _). destruct b; discriminate.
  - unfold is_reply_to in *.
    destruct (opt_str_is (getMessageRole x) (lit "assistant")) eqn:Hrole;
      cbn [negb andb].
    + destruct (opt_str_is (getMessageParentId x) target) eqn:Hparent;
        cbn [negb].
      * split.
        -- intros [= <-]. exists [], l. rewrite Hrole, Hparent. auto.
        -- intros ([|y b] & a & Heq & Hb & Hm); cbn [app] in Heq.
           ++ congruence.
           ++ injection Heq as <- _. inversion_clear Hb as [|? ? Hy _].
              rewrite Hrole, Hparent in Hy. discriminate.
      * rewrite IH. split.
        -- intros (b & a & -> & Hb & Hm). exists (x :: b), a.
           split; [reflexivity|]. split; [|assumption].
           constructor; [rewrite Hrole, Hparent; reflexivity|assumption].
        -- intros ([|y b] & a & Heq & Hb & Hm); cbn [app] in Heq.
           ++ injection Heq as <- _. rewrite Hrole, Hparent in Hm. discriminate.
           ++ injection Heq as <- ->. inversion_clear Hb. eauto.
    + rewrite IH. split.
      * intros (b & a & -> & Hb & Hm). exists (x :: b), a.
        split; [reflexivity|]. split; [|assumption].
        constructor; [rewrite Hrole; reflexivity|assumption].
      * intros ([|y b] & a & Heq & Hb & Hm); cbn [app] in Heq.
        -- injection Heq as <- _. rewrite Hrole in Hm. discriminate.
        -- injection Heq as <- ->. inversion_clear Hb. eauto.
Qed.

Lemma scan_back_none (l : list json) (target : jsstring) :
  scan_back l target = None <-> Forall (fun x => is_reply_to target x = false) l.
Proof.
  induction l as [|x l IH]; cbn [scan_back].
  - split; auto.
  - unfold is_reply_to in *.
    destruct (opt_str_is (getMessageRole x) (lit "assistant")) eqn:Hrole;
      cbn [negb andb].
    + destruct (opt_str_is (getMessageParentId x) target) eqn:Hparent;
        cbn [negb].
      * split; [discriminate|]. intros H. inversion_clear H as [|? ? Hx _].
        rewrite Hrole, Hparent in Hx. discriminate.
      * rewrite IH. split.
        -- intros H. constructor; [rewrite Hrole, Hparent; reflexivity|assumption].
        -- intros H. inversion_clear H. assumption.
    + rewrite IH. split.
      * intros H. constructor; [rewrite Hrole; reflexivity|assumption].
      * intros H. inversion_clear H. assumption.
Qed.

Lemma findLatest_some (window : list json) (target : jsstring) (m : json) :
  findLatestAssistantReplyByParentId window target = Some m
  <-> latest_reply window target m.
Proof.
  unfold findLatestAssistantReplyByParentId, latest_reply.
  rewrite scan_back_some. split.
  - intros (b & a & Hrev & Hb & Hm). exists (rev a), (rev b).
    split; [|split; [assumption|]].
    + rewrite <- (rev_involutive window), Hrev, rev_app_distr. cbn [rev].
      rewrite <- app_assoc. reflexivity.
    + apply Forall_rev. assumption.
  - intros (older & newer & -> & Hm & Hn). exists (rev newer), (rev older).
    split; [|split; [|assumption]].
    + rewrite rev_app_distr. cbn [rev]. rewrite <- app_assoc. reflexivity.
    + apply Forall_rev. assumption.
Qed.

Lemma findLatest_none (window : list json) (target : jsstring) :
  findLatestAssistantReplyByParentId window target = None
  <-> no_reply window target.
Proof.
  unfold findLatestAssistantReplyByParentId, no_reply. rewrite scan_back_none.
  split; intros H.
  - rewrite <- (rev_involutive window). apply Forall_rev. assumption.
  - apply Forall_rev. assumption.
Qed.

Lemma latest_reply_unique (window : list json) (target : jsstring) (a b : json) :
  latest_reply window target a -> latest_reply window target b -> a = b.
Proof.
  intros Ha Hb. apply findLatest_some in Ha, Hb. congruence.
Qed.

(** ** What the comparison of the code says of the message *)

Lemma info_string_member (message : json) (key value : jsstring) :
  info_string message key = Some value ->
  value <> []
  /\ exists info,
       prop (Some message) (lit "info") = Some info
       /\ prop (Some info) key = Some (JStr value).
Proof.
  unfold info_string. cbv zeta.
  destruct (not_an_object (Some message)); [discriminate|].
  destruct (prop (Some message) (lit "info")) as [info|] eqn:Hinfo;
    [|change (not_an_object None) with true; discriminate].
  destruct (not_an_object (Some info)); [discriminate|].
  destruct (prop (Some info) key) as [[| | |s| |]|] eqn:Hkey; try discriminate.
  destruct (Z.ltb_spec 0 (str_length s)) as [Hpos|Hzero]; [|discriminate].
  intros [= <-]. split.
  - intros ->. cbn in Hpos. lia.
  - exists info. split; [reflexivity|exact Hkey].
Qed.

Lemma is_reply_to_answers (target : jsstring) (m : json) :
  is_reply_to target m = true -> target <> [] /\ answers target m.
Proof.
  unfold is_reply_to, opt_str_is. intros H. apply andb_true_iff in H.
  destruct H as [Hrole Hparent].
  destruct (getMessageRole m) as [role|] eqn:Hr; [|discriminate].
  destruct (getMessageParentId m) as [parent|] eqn:Hp; [|discriminate].
  apply str_eqb_eq in Hrole, Hparent. subst role parent.
  destruct (info_string_member m _ _ Hr) as (_ & info & Hinfo & Hrole).
  destruct (info_string_member m _ _ Hp) as (Hne & info' & Hinfo' & Hparent).
  split; [exact Hne|]. exists info. split; [exact Hinfo|]. split; [exact Hrole|].
  congruence.
Qed.

Lemma answers_is_reply_to (target : jsstring) (m : json) :
  target <> [] -> answers target m -> is_reply_to target m = true.
Proof.
  intros Hne (info & Hinfo & Hrole & Hparent).
  destruct m as [| | | | |members]; try (vm_compute in Hinfo; discriminate).
  destruct info as [| | | | |fields]; try (vm_compute in Hrole; discriminate).
  assert (Hlen : (0 <? str_length target) = true).
  { apply Z.ltb_lt. destruct target; [congruence|].
    unfold str_length. cbn [List.length]. lia. }
  unfold is_reply_to, getMessageRole, getMessageParentId, info_string.
  change (not_an_object (Some (JObj members))) with false. cbv iota.
  rewrite Hinfo.
  change (not_an_object (Some (JObj fields))) with false. cbv iota.
  rewrite Hrole, Hparent, Hlen.
  change (0 <? str_length (lit "assistant")) with true. cbv iota.
  unfold opt_str_is. rewrite !str_eqb_refl. reflexivity.
Qed.

Lemma not_answers_iff (target : jsstring) (m : json) :
  target <> [] -> (is_reply_to target m = false <-> ~ answers target m).
Proof.
  intros Hne. split.
  - intros Hfalse Ha. rewrite (answers_is_reply_to target m Hne Ha) in Hfalse.
    discriminate.
  - intros Hno. destruct (is_reply_to target m) eqn:Hr; [|reflexivity].
    destruct Hno. apply is_reply_to_answers. assumption.
Qed.

Lemma newest_answer_iff (window : list json) (target : jsstring) (m : json) :
  target <> [] ->
  (latest_reply window target m <-> newest_answer window target m).
Proof.
  intros Hne. unfold latest_reply, newest_answer. split.
  - intros (older & newer & Hw & Hm & Hnewer). exists older, newer.
    split; [exact Hw|]. split; [apply is_reply_to_answers; exact Hm|].
    eapply Forall_impl; [|exact Hnewer]. intros x. apply not_answers_iff, Hne.
  - intros (older & newer & Hw & Hm & Hnewer). exists older, newer.
    split; [exact Hw|]. split; [apply answers_is_reply_to; assumption|].
    eapply Forall_impl; [|exact Hnewer]. intros x. apply not_answers_iff, Hne.
Qed.

Lemma no_answer_iff (window : list json) (target : jsstring) :
  target <> [] -> (no_reply window target <-> no_answer window target).
Proof.
  intros Hne. unfold no_reply, no_answer. split; intros H;
    (eapply Forall_impl; [|exact H]); intros x; apply not_answers_iff, Hne.
Qed.

Lemma latest_reply_target (window : list json) (target : jsstring) (m : json) :
  latest_reply window target m -> target <> [].
Proof.
  intros (older & newer & _ & Hm & _). apply (is_reply_to_answers target m Hm).
Qed.

Lemma idle_status_iff (s : option SessionStatusInfo) :
  status_is s idle = true <-> idle_status s.
Proof.
  unfold idle_status. split.
  - destruct s as [info|]; [|discriminate]. cbn [status_is].
    destruct (st_type info) eqn:Ht; try discriminate. eauto.
  - intros (info & -> & Ht). cbn [status_is]. rewrite Ht. reflexivity.
Qed.

(* ================================================================== *)
(** * opencode_wait_for_reply *)
(* ================================================================== *)

Lemma timer_delay_pos (ms : Z) : 0 < timer_delay ms.
Proof.
  unfold timer_delay. destruct (Z.leb_spec 1 ms); cbn [andb]; [|lia].
  destruct (ms <=? TIMEOUT_MAX); lia.
Qed.

Section WaitFacts.
Variable env : Env.
Variables aid sid target : jsstring.
Variables timeoutMs intervalMs limit startTime deadline : Z.

Let resolve := resolve_reply env aid sid target timeoutMs intervalMs limit startTime.
Let loop := poll_loop env aid sid target timeoutMs intervalMs limit startTime deadline.

Lemma resolve_reply_run (candidate : json) (w : World) :
  exists r,
    resolve candidate w = (Ok (ReplyReceived r), resolved_world env sid limit w)
    /\ rp_reply r = resolved_reply env sid target limit candidate w
    /\ rp_reply_message_id r = getMessageId (rp_reply r)
    /\ rp_session_status r = status_answer env sid w
    /\ rp_streaming r
       = status_is (rp_session_status r) busy || status_is (rp_session_status r) retry.
Proof.
  subst resolve. unfold resolve_reply, resolved_reply, resolved_world, status_answer.
  rewrite bind_run, fetchSessionStatusForSession_run.
  set (status := getSessionStatusForSession _ sid).
  set (w1 := after_fetch env GetSessionStatus w).
  destruct (status_is status idle) eqn:Hidle.
  - rewrite !bind_run. unfold try_catch.
    rewrite bind_run, fetchSessionMessages_run.
    destruct (messages_of (answer env (ListMessages sid limit) w1))
      as [window|msg]; eexists; (split; [reflexivity|]); cbn;
      repeat split; reflexivity.
  - rewrite !bind_run. eexists; (split; [reflexivity|]); cbn;
      repeat split; reflexivity.
Qed.

(** One test of the loop condition and the body that follows. *)
Lemma poll_loop_step (fuel : nat) (w : World) :
  loop (S fuel) w
  = if now w <? deadline then
      let w1 := after_fetch env (ListMessages sid limit) w in
      match messages_of (answer env (ListMessages sid limit) w) with
      | Throw msg => (Throw msg, w1)
      | Ok window =>
          match findLatestAssistantReplyByParentId window target with
          | Some candidate =>
              match resolve candidate w1 with
              | (Ok r, w2) => (Ok (Returned r), w2)
              | (Throw msg, w2) => (Throw msg, w2)
              end
          | None =>
              let pending := pending_of (answer env ListQuestions w1) sid in
              let w2 := after_fetch env ListQuestions w1 in
              if 0 <? array_length pending then
                (Ok (Returned (BlockedWaiting sid aid target (map summarize pending)
                                 (now w2 - startTime) intervalMs)), w2)
              else loop fuel (after_sleep intervalMs w2)
          end
      end
    else (Ok DeadlinePassed, w).
Proof.
  subst loop resolve. cbn [poll_loop]. rewrite bind_run. cbn [Date_now].
  destruct (now w <? deadline); [|reflexivity].
  rewrite bind_run, fetchSessionMessages_run.
  destruct (messages_of (answer env (ListMessages sid limit) w))
    as [window|msg]; [|reflexivity].
  destruct (findLatestAssistantReplyByParentId window target) as [candidate|].
  - rewrite bind_run. destruct (resolve_reply _ _ _ _ _ _ _ _ candidate _)
      as [[r|msg] w2]; reflexivity.
  - rewrite bind_run, fetchPendingQuestionsForSession_run. cbv zeta.
    destruct (0 <? array_length _); reflexivity.
Qed.

(** The loop never outruns its fuel: every iteration that goes on
    sleeps for the delay of its timer. *)
Lemma poll_loop_fuel (fuel : nat) :
  forall w,
    deadline - now w <= Z.of_nat fuel * timer_delay intervalMs ->
    fst (loop (S fuel) w) <> Ok OutOfFuel.
Proof.
  pose proof (timer_delay_pos intervalMs) as Hint.
  induction fuel as [|fuel IH]; intros w Hfuel; rewrite poll_loop_step.
  - replace (now w <? deadline) with false by (symmetry; apply Z.ltb_ge; lia).
    discriminate.
  - destruct (now w <? deadline) eqn:Hnow; [|discriminate]. cbv zeta.
    destruct (messages_of _) as [window|msg]; [|discriminate].
    destruct (findLatestAssistantReplyByParentId window target) as [c|].
    + destruct (resolve c _) as [[r|msg] w2]; discriminate.
    + destruct (0 <? array_length _); [discriminate|].
      apply IH. unfold after_sleep, after_fetch. cbn [now].
      rewrite Nat2Z.inj_succ in Hfuel. lia.
Qed.

(** A reply leaves the loop only through [resolve_reply], in an
    iteration whose window holds a matching message. *)
Lemma poll_loop_reply (fuel : nat) :
  forall w r w',
    loop fuel w = (Ok (Returned (ReplyReceived r)), w') ->
    exists w0 window candidate,
      messages_of (answer env (ListMessages sid limit) w0) = Ok window
      /\ findLatestAssistantReplyByParentId window target = Some candidate
      /\ resolve candidate (after_fetch env (ListMessages sid limit) w0)
         = (Ok (ReplyReceived r), w').
Proof.
  induction fuel as [|fuel IH]; intros w r w' Hrun; [discriminate|].
  rewrite poll_loop_step in Hrun.
  destruct (now w <? deadline); [|discriminate]. cbv zeta in Hrun.
  destruct (messages_of _) as [window|msg] eqn:Hwin; [|discriminate].
  destruct (findLatestAssistantReplyByParentId window target) as [c|] eqn:Hfind.
  - destruct (resolve c _) as [[r0|msg] w2] eqn:Hres; [|discriminate].
    injection Hrun as -> ->. exists w, window, c. auto.
  - destruct (0 <? array_length _); [discriminate|]. eauto.
Qed.

(** A failed message fetch ends the loop at once. *)
Lemma poll_loop_fetch_failure (fuel : nat) (w : World) (msg : jsstring) :
  now w < deadline ->
  messages_of (answer env (ListMessages sid limit) w) = Throw msg ->
  loop (S fuel) w = (Throw msg, after_fetch env (ListMessages sid limit) w).
Proof.
  intros Hnow Hfail. rewrite poll_loop_step.
  replace (now w <? deadline) with true by (symmetry; apply Z.ltb_lt; lia).
  cbv zeta. rewrite Hfail. reflexivity.
Qed.

(** With no reply in the window and no usable answer from
    [/question], the iteration sleeps and the loop goes on. *)
Lemma poll_loop_questions_unavailable (fuel : nat) (w : World)
  (window : list json) :
  now w < deadline ->
  messages_of (answer env (ListMessages sid limit) w) = Ok window ->
  findLatestAssistantReplyByParentId window target = None ->
  questions_unavailable
    (answer env ListQuestions (after_fetch env (ListMessages sid limit) w)) = true ->
  loop (S fuel) w
  = loop fuel
      (after_sleep intervalMs
         (after_fetch env ListQuestions
            (after_fetch env (ListMessages sid limit) w))).
Proof.
  intros Hnow Hwin Hfind Hq. rewrite poll_loop_step.
  replace (now w <? deadline) with true by (symmetry; apply Z.ltb_lt; lia).
  cbv zeta. rewrite Hwin, Hfind.
  replace (pending_of _ sid) with (@nil PendingQuestion); [reflexivity|].
  unfold pending_of.
  destruct (answer env ListQuestions _) as [|[|] st [[| | | | |]|] txt];
    try discriminate; reflexivity.
Qed.
End WaitFacts.

Lemma timeout_payload_run (env : Env) (aid sid target : jsstring)
  (timeoutMs intervalMs limit startTime : Z) (w : World) :
  exists p w',
    timeout_payload env aid sid target timeoutMs intervalMs limit startTime w
    = (Ok (TimedOut p), w').
Proof.
  unfold timeout_payload, try_catch, bind at 1 2, Date_now, ret.
  destruct (timeout_report env sid target limit w) as [[r|msg] w1];
    do 2 eexists; reflexivity.
Qed.

Lemma wait_for_reply_run (env : Env) (token : jsstring)
  (ts pi pl : option number) (w : World) (h : AsyncRequestPayload) :
  decodeAsyncRequestId token = Ok h ->
  opencode_wait_for_reply env token ts pi pl w
  = match poll_loop env token (session_id h) (message_id h)
            (wait_timeout_ms ts) (wait_interval_ms pi) (wait_poll_limit pl)
            (now w) (now w + wait_timeout_ms ts)
            (poll_fuel (wait_timeout_ms ts) (wait_interval_ms pi)) w with
    | (Ok (Returned r), w') => (Ok (Some r), w')
    | (Ok DeadlinePassed, w') =>
        match timeout_payload env token (session_id h) (message_id h)
                (wait_timeout_ms ts) (wait_interval_ms pi) (wait_poll_limit pl)
                (now w) w' with
        | (Ok r, w'') => (Ok (Some r), w'')
        | (Throw msg, w'') => (Throw msg, w'')
        end
    | (Ok OutOfFuel, w') => (Ok None, w')
    | (Throw msg, w') => (Throw msg, w')
    end.
Proof.
  intros Hdec. unfold opencode_wait_for_reply. rewrite Hdec.
  rewrite bind_run. cbn [Date_now]. rewrite bind_run.
  destruct (poll_loop _ _ _ _ _ _ _ _ _ _ w) as [[[r| |]|msg] w']; reflexivity.
Qed.

(** The fuel of the model is enough: the call gives a result or an
    error, never an exhausted loop.  (The timeouts of the model are
    finite numbers.) *)
Lemma wait_for_reply_returns (env : Env) (token : jsstring)
  (ts pi pl : option number) (w : World) :
  fst (opencode_wait_for_reply env token ts pi pl w) <> Ok None.
Proof.
  destruct (decodeAsyncRequestId token) as [h|msg] eqn:Hdec.
  - rewrite (wait_for_reply_run env token ts pi pl w h Hdec).
    set (delay := timer_delay (wait_interval_ms pi)).
    pose proof (poll_loop_fuel env token (session_id h) (message_id h)
                  (wait_timeout_ms ts) (wait_interval_ms pi) (wait_poll_limit pl)
                  (now w) (now w + wait_timeout_ms ts)
                  (S (Z.to_nat (wait_timeout_ms ts / delay))) w) as Hfuel.
    assert (Hint : 0 < delay) by apply timer_delay_pos.
    assert (Ht : 0 < wait_timeout_ms ts) by (unfold wait_timeout_ms; lia).
    replace (poll_fuel (wait_timeout_ms ts) (wait_interval_ms pi))
      with (S (S (Z.to_nat (wait_timeout_ms ts / delay))))
      by (unfold poll_fuel; subst delay; lia).
    destruct (poll_loop _ _ _ _ _ _ _ _ _ _ w) as [[[r| |]|msg] w'];
      try discriminate.
    + destruct (timeout_payload_run env token (session_id h) (message_id h)
                  (wait_timeout_ms ts) (wait_interval_ms pi) (wait_poll_limit pl)
                  (now w) w') as (p & w'' & ->). discriminate.
    + exfalso. apply Hfuel; [|reflexivity]. fold delay.
      rewrite Nat2Z.inj_succ, Z2Nat.id by (apply Z.div_pos; lia).
      pose proof (Z.mod_pos_bound (wait_timeout_ms ts) delay Hint).
      pose proof (Z.div_mod (wait_timeout_ms ts) delay).
      nia.
  - unfold opencode_wait_for_reply. rewrite Hdec. discriminate.
Qed.

Lemma streaming_status_iff (s : option SessionStatusInfo) :
  status_is s busy || status_is s retry = true <-> streaming_status s.
Proof.
  unfold streaming_status. split.
  - destruct s as [info|]; [|discriminate]. cbn [status_is].
    destruct (st_type info) eqn:Ht; [discriminate| |]; eauto.
  - intros (info & -> & [Ht|Ht]); cbn [status_is]; rewrite Ht; reflexivity.
Qed.



(** While the session is busy the candidate of the first window is
    returned, the second of its two matching messages, with the
    streaming flag set and without a second message request. *)
Example wait_for_reply_streaming :
  let out := opencode_wait_for_reply busy_env sample_token None None None
               start_world in
  option_map (fun r => match r with
                       | Some (ReplyReceived p) => Some (rp_reply p, rp_streaming p)
                       | _ => None
                       end)
    (match fst out with Ok r => Some r | Throw _ => None end)
  = Some (Some (assistant_message "m3" msg_1 "pon", true))
  /\ trace (snd out) = [ListMessages ses_1 200; GetSessionStatus].
Proof. vm_compute. split; reflexivity. Qed.

(** ** A failed message fetch in the polling loop *)

Lemma poll_loop_reaches_failure (env : Env) (aid sid target : jsstring)
  (timeoutMs intervalMs limit startTime deadline : Z) (w w0 : World)
  (msg : jsstring) :
  polls_on env sid target limit intervalMs deadline w w0 ->
  now w0 < deadline ->
  messages_of (answer env (ListMessages sid limit) w0) = Throw msg ->
  forall fuel,
    deadline - now w <= Z.of_nat fuel * timer_delay intervalMs ->
    poll_loop env aid sid target timeoutMs intervalMs limit startTime deadline
      (S fuel) w
    = (Throw msg, after_fetch env (ListMessages sid limit) w0).
Proof.
  intros Hpolls Hnow Hfail.
  pose proof (timer_delay_pos intervalMs) as Hint.
  induction Hpolls as [w|w w' window Hw Hwin Hnone Hpend _ IH]; intros fuel Hfuel.
  - apply poll_loop_fetch_failure; assumption.
  - destruct fuel as [|fuel]; [cbn [Z.of_nat] in Hfuel; lia|].
    rewrite poll_loop_step.
    replace (now w <? deadline) with true by (symmetry; apply Z.ltb_lt; lia).
    cbv zeta. rewrite Hwin.
    apply findLatest_none in Hnone. rewrite Hnone, Hpend.
    cbn [array_length List.length Z.of_nat Z.ltb Z.compare].
    apply IH; [assumption|assumption|].
    unfold after_sleep, after_fetch. cbn [now].
    rewrite Nat2Z.inj_succ in Hfuel. lia.
Qed.

(** The fuel that [opencode_wait_for_reply] gives its loop covers the
    time to the deadline. *)
Lemma poll_fuel_enough (timeoutMs intervalMs : Z) :
  0 < timeoutMs ->
  exists fuel,
    poll_fuel timeoutMs intervalMs = S fuel
    /\ timeoutMs <= Z.of_nat fuel * timer_delay intervalMs.
Proof.
  intros Ht. pose proof (timer_delay_pos intervalMs) as Hint.
  exists (S (Z.to_nat (timeoutMs / timer_delay intervalMs))).
  split; [unfold poll_fuel; lia|].
  rewrite Nat2Z.inj_succ, Z2Nat.id by (apply Z.div_pos; lia).
  pose proof (Z.mod_pos_bound timeoutMs (timer_delay intervalMs) Hint).
  pose proof (Z.div_mod timeoutMs (timer_delay intervalMs)).
  nia.
Qed.

(** C6, amended (a failed message fetch ends the wait).  After any
    number of polling iterations that found neither a reply nor a
    pending question, and before the deadline, a failure of the message
    fetch of the next iteration is the outcome of the whole call: the
    call ends with the error of the fetch, right after that request,
    without sleeping and without another attempt. *)
Theorem polling_fetch_failure_aborts (env : Env) (token : jsstring)
  (ts pi pl : option number) (w w0 w1 : World) (h : AsyncRequestPayload)
  (msg : jsstring) :
  decodeAsyncRequestId token = Ok h ->
  polls_on env (session_id h) (message_id h) (wait_poll_limit pl)
    (wait_interval_ms pi) (now w + wait_timeout_ms ts) w w0 ->
  now w0 < now w + wait_timeout_ms ts ->
  fetchSessionMessages env (session_id h) (wait_poll_limit pl) w0 = (Throw msg, w1) ->
  opencode_wait_for_reply env token ts pi pl w = (Throw msg, w1)
  /\ run_tool Some (opencode_wait_for_reply env token ts pi pl) w
     = (Some (ToolError msg), w1)
  /\ trace w1 = trace w0 ++ [ListMessages (session_id h) (wait_poll_limit pl)].
Proof.
  intros Hdec Hpolls Hnow Hfetch.
  rewrite fetchSessionMessages_run in Hfetch. injection Hfetch as Hfail <-.
  assert (Ht : 0 < wait_timeout_ms ts) by (unfold wait_timeout_ms; lia).
  assert (Hrun : opencode_wait_for_reply env token ts pi pl w
                 = (Throw msg,
                    after_fetch env
                      (ListMessages (session_id h) (wait_poll_limit pl)) w0)).
  { rewrite (wait_for_reply_run env token ts pi pl w h Hdec).
    destruct (poll_fuel_enough (wait_timeout_ms ts) (wait_interval_ms pi) Ht)
      as (fuel & -> & Hfuel).
    rewrite (poll_loop_reaches_failure env token (session_id h) (message_id h)
               (wait_timeout_ms ts) (wait_interval_ms pi) (wait_poll_limit pl)
               (now w) (now w + wait_timeout_ms ts) w w0 msg Hpolls Hnow Hfail);
      [reflexivity|].
    lia. }
  split; [exact Hrun|]. split; [|reflexivity].
  unfold run_tool. rewrite Hrun. reflexivity.
Qed.

Lemma polling_fetch_failure_aborts_witness :
  (decodeAsyncRequestId sample_token = Ok sample_handle
   /\ polls_on flaky_env ses_1 msg_1 (wait_poll_limit None)
        (wait_interval_ms None) (now start_world + wait_timeout_ms None)
        start_world start_world
   /\ now start_world < now start_world + wait_timeout_ms None
   /\ fetchSessionMessages flaky_env ses_1 (wait_poll_limit None) start_world
      = (Throw (lit "Failed to get messages: 503"),
         after_fetch flaky_env (ListMessages ses_1 200) start_world))
  /\ opencode_wait_for_reply flaky_env sample_token None None None start_world
     = (Throw (lit "Failed to get messages: 503"),
        after_fetch flaky_env (ListMessages ses_1 200) start_world)
  /\ run_tool Some (opencode_wait_for_reply flaky_env sample_token None None None)
       start_world
     = (Some (ToolError (lit "Failed to get messages: 503")),
        after_fetch flaky_env (ListMessages ses_1 200) start_world)
  /\ trace (after_fetch flaky_env (ListMessages ses_1 200) start_world)
     = trace start_world ++ [ListMessages ses_1 (wait_poll_limit None)].
Proof.
  assert (H1 : decodeAsyncRequestId sample_token = Ok sample_handle)
    by (vm_compute; reflexivity).
  assert (H2 : polls_on flaky_env ses_1 msg_1 (wait_poll_limit None)
                 (wait_interval_ms None) (now start_world + wait_timeout_ms None)
                 start_world start_world) by apply polls_here.
  assert (H3 : now start_world < now start_world + wait_timeout_ms None)
    by (vm_compute; reflexivity).
  assert (H4 : fetchSessionMessages flaky_env ses_1 (wait_poll_limit None) start_world
               = (Throw (lit "Failed to get messages: 503"),
                  after_fetch flaky_env (ListMessages ses_1 200) start_world))
    by (vm_compute; reflexivity).
  split; [repeat split; assumption|].
  exact (polling_fetch_failure_aborts flaky_env sample_token None None None
           start_world start_world _ sample_handle _ H1 H2 H3 H4).
Defined.

(** C6, as stated, fails: the first fetch of the wait meets a 503, the
    deadline is 30 seconds away and the next fetch would have found the
    reply, yet the call ends with the error after that single request. *)
Lemma polling_fetch_failure_counterexample :
  let out := opencode_wait_for_reply flaky_env sample_token None None None
               start_world in
  fst out = Throw (lit "Failed to get messages: 503")
  /\ trace (snd out) = [ListMessages ses_1 200]
  /\ now (snd out) + 29000 < now start_world + wait_timeout_ms None
  /\ findLatestAssistantReplyByParentId
       match messages_of (remote flaky_env 1 (ListMessages ses_1 200)) with
       | Ok window => window
       | Throw _ => []
       end msg_1
     = Some (assistant_message "m2" msg_1 "pong").
Proof. vm_compute. repeat split; reflexivity. Qed.

(* ================================================================== *)
(** * opencode_chat_async *)
(* ================================================================== *)

Lemma target_session_trace (env : Env) (session_id directory : option jsstring)
  (w w1 : World) (target : jsvalue) :
  target_session env session_id directory w = (Ok target, w1) ->
  draws w1 = draws w
  /\ (trace w1 = trace w
      \/ trace w1 = trace w ++ [CreateSession (directory_param directory)]).
Proof.
  unfold target_session. intros H.
  assert (Hcreate :
            (createResponse <- fetch env (CreateSession (directory_param directory)) ;;
             if negb (response_ok createResponse)
             then throw (status_and_text (lit "Failed to create session: ")
                           createResponse)
             else created_session_id createResponse) w = (Ok target, w1) ->
            draws w1 = draws w
            /\ trace w1 = trace w ++ [CreateSession (directory_param directory)]).
  { clear H. rewrite bind_run, fetch_run.
    destruct (answer env _ w) as [reason|ok st body txt]; [discriminate|].
    cbn [response_ok]. destruct ok; cbn [negb]; [|discriminate].
    unfold created_session_id. rewrite bind_run.
    destruct body as [v|msg]; cbn [response_json ret throw]; [|discriminate].
    destruct v; try discriminate; intros [= _ <-]; split; reflexivity. }
  destruct session_id as [[|c s]|].
  - apply Hcreate in H. tauto.
  - injection H as _ <-. auto.
  - apply Hcreate in H. tauto.
Qed.

Lemma chat_async_run (env : Env) (message : jsstring)
  (session directory : option jsstring) (w w1 : World) (target : jsvalue) :
  target_session env session directory w = (Ok target, w1) ->
  opencode_chat_async env message session directory w
  = let mid := lit "msg_async_" ++ number_to_string (Int (now w1)) ++ lit "_"
               ++ random_suffix env (draws w1) in
    let pending := pending_for (answer env ListQuestions w1) target in
    let w2 := after_fetch env ListQuestions (drawn w1) in
    if 0 <? array_length pending then
      (Ok (SessionBlocked target (map summarize pending)), w2)
    else
      let post := PromptAsync (template_text target) (directory_param directory)
                    mid message in
      match fetch env post w2 with
      | (Ok response, w3) =>
          if negb (response_ok response) then
            (Throw (status_and_text (lit "Failed to send async message: ") response),
             w3)
          else
            (Ok (AsyncAccepted target mid (now w1)
                   (encodeAsyncRequestId_of target mid (Int (now w1)))), w3)
      | (Throw msg, w3) => (Throw msg, w3)
      end.
Proof.
  intros Htarget. unfold opencode_chat_async.
  rewrite bind_run, Htarget, bind_run. cbn [Date_now].
  rewrite bind_run. cbn [generateMessageId].
  rewrite bind_run, fetchPendingQuestionsForSession_value.
  change (answer env ListQuestions _) with (answer env ListQuestions w1).
  cbv zeta. fold (drawn w1). fold (pending_for (answer env ListQuestions w1) target).
  destruct (0 <? array_length _); [reflexivity|].
  rewrite bind_run.
  destruct (fetch env _ _) as [[response|msg] w3]; [|reflexivity].
  destruct (negb (response_ok response)); reflexivity.
Qed.

(** The blocked diagnosis lists the pending questions one by one. *)
Lemma summarize_all (pending : list PendingQuestion) :
  Forall2
    (fun question summary =>
       qs_request_id summary = pq_id question
       /\ qs_question_count summary
          = Z.of_nat (List.length (pq_questions question))
       /\ qs_headers summary = map q_header (pq_questions question))
    pending (map summarize pending).
Proof.
  induction pending as [|q qs IH]; cbn [map]; constructor; [|exact IH].
  repeat split.
Qed.

(** C9 (submission gate).  When [opencode_chat_async] finds a pending
    question for the target session, it returns the blocked diagnosis:
    the session id and, for every pending question of the session in
    turn, its request id, the number of its questions and their
    headers.  The only request the call issues after the session is
    settled is the question fetch: the call adds no [prompt_async]
    request to the trace. *)
Theorem chat_async_gate (env : Env) (message : jsstring)
  (session_id directory : option jsstring) (w w1 : World) (sid : jsstring) :
  target_session env session_id directory w = (Ok (Some (JStr sid)), w1) ->
  pending_of (answer env ListQuestions w1) sid <> [] ->
  exists summaries w2,
    opencode_chat_async env message session_id directory w
    = (Ok (SessionBlocked (Some (JStr sid)) summaries), w2)
    /\ Forall2
         (fun question summary =>
            qs_request_id summary = pq_id question
            /\ qs_question_count summary
               = Z.of_nat (List.length (pq_questions question))
            /\ qs_headers summary = map q_header (pq_questions question))
         (pending_of (answer env ListQuestions w1) sid) summaries
    /\ trace w2 = trace w1 ++ [ListQuestions]
    /\ forall req, In req (trace w2) -> is_prompt_async req = true ->
                   In req (trace w).
Proof.
  intros Htarget Hpending.
  rewrite (chat_async_run env message session_id directory w w1 _ Htarget).
  cbv zeta.
  change (pending_for (answer env ListQuestions w1) (Some (JStr sid)))
    with (pending_of (answer env ListQuestions w1) sid).
  pose proof (summarize_all (pending_of (answer env ListQuestions w1) sid)) as Hall.
  destruct (pending_of (answer env ListQuestions w1) sid) as [|q qs] eqn:Hp;
    [congruence|].
  replace (0 <? array_length (q :: qs)) with true
    by (symmetry; apply Z.ltb_lt; unfold array_length; cbn [List.length]; lia).
  do 2 eexists. split; [reflexivity|]. split; [exact Hall|]. split; [reflexivity|].
  intros req Hin Hprompt. cbn [after_fetch drawn trace] in Hin.
  apply in_app_or in Hin. destruct Hin as [Hin|[<-|[]]]; [|discriminate].
  destruct (target_session_trace env session_id directory w w1 _ Htarget)
    as [_ [Htr|Htr]]; rewrite Htr in Hin; [assumption|].
  apply in_app_or in Hin. destruct Hin as [Hin|[<-|[]]];
    [assumption|discriminate].
Qed.

Lemma chat_async_gate_witness :
  (target_session blocked_env (Some ses_1) None start_world
   = (Ok (Some (JStr ses_1)), start_world)
   /\ pending_of (answer blocked_env ListQuestions start_world) ses_1 <> [])
  /\ exists w2,
       opencode_chat_async blocked_env (lit "ping") (Some ses_1) None start_world
       = (Ok (SessionBlocked (Some (JStr ses_1))
                [{| qs_request_id := lit "que_1"; qs_question_count := 1;
                    qs_headers := [lit "Confirm"] |}]),
          w2)
       /\ trace w2 = trace start_world ++ [ListQuestions]
       /\ forall req, In req (trace w2) -> is_prompt_async req = true ->
                      In req (trace start_world).
Proof.
  assert (H1 : target_session blocked_env (Some ses_1) None start_world
               = (Ok (Some (JStr ses_1)), start_world)) by reflexivity.
  assert (H2 : pending_of (answer blocked_env ListQuestions start_world) ses_1 <> [])
    by (vm_compute; discriminate).
  split; [split; assumption|].
  destruct (chat_async_gate blocked_env (lit "ping") (Some ses_1) None
              start_world start_world ses_1 H1 H2)
    as (summaries & w2 & Hcall & Hsummaries & Htrace & Hposts).
  assert (Hp : pending_of (answer blocked_env ListQuestions start_world) ses_1
               = [{| pq_id := lit "que_1"; pq_sessionID := ses_1;
                     pq_questions := [{| q_question := lit "Proceed?";
                                         q_header := lit "Confirm" |}] |}])
    by (vm_compute; reflexivity).
  rewrite Hp in Hsummaries.
  inversion Hsummaries as [|q s qs ss (Hid & Hcount & Hheaders) Hrest]; subst.
  inversion Hrest; subst. destruct s as [request_id question_count headers].
  cbn [qs_request_id qs_question_count qs_headers pq_id pq_questions] in *.
  subst request_id question_count headers.
  exists w2. split; [exact Hcall|]. split; [exact Htrace|exact Hposts].
Defined.

Lemma pending_for_unavailable (r : Response) (v : jsvalue) :
  questions_unavailable r = true -> pending_for r v = [].
Proof.
  unfold pending_for.
  destruct r as [reason|[|] st [[| | | | |]|msg] txt]; try discriminate; reflexivity.
Qed.

Lemma pending_of_unavailable (r : Response) (sid : jsstring) :
  questions_unavailable r = true -> pending_of r sid = [].
Proof. apply (pending_for_unavailable r (Some (JStr sid))). Qed.

(** C10 (failures of the question fetch are swallowed).  When the
    request for [/question] is rejected, answers with a non-2xx status
    or has a body that is no JSON array, [fetchPendingQuestionsForSession]
    returns the empty list.  [opencode_chat_async] then posts the
    message and never reports the session as blocked; and an iteration
    of the polling loop of [opencode_wait_for_reply] that found no reply
    sleeps and goes on with the next iteration. *)
Theorem pending_question_failure_swallowed (env : Env) (sid : jsstring) (w : World) :
  questions_unavailable (answer env ListQuestions w) = true ->
  fetchPendingQuestionsForSession env (Some (JStr sid)) w
  = (Ok [], after_fetch env ListQuestions w)
  /\ (forall message session_id directory w0 target,
         target_session env session_id directory w0 = (Ok target, w) ->
         exists mid outcome w3,
           opencode_chat_async env message session_id directory w0 = (outcome, w3)
           /\ trace w3
              = trace w ++ [ListQuestions;
                            PromptAsync (template_text target)
                              (directory_param directory) mid message]
           /\ forall session pending, outcome <> Ok (SessionBlocked session pending))
  /\ (forall aid target timeoutMs intervalMs limit startTime deadline fuel w0 window,
         w = after_fetch env (ListMessages sid limit) w0 ->
         now w0 < deadline ->
         fetchSessionMessages env sid limit w0 = (Ok window, w) ->
         no_reply window target ->
         poll_loop env aid sid target timeoutMs intervalMs limit startTime deadline
           (S fuel) w0
         = poll_loop env aid sid target timeoutMs intervalMs limit startTime deadline
             fuel (after_sleep intervalMs (after_fetch env ListQuestions w))).
Proof.
  intros Hq. split; [|split].
  - rewrite fetchPendingQuestionsForSession_run, pending_of_unavailable by assumption.
    reflexivity.
  - intros message session_id directory w0 target Htarget.
    rewrite (chat_async_run env message session_id directory w0 w target Htarget).
    cbv zeta. rewrite pending_for_unavailable by assumption.
    cbn [array_length List.length Z.of_nat Z.ltb Z.compare].
    rewrite fetch_run.
    destruct (answer env _ (after_fetch env ListQuestions (drawn w)))
      as [reason|ok st body txt].
    + do 3 eexists. split; [reflexivity|]. split; [|discriminate].
      cbn [after_fetch drawn trace]. rewrite <- app_assoc. reflexivity.
    + cbn [response_ok]. destruct (negb ok);
        do 3 eexists; (split; [reflexivity|]);
        (split; [cbn [after_fetch drawn trace]; rewrite <- app_assoc; reflexivity
                |discriminate]).
  - intros aid target timeoutMs intervalMs limit startTime deadline fuel w0 window
      Hw Hnow Hfetch Hnone. subst w.
    rewrite fetchSessionMessages_run in Hfetch. injection Hfetch as Hwin.
    apply findLatest_none in Hnone.
    apply (poll_loop_questions_unavailable env aid sid target timeoutMs intervalMs
             limit startTime deadline fuel w0 window); assumption.
Qed.

Lemma pending_question_failure_swallowed_witness :
  questions_unavailable (answer no_question_env ListQuestions start_world) = true
  /\ fetchPendingQuestionsForSession no_question_env (Some (JStr ses_1)) start_world
     = (Ok [], after_fetch no_question_env ListQuestions start_world)
  /\ fst (opencode_chat_async no_question_env (lit "ping") (Some ses_1) None
            start_world)
     = Ok (AsyncAccepted (Some (JStr ses_1)) (lit "msg_async_1000_abc") 1000
             sample_token).
Proof.
  assert (Hq : questions_unavailable (answer no_question_env ListQuestions start_world)
               = true) by reflexivity.
  split; [exact Hq|].
  split; [exact (proj1 (pending_question_failure_swallowed no_question_env ses_1
                          start_world Hq))|].
  vm_compute. reflexivity.
Defined.

(* ================================================================== *)
(** * opencode_get_messages: budget and safety net *)
(* ================================================================== *)

Lemma fill_budget_spec (maxOutputTokens : Z) (page : list json) :
  forall acc items truncated,
    fill_budget maxOutputTokens acc page = (items, truncated) ->
    exists taken rest,
      page = taken ++ rest
      /\ items = acc ++ taken
      /\ (truncated = true <-> rest <> [])
      /\ (truncated = true -> items <> []).
Proof.
  induction page as [|item page IH]; intros acc items truncated Hfill;
    cbn [fill_budget] in Hfill.
  - injection Hfill as <- <-. exists [], []. cbn [app]. rewrite app_nil_r.
    split; [reflexivity|]. split; [reflexivity|].
    split; [split; [discriminate|congruence]|discriminate].
  - destruct ((estimateTokensFromString (JSON_stringify (JArr (acc ++ [item])))
               <=? maxOutputTokens) || (array_length acc =? 0)) eqn:Hfit.
    + apply IH in Hfill. destruct Hfill as (taken & rest & -> & -> & Htr & Hne).
      exists (item :: taken), rest. rewrite <- app_assoc in Hne |- *.
      cbn [app] in Hne |- *.
      split; [reflexivity|]. split; [reflexivity|]. split; assumption.
    + injection Hfill as <- <-. exists [], (item :: page). cbn [app]. rewrite app_nil_r.
      split; [reflexivity|]. split; [reflexivity|].
      split; [split; [discriminate|reflexivity]|].
      intros _ ->. apply orb_false_iff in Hfit. destruct Hfit as [_ Hlen].
      discriminate.
Qed.

Lemma array_length_nonneg {A} (l : list A) : 0 <= array_length l.
Proof. unfold array_length. lia. Qed.

Lemma dropped_0 (offset : Z) (p : PagePayload) : dropped offset 0 p = p.
Proof. reflexivity. Qed.

Lemma dropped_S (offset : Z) (k : nat) (p : PagePayload) :
  dropped offset (S k) p = drop_last_item offset (dropped offset k p).
Proof. reflexivity. Qed.

Lemma dropped_S_r (offset : Z) (k : nat) (p : PagePayload) :
  dropped offset (S k) p = dropped offset k (drop_last_item offset p).
Proof. unfold dropped. apply Nat.iter_succ_r. Qed.

Lemma dropped_items (offset : Z) (k : nat) (p : PagePayload) :
  pl_items (dropped offset k p)
  = firstn (List.length (pl_items p) - k) (pl_items p).
Proof.
  induction k as [|k IH].
  - rewrite dropped_0, Nat.sub_0_r, firstn_all. reflexivity.
  - rewrite dropped_S. cbn [drop_last_item pl_items]. rewrite IH.
    rewrite removelast_firstn_len, firstn_firstn, length_firstn. f_equal. lia.
Qed.

(** What a round of the safety loop leaves unchanged, and what it sets. *)
Lemma dropped_fields (offset : Z) (k : nat) (p : PagePayload) :
  let q := dropped offset k p in
  pl_session_id q = pl_session_id p
  /\ pl_projection q = pl_projection p
  /\ pl_notice q = pl_notice p
  /\ pg_limit (pl_page q) = pg_limit (pl_page p)
  /\ pg_cursor (pl_page q) = pg_cursor (pl_page p)
  /\ pg_offset (pl_page q) = pg_offset (pl_page p)
  /\ bg_max_output_tokens (pl_budget q) = bg_max_output_tokens (pl_budget p).
Proof.
  induction k as [|k IH]; [cbn; repeat split; reflexivity|].
  cbv zeta in *. rewrite dropped_S. cbn. exact IH.
Qed.

Lemma dropped_flags (offset : Z) (k : nat) (p : PagePayload) :
  (0 < k)%nat ->
  let q := dropped offset k p in
  pg_has_more (pl_page q) = true
  /\ bg_truncated (pl_budget q) = true
  /\ bg_finish_reason (pl_budget q) = lit "length"
  /\ pg_returned (pl_page q) = array_length (pl_items q)
  /\ pg_next_cursor (pl_page q)
     = Some (encodeCursor {| offset := offset + array_length (pl_items q) |})
  /\ bg_estimated_output_tokens (pl_budget q)
     = estimateTokensFromObject (JArr (pl_items q)).
Proof.
  intros Hk. destruct k as [|k]; [lia|]. cbv zeta. rewrite dropped_S.
  cbn. repeat split; reflexivity.
Qed.

(** The safety loop is some number of rounds, each taken because the
    payload was over budget and not empty; it stops on a payload that
    fits or is empty. *)
Lemma safety_loop_spec (maxOutputTokens offset : Z) (fuel : nat) :
  forall p,
    (List.length (pl_items p) <= fuel)%nat ->
    exists k,
      (k <= List.length (pl_items p))%nat
      /\ safety_loop fuel maxOutputTokens offset p = dropped offset k p
      /\ (forall i, (i < k)%nat ->
                    over_budget maxOutputTokens (dropped offset i p) = true)
      /\ (over_budget maxOutputTokens (dropped offset k p) = false
          \/ pl_items (dropped offset k p) = []).
Proof.
  induction fuel as [|fuel IH]; intros p Hfuel.
  - exists 0%nat. cbn [safety_loop]. rewrite !dropped_0.
    split; [lia|]. split; [reflexivity|]. split; [intros i Hi; lia|].
    right. destruct (pl_items p); [reflexivity|cbn [List.length] in Hfuel; lia].
  - cbn [safety_loop].
    destruct (over_budget maxOutputTokens p) eqn:Hover; cbn [andb].
    + destruct (0 <? array_length (pl_items p)) eqn:Hlen.
      * assert (Hpos : (0 < List.length (pl_items p))%nat)
          by (apply Z.ltb_lt in Hlen; unfold array_length in Hlen; lia).
        assert (Hdrop : List.length (pl_items (drop_last_item offset p))
                        = (List.length (pl_items p) - 1)%nat).
        { cbn [drop_last_item pl_items]. rewrite removelast_firstn_len.
          rewrite length_firstn. lia. }
        destruct (IH (drop_last_item offset p) ltac:(lia))
          as (k & Hk & Heq & Hall & Hstop).
        exists (S k). rewrite !dropped_S_r.
        split; [lia|]. split; [assumption|]. split; [|assumption].
        intros [|i] Hi; [exact Hover|]. rewrite dropped_S_r. apply Hall. lia.
      * exists 0%nat. rewrite !dropped_0.
        split; [lia|]. split; [reflexivity|]. split; [intros i Hi; lia|].
        right. apply Z.ltb_ge in Hlen. unfold array_length in Hlen.
        destruct (pl_items p); [reflexivity|cbn [List.length] in Hlen; lia].
    + exists 0%nat. rewrite !dropped_0.
      split; [lia|]. split; [reflexivity|]. split; [intros i Hi; lia|].
      left. assumption.
Qed.

Lemma initial_payload_consistent (sid : jsstring) (cursor : option jsstring)
  (pageSize offset maxOutputTokens : Z) (fields : list jsstring)
  (messages : list json) :
  cursor_consistent offset
    (initial_payload sid cursor pageSize offset maxOutputTokens fields messages).
Proof.
  unfold initial_payload, cursor_consistent.
  destruct (fill_budget _ _ _) as [items truncated]. cbn. split; reflexivity.
Qed.

Lemma dropped_consistent (offset : Z) (k : nat) (p : PagePayload) :
  cursor_consistent offset p -> cursor_consistent offset (dropped offset k p).
Proof.
  intros Hp. destruct k as [|k]; [exact Hp|].
  destruct (dropped_flags offset (S k) p ltac:(lia))
    as (Hmore & _ & _ & Hret & Hcur & _).
  unfold cursor_consistent. rewrite Hmore. auto.
Qed.

Lemma give_up_page_consistent (maxOutputTokens offset : Z) (p : PagePayload) :
  cursor_consistent offset p ->
  cursor_consistent offset (give_up_page maxOutputTokens offset p).
Proof.
  intros Hp. unfold give_up_page. destruct (over_budget maxOutputTokens p); [|exact Hp].
  unfold cursor_consistent. cbn. rewrite Z.add_0_r. split; reflexivity.
Qed.

Lemma build_page_consistent (sid : jsstring) (cursor : option jsstring)
  (pageSize offset maxOutputTokens : Z) (fields : list jsstring)
  (messages : list json) :
  cursor_consistent offset
    (build_page sid cursor pageSize offset maxOutputTokens fields messages).
Proof.
  unfold build_page. cbv zeta.
  set (p0 := initial_payload _ _ _ _ _ _ _).
  destruct (safety_loop_spec maxOutputTokens offset (List.length (pl_items p0)) p0
              (Nat.le_refl _)) as (k & _ & -> & _).
  apply give_up_page_consistent, dropped_consistent, initial_payload_consistent.
Qed.

(** [has_more] and [truncated], once set, stay set. *)
Lemma build_page_keeps_flags (sid : jsstring) (cursor : option jsstring)
  (pageSize offset maxOutputTokens : Z) (fields : list jsstring)
  (messages : list json) :
  let p0 := initial_payload sid cursor pageSize offset maxOutputTokens fields messages in
  let p := build_page sid cursor pageSize offset maxOutputTokens fields messages in
  (pg_has_more (pl_page p0) = true -> pg_has_more (pl_page p) = true)
  /\ (bg_truncated (pl_budget p0) = true -> bg_truncated (pl_budget p) = true)
  /\ exists k, pl_items p = firstn k (pl_items p0).
Proof.
  cbv zeta. unfold build_page. cbv zeta.
  set (p0 := initial_payload _ _ _ _ _ _ _).
  destruct (safety_loop_spec maxOutputTokens offset (List.length (pl_items p0)) p0
              (Nat.le_refl _)) as (k & _ & -> & _).
  unfold give_up_page.
  destruct (over_budget maxOutputTokens (dropped offset k p0)).
  - cbn. repeat split; auto. exists 0%nat. reflexivity.
  - destruct k as [|k].
    + rewrite !dropped_0. repeat split; auto.
      exists (List.length (pl_items p0)). rewrite firstn_all. reflexivity.
    + destruct (dropped_flags offset (S k) p0 ltac:(lia)) as (Hm & Ht & _).
      repeat split; auto. eexists. apply dropped_items.
Qed.

Lemma initial_payload_filled (sid : jsstring) (cursor : option jsstring)
  (pageSize offset maxOutputTokens : Z) (fields : list jsstring)
  (messages : list json) (kept : list json) (truncated : bool) :
  fill_budget maxOutputTokens []
    (projected_page messages pageSize offset fields) = (kept, truncated) ->
  let p0 := initial_payload sid cursor pageSize offset maxOutputTokens fields messages in
  pl_items p0 = kept
  /\ bg_truncated (pl_budget p0) = truncated
  /\ pg_has_more (pl_page p0)
     = (offset + array_length kept
        <? offset + array_length (projected_page messages pageSize offset fields))
       || (offset + array_length (raw_page messages pageSize offset)
           <? array_length messages).
Proof.
  intros Hfill. cbv zeta. unfold initial_payload. cbv zeta.
  fold (projected_page messages pageSize offset fields). rewrite Hfill.
  cbn. repeat split; reflexivity.
Qed.

Lemma decodeCursor_nonneg (cursor : option jsstring) (c : CursorPayload) :
  decodeCursor cursor = Ok c -> 0 <= offset c.
Proof.
  unfold decodeCursor. intros H.
  destruct cursor as [[|x text]|]; try (injection H as <-; cbn; lia).
  destruct (JSON_parse _) as [[| | | | |]|]; try discriminate;
    (destruct (Number _) as [[n|]|]; [|discriminate|discriminate];
     destruct (Z.ltb_spec n 0); [discriminate|];
     injection H as <-; cbn; lia).
Qed.

Lemma get_messages_run (env : Env) (sid : jsstring) (limit : option number)
  (cursor : option jsstring) (budget : option number) (fields : jsvalue)
  (w : World) :
  opencode_get_messages env sid limit cursor budget fields w
  = match decodeCursor cursor with
    | Throw msg => (Throw msg, w)
    | Ok c =>
        let request := ListMessages sid (offset c + page_size limit + 1) in
        match messages_of (answer env request w) with
        | Ok messages =>
            (Ok (MessagePage
                   (build_page sid cursor (page_size limit) (offset c)
                      (output_budget budget) (parseRequestedFields fields) messages)),
             after_fetch env request w)
        | Throw msg => (Throw msg, after_fetch env request w)
        end
    end.
Proof.
  unfold opencode_get_messages. destruct (decodeCursor cursor) as [c|msg];
    [|reflexivity].
  rewrite bind_run, fetchSessionMessages_run. cbv zeta.
  destruct (messages_of _); reflexivity.
Qed.

(** A page comes from a decoded cursor and a fetched window. *)
Lemma get_messages_page (env : Env) (sid : jsstring) (limit : option number)
  (cursor : option jsstring) (budget : option number) (fields : jsvalue)
  (w w' : World) (p : PagePayload) :
  opencode_get_messages env sid limit cursor budget fields w
  = (Ok (MessagePage p), w') ->
  exists c messages,
    decodeCursor cursor = Ok c
    /\ 0 <= offset c
    /\ fetchSessionMessages env sid (offset c + page_size limit + 1) w
       = (Ok messages, w')
    /\ p = build_page sid cursor (page_size limit) (offset c)
             (output_budget budget) (parseRequestedFields fields) messages.
Proof.
  rewrite get_messages_run. intros H.
  destruct (decodeCursor cursor) as [c|msg] eqn:Hc; [|discriminate].
  cbv zeta in H.
  destruct (messages_of _) as [messages|msg] eqn:Hm; [|discriminate].
  injection H as <- <-. exists c, messages.
  split; [reflexivity|]. split; [eapply decodeCursor_nonneg; eassumption|].
  split; [|reflexivity]. rewrite fetchSessionMessages_run, Hm. reflexivity.
Qed.

Lemma tokens_of_first_estimate (n : nat) (page : list json) :
  estimateTokensFromString (JSON_stringify (JArr (firstn n page)))
  = tokens_of_first n page.
Proof.
  unfold estimateTokensFromString, tokens_of_first, Math_ceil_quot, str_length.
  cbv zeta. dlia.
Qed.

(** The budget loop in terms of the estimates: it takes the items one by
    one while the estimate of what it would then hold is within the
    budget, the first item in any case, and raises its flag exactly
    when it stops before the end. *)
Lemma fill_budget_estimates (maxOutputTokens : Z) (page : list json) :
  forall acc items truncated,
    fill_budget maxOutputTokens acc page = (items, truncated) ->
    exists n,
      (n <= List.length page)%nat
      /\ items = acc ++ firstn n page
      /\ (forall i, (1 <= i <= n)%nat -> acc ++ firstn (i - 1) page <> [] ->
                    estimateTokensFromString
                      (JSON_stringify (JArr (acc ++ firstn i page)))
                    <= maxOutputTokens)
      /\ if truncated
         then (n < List.length page)%nat
              /\ items <> []
              /\ maxOutputTokens
                 < estimateTokensFromString
                     (JSON_stringify (JArr (acc ++ firstn (S n) page)))
         else n = List.length page.
Proof.
  induction page as [|item page IH]; intros acc items truncated Hfill;
    cbn [fill_budget] in Hfill.
  - injection Hfill as <- <-. exists 0%nat. cbn [firstn List.length].
    rewrite app_nil_r. split; [lia|]. split; [reflexivity|].
    split; [intros i Hi; lia|reflexivity].
  - assert (Hassoc : forall l, (acc ++ [item]) ++ l = acc ++ item :: l)
      by (intros l; rewrite <- app_assoc; reflexivity).
    destruct (Z.leb_spec
                (estimateTokensFromString (JSON_stringify (JArr (acc ++ [item]))))
                maxOutputTokens) as [Hfit|Hover]; cbn [orb] in Hfill.
    + apply IH in Hfill. destruct Hfill as (n & Hn & -> & Hfits & Hflag).
      exists (S n). cbn [List.length]. rewrite firstn_cons, Hassoc.
      split; [lia|]. split; [reflexivity|]. split.
      * intros [|[|i]] Hi Hne; [lia|exact Hfit|].
        rewrite firstn_cons, <- Hassoc. apply Hfits; [lia|].
        destruct acc; discriminate.
      * destruct truncated; [|lia].
        destruct Hflag as (Hlt & Hne & Hstop). split; [lia|].
        split; [rewrite <- Hassoc; exact Hne|].
        rewrite firstn_cons, <- Hassoc. exact Hstop.
    + destruct (Z.eqb_spec (array_length acc) 0) as [Hzero|Hsome].
      * assert (Hacc : acc = [])
          by (destruct acc; [reflexivity|];
              unfold array_length in Hzero; cbn [List.length] in Hzero; lia).
        subst acc.
        apply IH in Hfill. destruct Hfill as (n & Hn & -> & Hfits & Hflag).
        exists (S n). cbn [List.length]. rewrite firstn_cons, Hassoc.
        split; [lia|]. split; [reflexivity|]. split.
        -- intros [|[|i]] Hi Hne; [lia|cbn [Nat.sub firstn app] in Hne; congruence|].
           rewrite firstn_cons, <- Hassoc. apply Hfits; [lia|].
           discriminate.
        -- destruct truncated; [|lia].
           destruct Hflag as (Hlt & Hne & Hstop). split; [lia|].
           split; [rewrite <- Hassoc; exact Hne|].
           rewrite firstn_cons, <- Hassoc. exact Hstop.
      * injection Hfill as <- <-. exists 0%nat. cbn [firstn List.length].
        rewrite app_nil_r. split; [lia|]. split; [reflexivity|].
        split; [intros i Hi; lia|].
        split; [lia|]. split; [|exact Hover].
        intros ->. apply Hsome. reflexivity.
Qed.

(** When some candidate of two or more items is over the budget, the
    budget loop stops at the first such candidate and raises its
    flag. *)
Lemma fill_budget_exceeded (maxOutputTokens : Z) (page : list json) (n : nat) :
  (2 <= n <= List.length page)%nat ->
  maxOutputTokens < tokens_of_first n page ->
  exists kept,
    (1 <= kept < n)%nat
    /\ fill_budget maxOutputTokens [] page = (firstn kept page, true)
    /\ (forall i, (2 <= i <= kept)%nat -> tokens_of_first i page <= maxOutputTokens)
    /\ maxOutputTokens < tokens_of_first (S kept) page.
Proof.
  intros Hn Hover.
  destruct (fill_budget maxOutputTokens [] page) as [items truncated] eqn:Hfill.
  destruct (fill_budget_estimates _ _ _ _ _ Hfill)
    as (kept & Hkept & -> & Hfits & Hflag).
  cbn [app] in *.
  assert (Hfits' : forall i, (2 <= i <= kept)%nat ->
                             tokens_of_first i page <= maxOutputTokens).
  { intros i Hi. rewrite <- tokens_of_first_estimate. apply Hfits; [lia|].
    destruct page as [|x page]; [cbn [List.length] in Hkept; lia|].
    destruct i as [|[|i]]; [lia|lia|]. cbn [Nat.sub firstn]. discriminate. }
  assert (Hless : (kept < n)%nat).
  { destruct (Nat.lt_ge_cases kept n) as [Hlt|Hge]; [exact Hlt|].
    specialize (Hfits' n ltac:(lia)). lia. }
  destruct truncated; [|lia].
  destruct Hflag as (_ & Hne & Hstop).
  exists kept. split.
  - split; [|exact Hless]. destruct kept; [|lia]. destruct Hne. reflexivity.
  - split; [reflexivity|]. split; [exact Hfits'|].
    rewrite <- tokens_of_first_estimate. exact Hstop.
Qed.

Lemma budget_truncation_page (sid : jsstring) (cursor : option jsstring)
  (pageSize offset maxOutputTokens : Z) (fields : list jsstring)
  (messages : list json) (kept : list json) :
  0 <= offset ->
  fill_budget maxOutputTokens []
    (projected_page messages pageSize offset fields) = (kept, true) ->
  let p := build_page sid cursor pageSize offset maxOutputTokens fields messages in
  kept <> []
  /\ (exists k, pl_items p = firstn k kept)
  /\ bg_truncated (pl_budget p) = true
  /\ pg_has_more (pl_page p) = true
  /\ pg_returned (pl_page p) = array_length (pl_items p)
  /\ exists next,
       pg_next_cursor (pl_page p) = Some next
       /\ decodeCursor (Some next)
          = Ok {| offset := offset + array_length (pl_items p) |}.
Proof.
  intros Hoff Hfill. cbv zeta.
  pose proof (build_page_keeps_flags sid cursor pageSize offset maxOutputTokens
                fields messages) as Hkeep.
  pose proof (build_page_consistent sid cursor pageSize offset maxOutputTokens
                fields messages) as [Hret Hcur].
  pose proof (initial_payload_filled sid cursor pageSize offset maxOutputTokens
                fields messages kept true Hfill) as (Hitems0 & Htr0 & Hmore0).
  cbv zeta in Hkeep.
  destruct (fill_budget_spec _ _ _ _ _ Hfill)
    as (taken & rest & Hpage & Hkept & Htr & Hne).
  cbn [app] in Hkept.
  assert (Hrest : rest <> []) by (apply Htr; reflexivity).
  assert (Hmore1 : pg_has_more
                     (pl_page (initial_payload sid cursor pageSize offset
                                 maxOutputTokens fields messages)) = true).
  { rewrite Hmore0. apply orb_true_iff. left.
    apply Z.ltb_lt. rewrite Hpage, Hkept. unfold array_length.
    rewrite length_app. destruct rest; [congruence|]. cbn [List.length]. lia. }
  destruct Hkeep as (Hmore & Htrunc & k & Hk).
  split; [apply Hne; reflexivity|].
  split; [exists k; rewrite Hk, Hitems0; reflexivity|].
  split; [auto|]. split; [auto|]. split; [assumption|].
  rewrite Hcur, (Hmore Hmore1). eexists. split; [reflexivity|].
  apply decodeCursor_encodeCursor.
  pose proof (array_length_nonneg
                (pl_items (build_page sid cursor pageSize offset maxOutputTokens
                             fields messages))). lia.
Qed.

(** C2, amended (budget truncation).  When the token estimate of the
    first [n] items of the page, for some [n] of two or more, exceeds
    [max_output_tokens], the budget loop of [opencode_get_messages]
    stops in the middle of the page: it keeps the items before the
    first candidate of two or more items that is over the budget, at
    least one and fewer than [n].  The page returned holds a prefix of
    the kept items, possibly shortened further by the envelope loop;
    [truncated] and [has_more] are true; [returned] is the number of
    items of the page; and [next_cursor] decodes to the offset of the
    input cursor plus the number of items actually returned. *)
Theorem budget_truncation_progress (env : Env) (sid : jsstring)
  (limit : option number) (cursor : option jsstring) (budget : option number)
  (fields : jsvalue) (w w' : World) (c : CursorPayload)
  (messages : list json) (n : nat) :
  decodeCursor cursor = Ok c ->
  fetchSessionMessages env sid (offset c + page_size limit + 1) w = (Ok messages, w') ->
  let page := projected_page messages (page_size limit) (offset c)
                (parseRequestedFields fields) in
  (2 <= n <= List.length page)%nat ->
  output_budget budget < tokens_of_first n page ->
  exists kept p,
    (1 <= kept < n)%nat
    /\ (forall i, (2 <= i <= kept)%nat ->
                  tokens_of_first i page <= output_budget budget)
    /\ output_budget budget < tokens_of_first (S kept) page
    /\ fill_budget (output_budget budget) [] page = (firstn kept page, true)
    /\ opencode_get_messages env sid limit cursor budget fields w
       = (Ok (MessagePage p), w')
    /\ (exists k, (k <= kept)%nat /\ pl_items p = firstn k page)
    /\ bg_truncated (pl_budget p) = true
    /\ pg_has_more (pl_page p) = true
    /\ pg_returned (pl_page p) = array_length (pl_items p)
    /\ exists next,
         pg_next_cursor (pl_page p) = Some next
         /\ decodeCursor (Some next)
            = Ok {| offset := offset c + array_length (pl_items p) |}.
Proof.
  intros Hc Hfetch page Hn Hover.
  destruct (fill_budget_exceeded (output_budget budget) page n Hn Hover)
    as (kept & Hkept & Hfill & Hfits & Hstop).
  exists kept. eexists.
  split; [exact Hkept|]. split; [exact Hfits|]. split; [exact Hstop|].
  split; [exact Hfill|]. split.
  - rewrite get_messages_run, Hc. cbv zeta.
    rewrite fetchSessionMessages_run in Hfetch. injection Hfetch as -> <-.
    reflexivity.
  - destruct (budget_truncation_page sid cursor (page_size limit) (offset c)
                (output_budget budget) (parseRequestedFields fields) messages
                (firstn kept page)
                ltac:(eapply decodeCursor_nonneg; eassumption) Hfill)
      as (_ & (k & Hitems) & Htr & Hmore & Hret & Hnext).
    split; [|repeat split; assumption].
    exists (Nat.min k kept). split; [lia|].
    rewrite Hitems, firstn_firstn. reflexivity.
Qed.

Lemma budget_truncation_progress_witness :
  exists p w',
    (decodeCursor None = Ok {| offset := 0 |}
     /\ fetchSessionMessages (history_env five_messages) ses_1
          (0 + page_size (Some (Int 5)) + 1) start_world
        = (Ok five_messages, w')
     /\ (2 <= 5 <= List.length
                     (projected_page five_messages (page_size (Some (Int 5))) 0
                        (parseRequestedFields all_fields)))%nat
     /\ output_budget (Some (Int 100))
        < tokens_of_first 5
            (projected_page five_messages (page_size (Some (Int 5))) 0
               (parseRequestedFields all_fields)))
    /\ map (fun i => tokens_of_first i five_messages) [1; 2; 3; 4; 5]%nat
       = [19; 47; 66; 94; 113]
    /\ opencode_get_messages (history_env five_messages) ses_1 (Some (Int 5)) None
         (Some (Int 100)) all_fields start_world
       = (Ok (MessagePage p), w')
    /\ pl_items p = firstn 1 five_messages
    /\ bg_truncated (pl_budget p) = true
    /\ pg_has_more (pl_page p) = true
    /\ pg_returned (pl_page p) = 1
    /\ pg_next_cursor (pl_page p) = Some (encodeCursor {| offset := 1 |}).
Proof.
  assert (H1 : decodeCursor None = Ok {| offset := 0 |}) by reflexivity.
  assert (H2 : exists w',
             fetchSessionMessages (history_env five_messages) ses_1
               (0 + page_size (Some (Int 5)) + 1) start_world
             = (Ok five_messages, w'))
    by (eexists; vm_compute; reflexivity).
  destruct H2 as (w' & H2).
  assert (H3 : (2 <= 5 <= List.length
                          (projected_page five_messages (page_size (Some (Int 5))) 0
                             (parseRequestedFields all_fields)))%nat)
    by (vm_compute; split; repeat constructor).
  assert (H4 : output_budget (Some (Int 100))
               < tokens_of_first 5
                   (projected_page five_messages (page_size (Some (Int 5))) 0
                      (parseRequestedFields all_fields)))
    by (vm_compute; reflexivity).
  destruct (budget_truncation_progress (history_env five_messages) ses_1
              (Some (Int 5)) None (Some (Int 100)) all_fields start_world w'
              {| offset := 0 |} five_messages 5 H1 H2 H3 H4)
    as (kept & p & _ & _ & _ & _ & Hrun & _ & Htr & Hmore & _ & _).
  exists p, w'. split; [exact (conj H1 (conj H2 (conj H3 H4)))|].
  split; [vm_compute; reflexivity|].
  split; [exact Hrun|].
  assert (Hp : Some p = page_of (opencode_get_messages (history_env five_messages)
                                   ses_1 (Some (Int 5)) None (Some (Int 100))
                                   all_fields start_world))
    by (rewrite Hrun; reflexivity).
  vm_compute in Hp. injection Hp as ->.
  repeat split; vm_compute; reflexivity.
Defined.

(** C2, as stated, fails: with a budget of 90 tokens the estimate of the
    first four items, 94, is over the budget, and the safety net then
    drops the three items that the budget loop kept: no item is
    returned. *)
Lemma budget_truncation_counterexample :
  output_budget (Some (Int 90)) = 90
  /\ tokens_of_first 4
       (projected_page five_messages (page_size (Some (Int 5))) 0
          (parseRequestedFields all_fields)) = 94
  /\ option_map (fun p => (pl_items p, bg_truncated (pl_budget p)))
       (page_of (opencode_get_messages (history_env five_messages) ses_1
                   (Some (Int 5)) None (Some (Int 90)) all_fields start_world))
     = Some ([], true).
Proof. vm_compute. repeat split. Qed.

Lemma safety_net_page (sid : jsstring) (cursor : option jsstring)
  (pageSize offset maxOutputTokens : Z) (fields : list jsstring)
  (messages : list json) :
  0 <= offset ->
  let p0 := initial_payload sid cursor pageSize offset maxOutputTokens fields messages in
  let p := build_page sid cursor pageSize offset maxOutputTokens fields messages in
  exists k,
    (k <= List.length (pl_items p0))%nat
    /\ (forall i, (i < k)%nat ->
                  over_budget maxOutputTokens (dropped offset i p0) = true)
    /\ (over_budget maxOutputTokens (dropped offset k p0) = false
        \/ pl_items (dropped offset k p0) = [])
    /\ (if over_budget maxOutputTokens (dropped offset k p0)
        then pl_items p = [] /\ pl_notice p = Some budget_notice
        else p = dropped offset k p0 /\ pl_notice p = None)
    /\ (pl_items p = [] -> pl_items p0 <> [] ->
        (forall i, (i < List.length (pl_items p0))%nat ->
                   over_budget maxOutputTokens (dropped offset i p0) = true)
        /\ pg_has_more (pl_page p) = true
        /\ bg_truncated (pl_budget p) = true
        /\ exists next,
             pg_next_cursor (pl_page p) = Some next
             /\ decodeCursor (Some next) = Ok {| offset := offset |}).
Proof.
  intros Hoff. cbv zeta.
  pose proof (build_page_consistent sid cursor pageSize offset maxOutputTokens
                fields messages) as [_ Hcur].
  unfold build_page in *. cbv zeta in *.
  set (p0 := initial_payload sid cursor pageSize offset maxOutputTokens fields
               messages) in *.
  assert (Hnotice0 : pl_notice p0 = None).
  { subst p0. unfold initial_payload. cbv zeta.
    destruct (fill_budget _ _ _). reflexivity. }
  destruct (safety_loop_spec maxOutputTokens offset (List.length (pl_items p0)) p0
              (Nat.le_refl _)) as (k & Hk & Heq & Hall & Hstop).
  rewrite Heq in *. exists k.
  split; [assumption|]. split; [assumption|]. split; [assumption|].
  assert (Hnotice : pl_notice (dropped offset k p0) = None).
  { destruct (dropped_fields offset k p0) as (_ & _ & Hn & _). congruence. }
  unfold give_up_page in *.
  destruct (over_budget maxOutputTokens (dropped offset k p0)) eqn:Hover.
  - split; [cbn; split; reflexivity|].
    intros _ Hne. destruct Hstop as [Hstop|Hstop]; [discriminate|].
    rewrite dropped_items in Hstop.
    assert (Hkn : k = List.length (pl_items p0)).
    { destruct (pl_items p0) as [|x l] eqn:Hitems; [congruence|].
      apply (f_equal (@List.length json)) in Hstop.
      rewrite length_firstn in Hstop. cbn [List.length] in *. lia. }
    split; [intros i Hi; apply Hall; lia|].
    cbn. split; [reflexivity|]. split; [reflexivity|].
    eexists. split; [reflexivity|]. apply decodeCursor_encodeCursor. assumption.
  - split; [split; [reflexivity|assumption]|].
    intros Hempty Hne. rewrite dropped_items in Hempty.
    assert (Hkn : k = List.length (pl_items p0)).
    { destruct (pl_items p0) as [|x l] eqn:Hitems; [congruence|].
      apply (f_equal (@List.length json)) in Hempty.
      rewrite length_firstn in Hempty. cbn [List.length] in *. lia. }
    assert (Hkpos : (0 < k)%nat).
    { destruct (pl_items p0); [congruence|]. cbn [List.length] in Hkn. lia. }
    destruct (dropped_flags offset k p0 Hkpos) as (Hmore & Htr & _ & _ & Hnext & _).
    split; [intros i Hi; apply Hall; lia|].
    split; [assumption|]. split; [assumption|].
    eexists. split; [exact Hnext|].
    rewrite dropped_items.
    replace (List.length (pl_items p0) - k)%nat with 0%nat by lia.
    cbn [firstn array_length List.length Z.of_nat]. rewrite Z.add_0_r.
    apply decodeCursor_encodeCursor. assumption.
Qed.




(* ================================================================== *)
(** * opencode_get_messages: reading a session to its end *)
(* ================================================================== *)

Lemma decodeCursor_cursor_at (o : Z) :
  0 <= o -> decodeCursor (cursor_at o) = Ok {| offset := o |}.
Proof.
  intros Ho. unfold cursor_at. destruct (Z.eqb_spec o 0) as [->|Hne].
  - reflexivity.
  - apply decodeCursor_encodeCursor. assumption.
Qed.

Lemma page_size_range (limit : option number) : 1 <= page_size limit <= 200.
Proof. unfold page_size, MAX_MESSAGE_LIMIT. lia. Qed.

Lemma project_all (messages : list json) (pageSize offset : Z) :
  projected_page messages pageSize offset [lit "*"]
  = raw_page messages pageSize offset.
Proof.
  unfold projected_page. rewrite map_map. cbn [projectMessage].
  change (includes [lit "*"] (lit "*")) with true. cbv iota. cbn [fst].
  apply map_id.
Qed.

Lemma raw_page_of_window (history : list json) (pageSize o : Z) :
  0 <= o -> 0 <= pageSize ->
  raw_page (firstn (Z.to_nat (o + pageSize + 1)) history) pageSize o
  = firstn (Z.to_nat pageSize) (skipn (Z.to_nat o) history).
Proof.
  intros Ho Hp. unfold raw_page, slice.
  replace (o + pageSize - o) with pageSize by lia.
  rewrite skipn_firstn_comm, firstn_firstn. f_equal. lia.
Qed.

(** A page that is not truncated is the payload as first assembled, and
    holds the whole projected page. *)
Lemma build_page_untruncated (sid : jsstring) (cursor : option jsstring)
  (pageSize offset maxOutputTokens : Z) (fields : list jsstring)
  (messages : list json) :
  0 <= offset ->
  let p := build_page sid cursor pageSize offset maxOutputTokens fields messages in
  bg_truncated (pl_budget p) = false ->
  p = initial_payload sid cursor pageSize offset maxOutputTokens fields messages
  /\ pl_items p = projected_page messages pageSize offset fields.
Proof.
  intros Hoff p Htr. subst p.
  destruct (safety_net_page sid cursor pageSize offset maxOutputTokens fields
              messages Hoff) as (k & Hk & _ & _ & Hgive & _).
  cbv zeta in Hgive.
  set (p := build_page _ _ _ _ _ _ _) in *.
  set (p0 := initial_payload _ _ _ _ _ _ _) in *.
  assert (Hp : p = p0).
  { destruct (over_budget maxOutputTokens (dropped offset k p0)) eqn:Hover.
    - exfalso. subst p. unfold build_page in Htr. cbv zeta in Htr.
      fold p0 in Htr.
      destruct (safety_loop_spec maxOutputTokens offset (List.length (pl_items p0))
                  p0 (Nat.le_refl _)) as (k' & _ & Heq & _ & _).
      rewrite Heq in Htr. unfold give_up_page in Htr.
      destruct (over_budget maxOutputTokens (dropped offset k' p0)) eqn:Hover'.
      + cbn in Htr. discriminate.
      + destruct Hgive as [Hitems _]. unfold build_page in Hitems.
        cbv zeta in Hitems. fold p0 in Hitems. rewrite Heq in Hitems.
        unfold give_up_page in Hitems. rewrite Hover' in Hitems.
        destruct k' as [|k'].
        * rewrite dropped_0 in *.
          destruct k as [|k]; [rewrite dropped_0 in Hover; congruence|].
          destruct (dropped_items offset (S k) p0).
          assert (Hlen : (S k <= 0)%nat) by (rewrite Hitems in Hk; exact Hk).
          lia.
        * destruct (dropped_flags offset (S k') p0 ltac:(lia)) as (_ & Ht & _).
          congruence.
    - destruct Hgive as [Hp _]. destruct k as [|k]; [exact Hp|].
      destruct (dropped_flags offset (S k) p0 ltac:(lia)) as (_ & Ht & _).
      rewrite Hp in Htr. congruence. }
  split; [exact Hp|]. rewrite Hp in *.
  destruct (fill_budget maxOutputTokens []
              (projected_page messages pageSize offset fields))
    as [kept truncated] eqn:Hfill.
  destruct (initial_payload_filled sid cursor pageSize offset maxOutputTokens
              fields messages kept truncated Hfill) as (Hitems & Htr0 & _).
  fold p0 in Hitems, Htr0. rewrite Hitems.
  destruct (fill_budget_spec _ _ _ _ _ Hfill) as (taken & rest & Hpage & -> & Hiff & _).
  cbn [app]. rewrite Hpage.
  destruct rest as [|x rest]; [rewrite app_nil_r; reflexivity|].
  assert (truncated = true) by (apply Hiff; discriminate). congruence.
Qed.

Section ReadAll.
Variable env : Env.
Variable sid : jsstring.
Variable history : list json.
Variables limit budget : option number.

Let N := Z.of_nat (List.length history).
Let ps := page_size limit.

(** The remote agent answers a request for [L] messages with the first
    [L] messages of the history. *)
Hypothesis remote_prefix :
  forall n L,
    messages_of (remote env n (ListMessages sid L))
    = Ok (firstn (Z.to_nat L) history).

(** The token budget never truncates a page. *)
Hypothesis never_truncated :
  forall o w p w',
    0 <= o <= N ->
    opencode_get_messages env sid limit (cursor_at o) budget all_fields w
    = (Ok (MessagePage p), w') ->
    bg_truncated (pl_budget p) = false.

Lemma full_page (o : Z) (w : World) :
  0 <= o <= N ->
  exists p w',
    opencode_get_messages env sid limit (cursor_at o) budget all_fields w
    = (Ok (MessagePage p), w')
    /\ pl_items p = firstn (Z.to_nat ps) (skipn (Z.to_nat o) history)
    /\ pg_has_more (pl_page p) = (o + ps <? N)
    /\ pg_next_cursor (pl_page p) = if o + ps <? N then cursor_at (o + ps) else None.
Proof.
  intros Ho. pose proof (page_size_range limit) as Hps. fold ps in Hps.
  assert (Hrun :
            opencode_get_messages env sid limit (cursor_at o) budget all_fields w
            = (Ok (MessagePage
                     (build_page sid (cursor_at o) ps o (output_budget budget)
                        [lit "*"] (firstn (Z.to_nat (o + ps + 1)) history))),
               after_fetch env (ListMessages sid (o + ps + 1)) w)).
  { rewrite get_messages_run, decodeCursor_cursor_at by lia. cbv zeta.
    cbn [offset]. unfold answer. rewrite remote_prefix. reflexivity. }
  pose proof (never_truncated o w _ _ Ho Hrun) as Htr.
  destruct (build_page_untruncated sid (cursor_at o) ps o (output_budget budget)
              [lit "*"] (firstn (Z.to_nat (o + ps + 1)) history) ltac:(lia) Htr)
    as [Hp Hitems].
  rewrite project_all, raw_page_of_window in Hitems by lia.
  do 2 eexists. split; [exact Hrun|]. split; [exact Hitems|].
  destruct (build_page_consistent sid (cursor_at o) ps o (output_budget budget)
              [lit "*"] (firstn (Z.to_nat (o + ps + 1)) history)) as [_ Hcur].
  assert (Hmore : pg_has_more
                    (pl_page (build_page sid (cursor_at o) ps o
                                (output_budget budget) [lit "*"]
                                (firstn (Z.to_nat (o + ps + 1)) history)))
                  = (o + ps <? N)).
  { rewrite Hp.
    destruct (fill_budget (output_budget budget) []
                (projected_page (firstn (Z.to_nat (o + ps + 1)) history) ps o
                   [lit "*"])) as [kept truncated] eqn:Hfill.
    destruct (initial_payload_filled sid (cursor_at o) ps o (output_budget budget)
                [lit "*"] (firstn (Z.to_nat (o + ps + 1)) history) kept truncated
                Hfill) as (Hk & _ & ->).
    rewrite <- Hp, Hitems in Hk. subst kept.
    rewrite project_all, raw_page_of_window by lia.
    unfold array_length. rewrite !length_firstn, length_skipn.
    subst N. destruct (Z.ltb_spec (o + ps) (Z.of_nat (List.length history)));
      apply orb_true_iff || apply orb_false_iff;
      [right; apply Z.ltb_lt; lia|split; apply Z.ltb_ge; lia]. }
  split; [exact Hmore|].
  rewrite Hcur, Hmore, Hitems.
  destruct (Z.ltb_spec (o + ps) N) as [Hlt|Hge]; [|reflexivity].
  unfold cursor_at. replace (o + ps =? 0) with false by (symmetry; apply Z.eqb_neq; lia).
  do 3 f_equal. unfold array_length. rewrite length_firstn, length_skipn.
  subst N. lia.
Qed.

Lemma read_from (fuel : nat) :
  forall o w,
    0 <= o <= N ->
    N - o < Z.of_nat fuel ->
    exists earlier final,
      read_all env sid limit budget all_fields fuel (cursor_at o) w
      = Some (earlier ++ [final])
      /\ List.concat (map pl_items (earlier ++ [final]))
         = skipn (Z.to_nat o) history
      /\ Forall (fun p => pg_has_more (pl_page p) = true) earlier
      /\ pg_has_more (pl_page final) = false
      /\ pg_next_cursor (pl_page final) = None.
Proof.
  pose proof (page_size_range limit) as Hps. fold ps in Hps.
  induction fuel as [|fuel IH]; intros o w Ho Hfuel; [cbn in Hfuel; lia|].
  destruct (full_page o w Ho) as (p & w' & Hrun & Hitems & Hmore & Hnext).
  cbn [read_all]. rewrite Hrun, Hnext.
  destruct (Z.ltb_spec (o + ps) N) as [Hlt|Hge].
  - assert (Hnz : cursor_at (o + ps) = Some (encodeCursor {| offset := o + ps |})).
    { unfold cursor_at.
      replace (o + ps =? 0) with false by (symmetry; apply Z.eqb_neq; lia).
      reflexivity. }
    rewrite Hnz. cbv iota. rewrite <- Hnz.
    destruct (IH (o + ps) w' ltac:(lia) ltac:(lia))
      as (earlier & final & -> & Hcat & Hall & Hlast & Hnone).
    exists (p :: earlier), final. cbn [option_map app].
    split; [reflexivity|]. split; [|split; [|split]]; try assumption.
    + cbn [map List.concat]. rewrite Hcat, Hitems.
      replace (Z.to_nat (o + ps)) with (Z.to_nat ps + Z.to_nat o)%nat by lia.
      rewrite <- skipn_skipn. apply firstn_skipn.
    + constructor; assumption.
  - exists [], p. cbn [app map List.concat].
    split; [reflexivity|]. rewrite app_nil_r. split; [|split; [|split]].
    + rewrite Hitems. apply firstn_all2. rewrite length_skipn. subst N. lia.
    + constructor.
    + assumption.
    + assumption.
Qed.
End ReadAll.



(** The scenario of the specification: five messages read two at a
    time. *)
Example five_messages_in_three_pages :
  option_map
    (map (fun p => (pl_items p, pg_next_cursor (pl_page p), pg_has_more (pl_page p))))
    (read_all (history_env five_messages) ses_1 (Some (Int 2)) None all_fields 6
       None start_world)
  = Some [(firstn 2 five_messages, Some (encodeCursor {| offset := 2 |}), true);
          (firstn 2 (skipn 2 five_messages), Some (encodeCursor {| offset := 4 |}), true);
          (skipn 4 five_messages, None, false)].
Proof. vm_compute. reflexivity. Qed.

(* ================================================================== *)
(** * Projection *)
(* ================================================================== *)

(** Induction over JSON values. *)
Lemma json_ind (P : json -> Prop) :
  P JNull -> (forall b, P (JBool b)) -> (forall n, P (JNum n)) ->
  (forall s, P (JStr s)) ->
  (forall entries, Forall P entries -> P (JArr entries)) ->
  (forall members, Forall (fun m => P (snd m)) members -> P (JObj members)) ->
  forall v, P v.
Proof.
  intros Hnull Hbool Hnum Hstr Harr Hobj.
  fix IH 1. intros [| b | n | s | entries | members].
  - apply Hnull.
  - apply Hbool.
  - apply Hnum.
  - apply Hstr.
  - apply Harr. induction entries as [|e entries IHl]; constructor;
      [apply IH|exact IHl].
  - apply Hobj. induction members as [|[k x] members IHl]; constructor;
      [apply IH|exact IHl].
Qed.

Lemma lookup_In (key : jsstring) (record : list (jsstring * json)) (v : json) :
  lookup key record = Some v -> exists k, In (k, v) record.
Proof.
  induction record as [|[k x] record IH]; cbn [lookup]; [discriminate|].
  destruct (str_eqb k key).
  - intros [= ->]. exists k. left. reflexivity.
  - intros H. destruct (IH H) as (k' & Hin). exists k'. right. assumption.
Qed.

Lemma projectValue_array (entries : list json) (paths : list path) :
  projectValue (JArr entries) paths
  = if existsb is_nil paths then Some (JArr entries)
    else Some (JArr (flat_map (fun entry => defined (projectValue entry paths))
                              entries)).
Proof. reflexivity. Qed.

Lemma includes_In (values : list jsstring) (v : jsstring) :
  includes values v = true <-> In v values.
Proof.
  unfold includes. rewrite existsb_exists. split.
  - intros (x & Hin & Heq). apply str_eqb_eq in Heq. subst x. exact Hin.
  - intros Hin. exists v. split; [exact Hin|apply str_eqb_refl].
Qed.

Lemma projectValue_object (record : list (jsstring * json)) (paths : list path) :
  projectValue (JObj record) paths
  = if existsb is_nil paths then Some (JObj record)
    else
      let buckets := make_buckets paths in
      let output := flat_map (project_member record projectValue) buckets in
      if is_nil output && negb (existsb (keeps_method record) buckets)
      then None else Some (JObj output).
Proof.
  cbn [projectValue]. destruct (existsb is_nil paths); [reflexivity|].
  cbv zeta.
  assert (Heq : forall buckets,
             flat_map
               (fun bucket : jsstring * list path =>
                  let (key, nestedPaths) := bucket in
                  (fix member (ms : list (jsstring * json)) : list (jsstring * json) :=
                     match ms with
                     | [] => []
                     | (k, v) :: ms' =>
                         if str_eqb k key
                         then match projectValue v nestedPaths with
                              | Some projected =>
                                  if str_eqb key proto_key then []
                                  else [(key, projected)]
                              | None => []
                              end
                         else member ms'
                     end) record) buckets
             = flat_map (project_member record projectValue) buckets).
  { intros buckets. apply flat_map_ext. intros [key nested].
    unfold project_member. cbn [fst snd].
    induction record as [|[k v] record IH]; cbn [lookup]; [reflexivity|].
    destruct (str_eqb k key); [reflexivity|exact IH]. }
  rewrite Heq. reflexivity.
Qed.

Lemma projectValue_scalar (v : json) (paths : list path) :
  match v with JArr _ | JObj _ => False | _ => True end ->
  projectValue v paths = if existsb is_nil paths then Some v else None.
Proof. destruct v; cbn [projectValue]; intros H; try reflexivity; destruct H. Qed.

Lemma bucket_add_sound (paths : list path) (head : jsstring) (rest : path)
  (buckets : list (jsstring * list path)) :
  In (head :: rest) paths -> bucket_sound paths buckets ->
  bucket_sound paths (bucket_add head rest buckets).
Proof.
  intros Hin. induction buckets as [|[k ts] buckets IH]; intros Hs key tails tail;
    cbn [bucket_add].
  - intros [[= <- <-]|[]] [<-|[]]. assumption.
  - destruct (str_eqb_spec k head) as [->|Hne].
    + intros [[= <- <-]|Hb] Ht.
      * apply in_app_or in Ht. destruct Ht as [Ht|[<-|[]]]; [|assumption].
        apply (Hs head ts tail); [left; reflexivity|assumption].
      * apply (Hs key tails tail); [right; assumption|assumption].
    + intros [[= <- <-]|Hb] Ht.
      * apply (Hs k ts tail); [left; reflexivity|assumption].
      * apply IH with (key := key) (tails := tails); try assumption.
        intros key' tails' tail' Hb' Ht'.
        apply (Hs key' tails' tail'); [right; assumption|assumption].
Qed.

Lemma make_buckets_sound (paths : list path) : bucket_sound paths (make_buckets paths).
Proof.
  unfold make_buckets.
  assert (Hgen : forall todo buckets,
             (forall p, In p todo -> In p paths) ->
             bucket_sound paths buckets ->
             bucket_sound paths
               (fold_left
                  (fun buckets p =>
                     match p with
                     | [] => buckets
                     | head :: rest => bucket_add head rest buckets
                     end) todo buckets)).
  { induction todo as [|p todo IH]; intros buckets Hsub Hs; [exact Hs|].
    cbn [fold_left]. apply IH; [intros q Hq; apply Hsub; right; assumption|].
    destruct p as [|head rest]; [exact Hs|].
    apply bucket_add_sound; [apply Hsub; left; reflexivity|exact Hs]. }
  apply Hgen; [auto|]. intros key tails tail [].
Qed.

Lemma existsb_is_nil_In (paths : list path) :
  existsb is_nil paths = true -> In [] paths.
Proof.
  intros H. apply existsb_exists in H. destruct H as ([|x p] & Hin & Hnil);
    [assumption|discriminate].
Qed.

Lemma is_prefix_nil (q : path) : is_prefix [] q.
Proof. exists q. reflexivity. Qed.

Lemma is_prefix_cons (k : jsstring) (a b : path) :
  is_prefix a b -> is_prefix (k :: a) (k :: b).
Proof. intros (c & ->). exists c. reflexivity. Qed.

Lemma bucket_add_inhabited (head : jsstring) (rest : path)
  (buckets : list (jsstring * list path)) :
  bucket_inhabited buckets -> bucket_inhabited (bucket_add head rest buckets).
Proof.
  induction buckets as [|[k ts] buckets IH]; intros Hs key tails; cbn [bucket_add].
  - intros [[= <- <-]|[]]. discriminate.
  - destruct (str_eqb k head).
    + intros [[= <- <-]|Hb].
      * intros Happ. apply app_eq_nil in Happ. destruct Happ. discriminate.
      * apply (Hs key tails). right. assumption.
    + intros [[= <- <-]|Hb].
      * apply (Hs k ts). left. reflexivity.
      * apply (IH (fun key' tails' Hb' => Hs key' tails' (or_intror Hb')) key tails Hb).
Qed.

Lemma make_buckets_inhabited (paths : list path) :
  bucket_inhabited (make_buckets paths).
Proof.
  unfold make_buckets.
  assert (Hgen : forall todo buckets,
             bucket_inhabited buckets ->
             bucket_inhabited
               (fold_left
                  (fun buckets p =>
                     match p with
                     | [] => buckets
                     | head :: rest => bucket_add head rest buckets
                     end) todo buckets)).
  { induction todo as [|p todo IH]; intros buckets Hs; [exact Hs|].
    cbn [fold_left]. apply IH.
    destruct p as [|head rest]; [exact Hs|].
    apply bucket_add_inhabited. exact Hs. }
  apply Hgen. intros key tails [].
Qed.

Lemma project_member_In (record : list (jsstring * json))
  (project : json -> list path -> jsvalue) (bucket : jsstring * list path)
  (key : jsstring) (x : json) :
  In (key, x) (project_member record project bucket) ->
  key = fst bucket
  /\ exists v, lookup key record = Some v /\ project v (snd bucket) = Some x.
Proof.
  unfold project_member.
  destruct (lookup (fst bucket) record) as [v|] eqn:Hl; [|intros []].
  destruct (project v (snd bucket)) as [y|] eqn:Hp; [|intros []].
  destruct (str_eqb (fst bucket) proto_key); [intros []|].
  intros [[= <- <-]|[]]. split; [reflexivity|]. exists v. split; assumption.
Qed.

(** What [projectValue] keeps sits where it sat in the value, and lies
    on the requested paths. *)
Lemma projectValue_sound (v : json) :
  forall paths projected,
    projectValue v paths = Some projected ->
    extracted projected v
    /\ forall q, In q (member_paths projected) -> on_requested_path paths q.
Proof.
  induction v as [| b | n | s | entries IH | record IH] using json_ind;
    intros paths projected Hp.
  1-4: rewrite projectValue_scalar in Hp by exact I;
    destruct (existsb is_nil paths) eqn:Hnil; [|discriminate];
    injection Hp as <-; (split; [apply extracted_whole|]);
    intros q [].
  - rewrite projectValue_array in Hp.
    destruct (existsb is_nil paths) eqn:Hnil; injection Hp as <-.
    { split; [apply extracted_whole|].
      intros q _. exists []. split; [apply existsb_is_nil_In; assumption|].
      right. apply is_prefix_nil. }
    split.
    + apply extracted_array. clear Hnil.
      induction IH as [|e entries He _ IHl]; cbn [flat_map];
        [apply entries_nil|].
      destruct (projectValue e paths) as [x|] eqn:Hx; cbn [defined app].
      * apply entries_keep; [apply (He paths x Hx)|exact IHl].
      * apply entries_drop. exact IHl.
    + intros q Hq. cbn [member_paths] in Hq.
      apply in_flat_map in Hq. destruct Hq as (x & Hx & Hq).
      apply in_flat_map in Hx. destruct Hx as (e & He & Hx).
      destruct (projectValue e paths) as [y|] eqn:Hy; [|destruct Hx].
      destruct Hx as [<-|[]].
      rewrite Forall_forall in IH. apply (IH e He paths y Hy). assumption.
  - rewrite projectValue_object in Hp.
    destruct (existsb is_nil paths) eqn:Hnil.
    { injection Hp as <-. split; [apply extracted_whole|].
      intros q _. exists []. split; [apply existsb_is_nil_In; assumption|].
      right. apply is_prefix_nil. }
    cbv zeta in Hp.
    destruct (is_nil _ && negb _); [discriminate|]. injection Hp as <-.
    rewrite Forall_forall in IH.
    split.
    + apply extracted_object.
      induction (make_buckets paths) as [|[key tails] buckets IHb];
        cbn [flat_map]; [apply members_nil|].
      unfold project_member at 1. cbn [fst snd].
      destruct (lookup key record) as [v|] eqn:Hl; [|exact IHb].
      destruct (projectValue v tails) as [x|] eqn:Hx; [|exact IHb].
      destruct (str_eqb key proto_key); [exact IHb|].
      cbn [app]. apply members_cons with (v := v); [assumption| |exact IHb].
      destruct (lookup_In _ _ _ Hl) as (k & Hin).
      apply (IH (k, v) Hin tails x Hx).
    + intros q Hq. cbn [member_paths] in Hq.
      apply in_flat_map in Hq. destruct Hq as ((key & x) & Hx & Hq).
      apply in_flat_map in Hx. destruct Hx as (bucket & Hb & Hx).
      apply project_member_In in Hx. destruct Hx as (-> & v & Hl & Hx).
      destruct bucket as [key tails]. cbn [fst snd] in *.
      destruct (lookup_In _ _ _ Hl) as (k & Hin).
      destruct (IH (k, v) Hin tails x Hx) as [_ Hpaths].
      destruct Hq as [<-|Hq].
      * destruct tails as [|tail others];
          [exfalso; apply (make_buckets_inhabited paths key [] Hb); reflexivity|].
        exists (key :: tail). split.
        -- apply (make_buckets_sound paths key (tail :: others) tail Hb).
           left. reflexivity.
        -- left. exists tail. reflexivity.
      * apply in_map_iff in Hq. destruct Hq as (q' & <- & Hq').
        destruct (Hpaths q' Hq') as (t & Ht & Hrel).
        exists (key :: t). split.
        -- apply (make_buckets_sound paths key tails t Hb Ht).
        -- destruct Hrel as [Hrel|Hrel]; [left|right];
             apply is_prefix_cons; assumption.
Qed.

(** *** Nothing requested is lost *)

Lemma pathExists_object (record : list (jsstring * json)) (head : jsstring)
  (rest : path) :
  pathExists (JObj record) (head :: rest)
  = match lookup head record with
    | Some v => pathExists v rest
    | None => inherited_path head rest
    end.
Proof.
  cbn [pathExists].
  induction record as [|[k v] record IH]; cbn [lookup]; [reflexivity|].
  destruct (str_eqb k head); [reflexivity|exact IH].
Qed.

Lemma pathExists_nil (v : json) : pathExists v [] = true.
Proof. destruct v; reflexivity. Qed.

Lemma proto_key_no_method : ~ In proto_key Object_prototype_methods.
Proof.
  intros Hin. apply includes_In in Hin. vm_compute in Hin. discriminate.
Qed.

(** [pathExists] decides [has_path]. *)
Lemma pathExists_has_path (v : json) :
  forall p, pathExists v p = true <-> has_path v p.
Proof.
  intros p. split.
  - revert p.
    induction v as [| b | n | s | entries IH | record IH] using json_ind;
      intros [|head rest] He; try apply path_end; try discriminate He.
    + cbn [pathExists] in He. apply existsb_exists in He.
      destruct He as (entry & Hin & He). rewrite Forall_forall in IH.
      apply path_in_array with (entry := entry); [assumption|].
      apply IH; assumption.
    + rewrite pathExists_object in He.
      destruct (lookup head record) as [v|] eqn:Hl.
      * destruct (lookup_In _ _ _ Hl) as (k & Hin). rewrite Forall_forall in IH.
        apply path_in_object with (v := v); [assumption|].
        apply (IH (k, v) Hin). assumption.
      * unfold inherited_path in He.
        destruct (str_eqb_spec head proto_key) as [->|Hne].
        -- apply path_to_prototype; [assumption|].
           destruct rest as [|next rest']; [left; reflexivity|].
           apply andb_true_iff in He. destruct He as [Hnext Hnil].
           destruct rest'; [|discriminate]. right. exists next.
           split; [reflexivity|]. apply orb_true_iff in Hnext.
           destruct Hnext as [Hnext|Hnext];
             [left; apply str_eqb_eq; assumption
             |right; apply includes_In; assumption].
        -- apply andb_true_iff in He. destruct He as [Hmethod Hnil].
           destruct rest; [|discriminate].
           apply path_to_method; [assumption|apply includes_In; assumption].
  - induction 1 as [v
                   | entries entry head rest Hin _ IH
                   | record head rest v Hl _ IH
                   | record head Hl Hmethod
                   | record rest Hl Hrest].
    + apply pathExists_nil.
    + cbn [pathExists]. apply existsb_exists. exists entry. split; assumption.
    + rewrite pathExists_object, Hl. assumption.
    + rewrite pathExists_object, Hl. unfold inherited_path.
      destruct (str_eqb_spec head proto_key) as [->|_];
        [destruct (proto_key_no_method Hmethod)|].
      apply andb_true_iff. split; [apply includes_In; assumption|reflexivity].
    + rewrite pathExists_object, Hl. unfold inherited_path.
      rewrite str_eqb_refl.
      destruct Hrest as [->|(next & -> & Hnext)]; [reflexivity|].
      apply andb_true_iff. split; [|reflexivity]. apply orb_true_iff.
      destruct Hnext as [->|Hnext];
        [left; apply str_eqb_refl|right; apply includes_In; assumption].
Qed.

(** For a plain path the inherited members play no part. *)
Lemma has_path_plain (v : json) (p : path) :
  plain_path p -> (has_path v p <-> own_path v p).
Proof.
  intros Hplain. split.
  - induction 1 as [v
                   | entries entry head rest Hin _ IH
                   | record head rest v Hl _ IH
                   | record head Hl Hmethod
                   | record rest Hl Hrest].
    + apply own_end.
    + apply own_in_array with (entry := entry); [assumption|].
      apply IH. assumption.
    + apply own_in_object with (v := v); [assumption|].
      apply IH. intros key Hkey. apply Hplain. right. assumption.
    + destruct (Hplain head (or_introl eq_refl)) as [_ Hno]. contradiction.
    + destruct (Hplain proto_key (or_introl eq_refl)) as [Hno _]. congruence.
  - induction 1 as [v
                   | entries entry head rest Hin _ IH
                   | record head rest v Hl _ IH].
    + apply path_end.
    + apply path_in_array with (entry := entry); [assumption|].
      apply IH. assumption.
    + apply path_in_object with (v := v); [assumption|].
      apply IH. intros key Hkey. apply Hplain. right. assumption.
Qed.

Lemma projectValue_whole (v : json) (paths : list path) :
  existsb is_nil paths = true -> projectValue v paths = Some v.
Proof. intros H. destruct v; cbn [projectValue]; rewrite H; reflexivity. Qed.

Lemma bucket_add_has_new (head : jsstring) (rest : path)
  (buckets : list (jsstring * list path)) :
  bucket_has (bucket_add head rest buckets) head rest.
Proof.
  induction buckets as [|[k ts] buckets IH]; cbn [bucket_add].
  - exists [rest]. split; left; reflexivity.
  - destruct (str_eqb_spec k head) as [->|Hne].
    + exists (ts ++ [rest]). split; [left; reflexivity|].
      apply in_or_app. right. left. reflexivity.
    + destruct IH as (tails & Hin & Ht). exists tails.
      split; [right; assumption|assumption].
Qed.

Lemma bucket_add_has_old (head : jsstring) (rest : path)
  (buckets : list (jsstring * list path)) (key : jsstring) (tail : path) :
  bucket_has buckets key tail ->
  bucket_has (bucket_add head rest buckets) key tail.
Proof.
  induction buckets as [|[k ts] buckets IH]; intros (tails & Hin & Ht);
    [destruct Hin|].
  cbn [bucket_add]. destruct Hin as [[= -> ->]|Hin].
  - destruct (str_eqb key head).
    + exists (tails ++ [rest]). split; [left; reflexivity|].
      apply in_or_app. left. assumption.
    + exists tails. split; [left; reflexivity|assumption].
  - assert (Hold : bucket_has buckets key tail) by (exists tails; split; assumption).
    destruct (str_eqb k head).
    + exists tails. split; [right; assumption|assumption].
    + destruct (IH Hold) as (tails' & Hin' & Ht'). exists tails'.
      split; [right; assumption|assumption].
Qed.

Lemma bucket_add_keys (head : jsstring) (rest : path)
  (buckets : list (jsstring * list path)) :
  map fst (bucket_add head rest buckets)
  = if existsb (str_eqb head) (map fst buckets) then map fst buckets
    else map fst buckets ++ [head].
Proof.
  induction buckets as [|[k ts] buckets IH]; cbn [bucket_add map fst existsb app];
    [reflexivity|].
  destruct (str_eqb_spec k head) as [->|Hne].
  - rewrite str_eqb_refl. reflexivity.
  - cbn [map fst]. rewrite IH.
    destruct (str_eqb_spec head k) as [->|_]; [congruence|]. cbn [orb].
    destruct (existsb _ _); reflexivity.
Qed.

Lemma bucket_add_NoDup (head : jsstring) (rest : path)
  (buckets : list (jsstring * list path)) :
  NoDup (map fst buckets) -> NoDup (map fst (bucket_add head rest buckets)).
Proof.
  intros Hnd. rewrite bucket_add_keys.
  destruct (existsb (str_eqb head) (map fst buckets)) eqn:Hex; [assumption|].
  apply NoDup_app; [assumption|repeat constructor; intros []|].
  intros k Hk [Heq|[]]. subst k.
  assert (Htrue : existsb (str_eqb head) (map fst buckets) = true).
  { apply existsb_exists. exists head. split; [assumption|apply str_eqb_refl]. }
  congruence.
Qed.

Lemma make_buckets_spec (paths : list path) :
  NoDup (map fst (make_buckets paths))
  /\ forall head rest, In (head :: rest) paths ->
                       bucket_has (make_buckets paths) head rest.
Proof.
  unfold make_buckets.
  assert (Hgen : forall todo buckets,
             NoDup (map fst buckets) ->
             let final :=
               fold_left
                 (fun buckets p =>
                    match p with
                    | [] => buckets
                    | head :: rest => bucket_add head rest buckets
                    end) todo buckets in
             NoDup (map fst final)
             /\ (forall key tail, bucket_has buckets key tail ->
                                  bucket_has final key tail)
             /\ forall head rest, In (head :: rest) todo ->
                                  bucket_has final head rest).
  { induction todo as [|p todo IH]; intros buckets Hnd; cbv zeta.
    - split; [assumption|]. split; [auto|]. intros head rest [].
    - cbn [fold_left]. destruct p as [|head rest].
      + destruct (IH buckets Hnd) as (Hn & Hold & Hnew).
        split; [assumption|]. split; [assumption|].
        intros h r [Heq|Hin]; [discriminate|]. apply Hnew. assumption.
      + destruct (IH (bucket_add head rest buckets) (bucket_add_NoDup _ _ _ Hnd))
          as (Hn & Hold & Hnew).
        split; [assumption|]. split.
        * intros key tail Hb. apply Hold, bucket_add_has_old. assumption.
        * intros h r [[= <- <-]|Hin]; [|apply Hnew; assumption].
          apply Hold, bucket_add_has_new. }
  destruct (Hgen paths [] (NoDup_nil _)) as (Hn & _ & Hnew).
  split; assumption.
Qed.

Lemma lookup_projected (record : list (jsstring * json))
  (buckets : list (jsstring * list path)) (key : jsstring) (tails : list path)
  (v x : json) :
  NoDup (map fst buckets) -> In (key, tails) buckets -> key <> proto_key ->
  lookup key record = Some v -> projectValue v tails = Some x ->
  lookup key (flat_map (project_member record projectValue) buckets) = Some x.
Proof.
  intros Hnd Hin Hkey Hl Hx. apply str_eqb_neq in Hkey.
  induction buckets as [|[k ts] buckets IH]; [destruct Hin|].
  cbn [flat_map]. cbn [map fst] in Hnd. inversion Hnd as [|? ? Hfresh Hnd']; subst.
  destruct Hin as [[= -> ->]|Hin].
  - unfold project_member at 1. cbn [fst snd]. rewrite Hl, Hx, Hkey.
    cbn [app lookup]. rewrite str_eqb_refl. reflexivity.
  - assert (Hne : str_eqb k key = false).
    { apply str_eqb_neq. intros ->. apply Hfresh.
      apply in_map_iff. exists (key, tails). split; [reflexivity|assumption]. }
    unfold project_member at 1. cbn [fst snd].
    destruct (lookup k record) as [v'|]; [|apply IH; assumption].
    destruct (projectValue v' ts) as [y|]; [|apply IH; assumption].
    destruct (str_eqb k proto_key); [apply IH; assumption|].
    cbn [app lookup]. rewrite Hne. apply IH; assumption.
Qed.

(** A requested path that exists in the value exists in its
    projection, unless it goes through [__proto__]. *)
Lemma projectValue_complete (v : json) :
  forall paths f,
    In f paths -> ~ In proto_key f -> pathExists v f = true ->
    exists x, projectValue v paths = Some x /\ pathExists x f = true.
Proof.
  induction v as [| b | n | s | entries IH | record IH] using json_ind;
    intros paths f Hf Hproto He;
    (destruct (existsb is_nil paths) eqn:Hnil;
     [eexists; split; [apply projectValue_whole; assumption|assumption]|]);
    (destruct f as [|head rest];
     [assert (Ht : existsb is_nil paths = true)
        by (apply existsb_exists; exists []; split; [assumption|reflexivity]);
      congruence|]);
    try discriminate He.
  - rewrite projectValue_array, Hnil. eexists. split; [reflexivity|].
    cbn [pathExists] in *. apply existsb_exists in He.
    destruct He as (e & Hin & He).
    rewrite Forall_forall in IH.
    destruct (IH e Hin paths (head :: rest) Hf Hproto He) as (x & Hx & Hex).
    apply existsb_exists. exists x. split; [|assumption].
    apply in_flat_map. exists e. split; [assumption|].
    rewrite Hx. left. reflexivity.
  - assert (Hhead : head <> proto_key)
      by (intros ->; apply Hproto; left; reflexivity).
    assert (Hrest : ~ In proto_key rest)
      by (intros Hin; apply Hproto; right; assumption).
    rewrite pathExists_object in He.
    destruct (make_buckets_spec paths) as [Hnd Hhas].
    destruct (Hhas head rest Hf) as (tails & Hb & Ht).
    rewrite projectValue_object, Hnil. cbv zeta.
    destruct (lookup head record) as [v|] eqn:Hl.
    + destruct (lookup_In _ _ _ Hl) as (k & Hin).
      rewrite Forall_forall in IH.
      destruct (IH (k, v) Hin tails rest Ht Hrest He) as (x & Hx & Hex).
      pose proof (lookup_projected record _ head tails v x Hnd Hb Hhead Hl Hx)
        as Hout.
      destruct (flat_map _ _) as [|m output] eqn:Hflat; [discriminate Hout|].
      cbn [is_nil andb]. eexists. split; [reflexivity|].
      rewrite pathExists_object, Hout. assumption.
    + unfold inherited_path in He.
      apply str_eqb_neq in Hhead. rewrite Hhead in He.
      apply andb_true_iff in He. destruct He as [Hmethod Hnil'].
      destruct rest; [|discriminate].
      assert (Hkept : existsb (keeps_method record) (make_buckets paths) = true).
      { apply existsb_exists. exists (head, tails). split; [assumption|].
        unfold keeps_method. cbn [fst snd]. rewrite Hl, Hmethod.
        apply existsb_exists. exists []. split; [assumption|reflexivity]. }
      rewrite Hkept, andb_false_r. eexists. split; [reflexivity|].
      rewrite pathExists_object.
      destruct (lookup head (flat_map _ _)); [apply pathExists_nil|].
      unfold inherited_path. rewrite Hhead, Hmethod. reflexivity.
Qed.

(** *** Messages and pages *)

Lemma projectMessage_item (message : json) (fields : list jsstring) :
  includes fields (lit "*") = false ->
  let item := fst (projectMessage message fields) in
  (item = JObj [] \/ extracted item message)
  /\ (forall q, In q (member_paths item) ->
                on_requested_path (map field_path fields) q)
  /\ (forall f, In f fields -> ~ In proto_key (field_path f) ->
                has_path message (field_path f) ->
                has_path item (field_path f)).
Proof.
  intros Hstar. unfold projectMessage. rewrite Hstar. cbv zeta. cbn [fst].
  destruct (projectValue message (map field_path fields)) as [x|] eqn:Hx.
  - destruct (projectValue_sound message _ x Hx) as [Hex Hpaths].
    assert (Hkeep : forall f, In f fields -> ~ In proto_key (field_path f) ->
                      has_path message (field_path f) ->
                      pathExists x (field_path f) = true).
    { intros f Hf Hproto He. apply pathExists_has_path in He.
      destruct (projectValue_complete message (map field_path fields)
                  (field_path f) (in_map field_path _ _ Hf) Hproto He)
        as (y & Hy & Hey).
      congruence. }
    destruct x;
      try (split; [right; assumption|split; [assumption|]];
           intros f Hf Hproto He; apply pathExists_has_path;
           apply Hkeep; assumption).
    split; [left; reflexivity|]. split; [intros q []|].
    intros f Hf Hproto He. specialize (Hkeep f Hf Hproto He).
    destruct (field_path f); [apply path_end|discriminate Hkeep].
  - split; [left; reflexivity|]. split; [intros q []|].
    intros f Hf Hproto He. apply pathExists_has_path in He.
    destruct (projectValue_complete message (map field_path fields)
                (field_path f) (in_map field_path _ _ Hf) Hproto He)
      as (y & Hy & _).
    congruence.
Qed.

Lemma projectMessage_missing (message : json) (fields : list jsstring) :
  includes fields (lit "*") = false ->
  snd (projectMessage message fields)
  = filter (fun field => negb (pathExists message (field_path field))) fields.
Proof. intros Hstar. unfold projectMessage. rewrite Hstar. reflexivity. Qed.

Lemma dedupe_In (values : list jsstring) :
  forall seen f, In f (dedupe seen values) <-> In f values /\ ~ In f seen.
Proof.
  induction values as [|v values IH]; intros seen f; cbn [dedupe].
  - split; [intros []|intros [[] _]].
  - destruct (existsb (str_eqb v) seen) eqn:Hseen.
    + rewrite IH. apply existsb_exists in Hseen.
      destruct Hseen as (s & Hs & Heq). apply str_eqb_eq in Heq. subst s.
      split.
      * intros [Hin Hn]. split; [right; assumption|assumption].
      * intros [[<-|Hin] Hn]; [contradiction|]. split; assumption.
    + assert (Hfresh : ~ In v seen).
      { intros Hin.
        assert (existsb (str_eqb v) seen = true)
          by (apply existsb_exists; exists v; split;
              [assumption|apply str_eqb_refl]).
        congruence. }
      cbn [In]. rewrite IH. cbn [In]. split.
      * intros [<-|[Hin Hn]]; [split; [left; reflexivity|assumption]|].
        split; [right; assumption|]. intros Hs. apply Hn. right. assumption.
      * intros [[<-|Hin] Hn]; [left; reflexivity|].
        destruct (str_eqb_spec v f) as [->|Hne]; [left; reflexivity|].
        right. split; [assumption|]. intros [Heq|Hs]; [congruence|contradiction].
Qed.

Lemma dedupe_NoDup (values : list jsstring) :
  forall seen, NoDup (dedupe seen values).
Proof.
  induction values as [|v values IH]; intros seen; cbn [dedupe];
    [apply NoDup_nil|].
  destruct (existsb (str_eqb v) seen); [apply IH|].
  apply NoDup_cons; [|apply IH].
  rewrite dedupe_In. intros [_ Hn]. apply Hn. left. reflexivity.
Qed.

Lemma collect_missing_In (requested : list jsstring) (page : list json)
  (f : jsstring) :
  includes requested (lit "*") = false ->
  In f (collect_missing
          (map snd (map (fun message => projectMessage message requested) page)))
  <-> In f requested
      /\ exists message, In message page /\ ~ has_path message (field_path f).
Proof.
  intros Hstar. unfold collect_missing. rewrite dedupe_In, map_map.
  split.
  - intros [Hin _]. apply in_concat in Hin. destruct Hin as (l & Hl & Hin).
    apply in_map_iff in Hl. destruct Hl as (message & <- & Hm).
    rewrite projectMessage_missing in Hin by assumption.
    apply filter_In in Hin. destruct Hin as [Hreq Hneg].
    split; [assumption|]. exists message. split; [assumption|].
    apply negb_true_iff in Hneg. intros Hpath.
    apply pathExists_has_path in Hpath. congruence.
  - intros (Hreq & message & Hm & Hneg). split; [|intros []].
    apply in_concat. exists (snd (projectMessage message requested)).
    split; [apply in_map_iff; exists message; split; [reflexivity|assumption]|].
    rewrite projectMessage_missing by assumption.
    apply filter_In. split; [assumption|]. apply negb_true_iff.
    destruct (pathExists message (field_path f)) eqn:He; [|reflexivity].
    destruct Hneg. apply pathExists_has_path. assumption.
Qed.

Lemma build_page_projection (sid : jsstring) (cursor : option jsstring)
  (pageSize offset maxOutputTokens : Z) (fields : list jsstring)
  (messages : list json) :
  let p := build_page sid cursor pageSize offset maxOutputTokens fields messages in
  pj_requested_fields (pl_projection p) = fields
  /\ pj_missing_fields (pl_projection p)
     = collect_missing
         (map snd (map (fun message => projectMessage message fields)
                       (raw_page messages pageSize offset)))
  /\ exists k,
       pl_items p
       = map (fun message => fst (projectMessage message fields))
             (firstn k (raw_page messages pageSize offset)).
Proof.
  cbv zeta.
  assert (Hproj : pl_projection
                    (build_page sid cursor pageSize offset maxOutputTokens fields
                       messages)
                  = pl_projection
                      (initial_payload sid cursor pageSize offset maxOutputTokens
                         fields messages)).
  { unfold build_page. cbv zeta.
    set (p0 := initial_payload _ _ _ _ _ _ _).
    destruct (safety_loop_spec maxOutputTokens offset (List.length (pl_items p0)) p0
                (Nat.le_refl _)) as (k & _ & -> & _).
    destruct (dropped_fields offset k p0) as (_ & Hp & _).
    unfold give_up_page. destruct (over_budget _ _); cbn [pl_projection];
      exact Hp. }
  rewrite Hproj.
  destruct (build_page_keeps_flags sid cursor pageSize offset maxOutputTokens fields
              messages) as (_ & _ & k & Hitems).
  rewrite Hitems. clear Hitems Hproj.
  destruct (fill_budget maxOutputTokens []
              (projected_page messages pageSize offset fields))
    as [kept truncated] eqn:Hfill.
  destruct (initial_payload_filled sid cursor pageSize offset maxOutputTokens fields
              messages kept truncated Hfill) as (-> & _).
  destruct (fill_budget_spec _ _ _ _ _ Hfill) as (taken & rest & Hpage & -> & _).
  cbn [app].
  split; [|split].
  - unfold initial_payload. cbv zeta. destruct (fill_budget _ _ _). reflexivity.
  - unfold initial_payload. cbv zeta. destruct (fill_budget _ _ _). reflexivity.
  - exists (Nat.min k (List.length taken)).
    rewrite <- firstn_map.
    unfold projected_page in Hpage. rewrite map_map in Hpage. rewrite Hpage.
    rewrite <- (firstn_firstn (taken ++ rest)).
    rewrite (firstn_app (List.length taken)), firstn_all, Nat.sub_diag.
    cbn [firstn]. rewrite app_nil_r. reflexivity.
Qed.




Example projection_of_a_message :
  fst (projectMessage (assistant_message "m1" msg_1 "one")
         [lit "info.id"; lit "parts.text"; lit "nope"])
  = JObj [(lit "info", JObj [(lit "id", JStr (lit "m1"))]);
          (lit "parts", JArr [JObj [(lit "text", JStr (lit "one"))]])].
Proof. vm_compute. reflexivity. Qed.

(** A field that names a member every object inherits is found in every
    object: it is not reported missing, and the item keeps the object
    it was found in, without members. *)
Example projection_of_an_inherited_member :
  projectMessage (assistant_message "m1" msg_1 "one")
    [lit "info.constructor"; lit "info.__proto__"; lit "info.nope"]
  = (JObj [(lit "info", JObj [])], [lit "info.nope"]).
Proof. vm_compute. reflexivity. Qed.

(* ================================================================== *)
(** * Malformed tokens *)
(* ================================================================== *)

(** The handle decoder takes the three members as they are, with their
    types, or fails. *)
Lemma decodeAsyncRequestId_strict (token : jsstring) (p : AsyncRequestPayload) :
  decodeAsyncRequestId token = Ok p ->
  exists parsed,
    JSON_parse (utf8_decode (base64url_decode token)) = Some parsed
    /\ prop (Some parsed) (lit "session_id") = Some (JStr (session_id p))
    /\ prop (Some parsed) (lit "message_id") = Some (JStr (message_id p))
    /\ prop (Some parsed) (lit "submitted_at_ms") = Some (JNum (submitted_at_ms p)).
Proof.
  unfold decodeAsyncRequestId.
  destruct (JSON_parse _) as [parsed|]; [|discriminate].
  intros H. exists parsed. split; [reflexivity|].
  destruct parsed; try discriminate H;
    destruct (prop _ (lit "session_id")) as [[| | |sid| |]|]; try discriminate H;
    destruct (prop _ (lit "message_id")) as [[| | |mid| |]|]; try discriminate H;
    destruct (prop _ (lit "submitted_at_ms")) as [[| |at_ms| | |]|]; try discriminate H;
    injection H as <-; repeat split; reflexivity.
Qed.

Lemma decodeAsyncRequestId_error (token msg : jsstring) :
  decodeAsyncRequestId token = Throw msg -> msg = invalid_async_request_id.
Proof.
  unfold decodeAsyncRequestId.
  destruct (JSON_parse _) as [parsed|]; [|congruence].
  destruct parsed; try congruence;
    destruct (prop _ (lit "session_id")) as [[| | |sid| |]|]; try congruence;
    destruct (prop _ (lit "message_id")) as [[| | |mid| |]|]; try congruence;
    destruct (prop _ (lit "submitted_at_ms")) as [[| |at_ms| | |]|]; congruence.
Qed.

(** A handle that does not decode fails the call at once: no request,
    no clock reading, no sleep. *)
Lemma malformed_handle_fails_fast (env : Env) (token : jsstring)
  (timeout_seconds poll_interval_ms poll_limit : option number) (w : World)
  (msg : jsstring) :
  decodeAsyncRequestId token = Throw msg ->
  opencode_wait_for_reply env token timeout_seconds poll_interval_ms poll_limit w
  = (Throw invalid_async_request_id, w).
Proof.
  intros H. unfold opencode_wait_for_reply.
  rewrite (decodeAsyncRequestId_error token msg H) in H. rewrite H. reflexivity.
Qed.

Example handle_without_timestamp :
  decodeAsyncRequestId (lit "eyJzZXNzaW9uX2lkIjoicyIsIm1lc3NhZ2VfaWQiOiJtIn0")
  = Throw invalid_async_request_id.
Proof. vm_compute. reflexivity. Qed.

(** A cursor without an [offset] is refused. *)
Example cursor_without_offset : decodeCursor (Some (lit "e30")) = Throw invalid_cursor.
Proof. vm_compute. reflexivity. Qed.

(** C8 (a cursor with a wrongly typed offset).  The cursor that encodes
    the object whose [offset] is [null] decodes to offset 0, and the one
    whose [offset] is the string ["5"] decodes to offset 5;
    [opencode_get_messages] serves the first page for the former where
    an invalid cursor is to be reported. *)
Theorem decodeCursor_null_offset :
  JSON_parse (utf8_decode (base64url_decode null_offset_cursor))
  = Some (JObj [(lit "offset", JNull)])
  /\ decodeCursor (Some null_offset_cursor) = Ok {| offset := 0 |}
  /\ JSON_parse (utf8_decode (base64url_decode string_offset_cursor))
     = Some (JObj [(lit "offset", JStr (lit "5"))])
  /\ decodeCursor (Some string_offset_cursor) = Ok {| offset := 5 |}
  /\ option_map
       (fun p => (pg_offset (pl_page p), pl_items p))
       (page_of (opencode_get_messages (history_env five_messages) ses_1
                   (Some (Int 2)) (Some null_offset_cursor) None all_fields
                   start_world))
     = Some (0, firstn 2 five_messages).
Proof. vm_compute. repeat split; reflexivity. Qed.

(* ================================================================== *)
(** * More about the tokens *)
(* ================================================================== *)

Lemma b64url_char_safe (i : Z) : 0 <= i < 64 -> url_safe (b64url_char i).
Proof.
  intros Hi. unfold url_safe, b64url_char.
  destruct (Z.ltb_spec i 26); [lia|].
  destruct (Z.ltb_spec i 52); [lia|].
  destruct (Z.ltb_spec i 62); [lia|].
  destruct (Z.eqb_spec i 62); lia.
Qed.

Lemma base64url_encode_safe (bs : list Z) :
  wf_bytes bs -> Forall url_safe (base64url_encode bs).
Proof.
  intros Hbs. unfold base64url_encode. apply Forall_map.
  eapply Forall_impl; [|apply sextets_of_bytes_range; exact Hbs].
  intros v Hv. apply b64url_char_safe. exact Hv.
Qed.

Lemma handle_members_flat (p : AsyncRequestPayload) :
  valid_handle p ->
  Forall flat_member
    [(lit "session_id", JStr (session_id p));
     (lit "message_id", JStr (message_id p));
     (lit "submitted_at_ms", JNum (submitted_at_ms p))].
Proof.
  intros (Hs & _ & Hm & _ & t & Ht & Hpos). rewrite Ht.
  repeat (apply Forall_cons; [split; [apply lit_wf|]|]);
    cbn [snd]; try apply Forall_nil; constructor; assumption.
Qed.

Lemma cursor_members_flat (n : Z) :
  0 <= n -> Forall flat_member [(lit "offset", JNum (Int n))].
Proof.
  intros Hn. apply Forall_cons; [|apply Forall_nil].
  split; [apply lit_wf|apply simple_int; assumption].
Qed.

(** X1.  The handle of a valid payload and the cursor of a non-negative
    offset are written in the URL-safe base64 alphabet alone: letters,
    digits, ['-'] and ['_'], without padding. *)
Theorem tokens_are_url_safe (p : AsyncRequestPayload) (n : Z) :
  valid_handle p -> 0 <= n ->
  Forall url_safe (encodeAsyncRequestId p)
  /\ Forall url_safe (encodeCursor {| offset := n |}).
Proof.
  intros Hp Hn. split.
  - unfold encodeAsyncRequestId.
    apply base64url_encode_safe, utf8_encode_bytes, stringify_flat_wf,
      handle_members_flat, Hp.
  - unfold encodeCursor. cbn [offset].
    apply base64url_encode_safe, utf8_encode_bytes, stringify_flat_wf,
      cursor_members_flat, Hn.
Qed.

Lemma sample_handle_valid : valid_handle sample_handle.
Proof.
  unfold valid_handle, sample_handle. cbn [session_id message_id submitted_at_ms].
  split; [apply lit_wf|]. split; [discriminate|].
  split; [apply lit_wf|]. split; [discriminate|].
  exists 1000. split; [reflexivity|lia].
Defined.

Lemma tokens_are_url_safe_witness :
  (valid_handle sample_handle /\ 0 <= 7)
  /\ Forall url_safe (encodeAsyncRequestId sample_handle)
  /\ Forall url_safe (encodeCursor {| offset := 7 |}).
Proof.
  assert (Hn : 0 <= 7) by lia.
  split; [split; [exact sample_handle_valid|exact Hn]|].
  exact (tokens_are_url_safe sample_handle 7 sample_handle_valid Hn).
Defined.

(** X2.  Two valid payloads with the same handle are the same payload,
    and two non-negative offsets with the same cursor are the same
    offset: a token names one request, or one position. *)
Theorem tokens_are_injective (p q : AsyncRequestPayload) (m n : Z) :
  valid_handle p -> valid_handle q -> 0 <= m -> 0 <= n ->
  (encodeAsyncRequestId p = encodeAsyncRequestId q -> p = q)
  /\ (encodeCursor {| offset := m |} = encodeCursor {| offset := n |} -> m = n).
Proof.
  intros (Hps & _ & Hpm & _ & Hpt) (Hqs & _ & Hqm & _ & Hqt) Hm Hn. split.
  - intros Heq.
    pose proof (decodeAsyncRequestId_encodeAsyncRequestId p Hps Hpm Hpt) as Hp.
    pose proof (decodeAsyncRequestId_encodeAsyncRequestId q Hqs Hqm Hqt) as Hq.
    rewrite Heq in Hp. congruence.
  - intros Heq.
    pose proof (decodeCursor_encodeCursor m Hm) as H1.
    pose proof (decodeCursor_encodeCursor n Hn) as H2.
    rewrite Heq in H1. congruence.
Qed.

Lemma tokens_are_injective_witness :
  (valid_handle sample_handle /\ valid_handle sample_handle /\ 0 <= 3 /\ 0 <= 3)
  /\ (encodeAsyncRequestId sample_handle = encodeAsyncRequestId sample_handle ->
      sample_handle = sample_handle)
  /\ (encodeCursor {| offset := 3 |} = encodeCursor {| offset := 3 |} -> 3 = 3).
Proof.
  assert (Hn : 0 <= 3) by lia.
  split; [exact (conj sample_handle_valid (conj sample_handle_valid (conj Hn Hn)))|].
  exact (tokens_are_injective sample_handle sample_handle 3 3
           sample_handle_valid sample_handle_valid Hn Hn).
Defined.

(** X3.  A handle that decodes is the encoding of a JSON value with a
    string [session_id], a string [message_id] and a number
    [submitted_at_ms], and the payload holds these three members as
    they are: the decoder takes no member from anywhere else. *)
Theorem handle_decoder_takes_members (token : jsstring) (p : AsyncRequestPayload) :
  decodeAsyncRequestId token = Ok p ->
  exists parsed,
    JSON_parse (utf8_decode (base64url_decode token)) = Some parsed
    /\ parsed <> JNull
    /\ prop (Some parsed) (lit "session_id") = Some (JStr (session_id p))
    /\ prop (Some parsed) (lit "message_id") = Some (JStr (message_id p))
    /\ prop (Some parsed) (lit "submitted_at_ms") = Some (JNum (submitted_at_ms p)).
Proof.
  unfold decodeAsyncRequestId.
  destruct (JSON_parse _) as [parsed|]; [|discriminate].
  intros H. exists parsed. split; [reflexivity|].
  destruct parsed; try discriminate H;
    (split; [discriminate|]);
    destruct (prop _ (lit "session_id")) as [[| | |sid| |]|]; try discriminate H;
    destruct (prop _ (lit "message_id")) as [[| | |mid| |]|]; try discriminate H;
    destruct (prop _ (lit "submitted_at_ms")) as [[| |at_ms| | |]|];
    try discriminate H;
    injection H as <-; repeat split; reflexivity.
Qed.

Lemma handle_decoder_takes_members_witness :
  decodeAsyncRequestId sample_token = Ok sample_handle
  /\ exists parsed,
       JSON_parse (utf8_decode (base64url_decode sample_token)) = Some parsed
       /\ parsed <> JNull
       /\ prop (Some parsed) (lit "session_id") = Some (JStr (session_id sample_handle))
       /\ prop (Some parsed) (lit "message_id") = Some (JStr (message_id sample_handle))
       /\ prop (Some parsed) (lit "submitted_at_ms")
          = Some (JNum (submitted_at_ms sample_handle)).
Proof.
  assert (H : decodeAsyncRequestId sample_token = Ok sample_handle)
    by (vm_compute; reflexivity).
  split; [exact H|].
  exact (handle_decoder_takes_members sample_token sample_handle H).
Defined.

(** X4.  A handle that does not decode ends [opencode_wait_for_reply]
    with the one invalid-handle message, whatever went wrong, and the
    world is as it was: no request, no reading of the clock, no sleep. *)
Theorem malformed_handle_rejected (env : Env) (token : jsstring)
  (timeout_seconds poll_interval_ms poll_limit : option number) (w : World)
  (msg : jsstring) :
  decodeAsyncRequestId token = Throw msg ->
  msg = invalid_async_request_id
  /\ opencode_wait_for_reply env token timeout_seconds poll_interval_ms poll_limit w
     = (Throw invalid_async_request_id, w)
  /\ run_tool Some
       (opencode_wait_for_reply env token timeout_seconds poll_interval_ms poll_limit)
       w
     = (Some (ToolError invalid_async_request_id), w).
Proof.
  intros H. pose proof (decodeAsyncRequestId_error token msg H) as ->.
  split; [reflexivity|].
  assert (Hrun : opencode_wait_for_reply env token timeout_seconds poll_interval_ms
                   poll_limit w = (Throw invalid_async_request_id, w))
    by (unfold opencode_wait_for_reply; rewrite H; reflexivity).
  split; [exact Hrun|]. unfold run_tool. rewrite Hrun. reflexivity.
Qed.

Lemma malformed_handle_rejected_witness :
  decodeAsyncRequestId (lit "not a handle") = Throw invalid_async_request_id
  /\ invalid_async_request_id = invalid_async_request_id
  /\ opencode_wait_for_reply idle_env (lit "not a handle") None None None start_world
     = (Throw invalid_async_request_id, start_world)
  /\ run_tool Some
       (opencode_wait_for_reply idle_env (lit "not a handle") None None None)
       start_world
     = (Some (ToolError invalid_async_request_id), start_world).
Proof.
  assert (H : decodeAsyncRequestId (lit "not a handle")
              = Throw invalid_async_request_id) by (vm_compute; reflexivity).
  split; [exact H|].
  exact (malformed_handle_rejected idle_env (lit "not a handle") None None None
           start_world invalid_async_request_id H).
Defined.

(* ================================================================== *)
(** * More about opencode_get_messages *)
(* ================================================================== *)

Lemma output_budget_range (budget : option number) :
  1 <= output_budget budget <= 20000.
Proof. unfold output_budget, MAX_OUTPUT_TOKENS. lia. Qed.

Lemma raw_page_length (messages : list json) (pageSize offset : Z) :
  0 <= pageSize ->
  array_length (raw_page messages pageSize offset) <= pageSize.
Proof.
  intros Hp. unfold raw_page, slice, array_length.
  rewrite length_firstn. lia.
Qed.

(** The page is the assembled payload after some rounds of the envelope
    loop, or the page without items that carries the notice. *)
Lemma build_page_cases (sid : jsstring) (cursor : option jsstring)
  (pageSize offset maxOutputTokens : Z) (fields : list jsstring)
  (messages : list json) :
  let p0 := initial_payload sid cursor pageSize offset maxOutputTokens fields messages in
  let p := build_page sid cursor pageSize offset maxOutputTokens fields messages in
  exists k,
    (p = dropped offset k p0 /\ over_budget maxOutputTokens p = false)
    \/ (over_budget maxOutputTokens (dropped offset k p0) = true
        /\ p = give_up_page maxOutputTokens offset (dropped offset k p0)
        /\ pl_items p = []
        /\ pl_notice p = Some budget_notice
        /\ pg_has_more (pl_page p) = true).
Proof.
  cbv zeta. unfold build_page. cbv zeta.
  set (p0 := initial_payload _ _ _ _ _ _ _).
  destruct (safety_loop_spec maxOutputTokens offset (List.length (pl_items p0)) p0
              (Nat.le_refl _)) as (k & _ & -> & _).
  exists k. unfold give_up_page.
  destruct (over_budget maxOutputTokens (dropped offset k p0)) eqn:Hover.
  - right. cbn. repeat split; reflexivity.
  - left. split; [reflexivity|exact Hover].
Qed.

Lemma build_page_fields (sid : jsstring) (cursor : option jsstring)
  (pageSize offset maxOutputTokens : Z) (fields : list jsstring)
  (messages : list json) :
  let p := build_page sid cursor pageSize offset maxOutputTokens fields messages in
  pl_session_id p = sid
  /\ pg_limit (pl_page p) = pageSize
  /\ pg_cursor (pl_page p) = cursor
  /\ pg_offset (pl_page p) = offset
  /\ bg_max_output_tokens (pl_budget p) = maxOutputTokens.
Proof.
  cbv zeta.
  destruct (build_page_cases sid cursor pageSize offset maxOutputTokens fields
              messages) as (k & [[Hp _]|(_ & Hp & _)]);
    rewrite Hp; clear Hp;
    set (p0 := initial_payload _ _ _ _ _ _ _);
    destruct (dropped_fields offset k p0) as (H1 & _ & _ & H4 & H5 & H6 & H7);
    assert (Hinit : pl_session_id p0 = sid /\ pg_limit (pl_page p0) = pageSize
                    /\ pg_cursor (pl_page p0) = cursor
                    /\ pg_offset (pl_page p0) = offset
                    /\ bg_max_output_tokens (pl_budget p0) = maxOutputTokens)
      by (subst p0; unfold initial_payload; cbv zeta;
          destruct (fill_budget _ _ _); repeat split; reflexivity);
    destruct Hinit as (I1 & I4 & I5 & I6 & I7).
  - rewrite H1, H4, H5, H6, H7. repeat split; assumption.
  - unfold give_up_page. destruct (over_budget _ _); cbn;
      rewrite ?H1, ?H4, ?H5, ?H6, ?H7; repeat split; assumption.
Qed.

(** X5.  Whatever the arguments, a page reports a limit between 1 and
    200 and a budget between 1 and 20000, echoes the session, the
    cursor and its offset, holds at most [limit] items, counts them in
    [returned], and has a [next_cursor] exactly when [has_more] is
    true; that cursor decodes to the offset of the page plus the number
    of items returned. *)
Theorem page_is_well_formed (env : Env) (sid : jsstring)
  (limit : option number) (cursor : option jsstring) (budget : option number)
  (fields : jsvalue) (w w' : World) (p : PagePayload) :
  opencode_get_messages env sid limit cursor budget fields w
  = (Ok (MessagePage p), w') ->
  1 <= pg_limit (pl_page p) <= 200
  /\ 1 <= bg_max_output_tokens (pl_budget p) <= 20000
  /\ pl_session_id p = sid
  /\ pg_cursor (pl_page p) = cursor
  /\ decodeCursor cursor = Ok {| offset := pg_offset (pl_page p) |}
  /\ 0 <= pg_returned (pl_page p) <= pg_limit (pl_page p)
  /\ pg_returned (pl_page p) = array_length (pl_items p)
  /\ (if pg_has_more (pl_page p) then
        exists next,
          pg_next_cursor (pl_page p) = Some next
          /\ decodeCursor (Some next)
             = Ok {| offset := pg_offset (pl_page p) + pg_returned (pl_page p) |}
      else pg_next_cursor (pl_page p) = None).
Proof.
  intros Hcall.
  destruct (get_messages_page env sid limit cursor budget fields w w' p Hcall)
    as (c & messages & Hc & Hoff & _ & ->).
  destruct (build_page_fields sid cursor (page_size limit) (offset c)
              (output_budget budget) (parseRequestedFields fields) messages)
    as (Hsid & Hlimit & Hcursor & Hoffset & Hbudget).
  destruct (build_page_consistent sid cursor (page_size limit) (offset c)
              (output_budget budget) (parseRequestedFields fields) messages)
    as (Hret & Hnext).
  destruct (build_page_projection sid cursor (page_size limit) (offset c)
              (output_budget budget) (parseRequestedFields fields) messages)
    as (_ & _ & k & Hitems).
  set (p := build_page _ _ _ _ _ _ _) in *.
  pose proof (page_size_range limit) as Hps.
  pose proof (output_budget_range budget) as Hob.
  rewrite Hlimit, Hbudget, Hoffset, Hret.
  split; [exact Hps|]. split; [exact Hob|]. split; [exact Hsid|].
  split; [exact Hcursor|].
  split; [rewrite Hc; destruct c; reflexivity|].
  split.
  { rewrite Hitems. unfold array_length. rewrite length_map, length_firstn.
    pose proof (raw_page_length messages (page_size limit) (offset c)
                  ltac:(lia)) as Hraw.
    unfold array_length in Hraw. lia. }
  split; [reflexivity|].
  rewrite Hnext. destruct (pg_has_more (pl_page p)); [|reflexivity].
  eexists. split; [reflexivity|].
  apply decodeCursor_encodeCursor. unfold array_length. lia.
Qed.

Lemma page_is_well_formed_witness :
  exists p w',
    opencode_get_messages (history_env five_messages) ses_1 (Some (Int 2)) None
      None all_fields start_world
    = (Ok (MessagePage p), w')
    /\ 1 <= pg_limit (pl_page p) <= 200
    /\ 1 <= bg_max_output_tokens (pl_budget p) <= 20000
    /\ pl_session_id p = ses_1
    /\ pg_cursor (pl_page p) = None
    /\ decodeCursor None = Ok {| offset := pg_offset (pl_page p) |}
    /\ 0 <= pg_returned (pl_page p) <= pg_limit (pl_page p)
    /\ pg_returned (pl_page p) = array_length (pl_items p)
    /\ (if pg_has_more (pl_page p) then
          exists next,
            pg_next_cursor (pl_page p) = Some next
            /\ decodeCursor (Some next)
               = Ok {| offset := pg_offset (pl_page p) + pg_returned (pl_page p) |}
        else pg_next_cursor (pl_page p) = None).
Proof.
  assert (Hcall : exists p w',
             opencode_get_messages (history_env five_messages) ses_1 (Some (Int 2))
               None None all_fields start_world
             = (Ok (MessagePage p), w'))
    by (vm_compute; do 2 eexists; reflexivity).
  destruct Hcall as (p & w' & Hcall).
  exists p, w'. split; [exact Hcall|].
  exact (page_is_well_formed _ _ _ _ _ _ _ _ _ Hcall).
Defined.

(** X6.  A page never exceeds the token budget with items in it: the
    envelope of a returned page is estimated within the budget, or the
    page has no items, says that more is to come and carries the notice
    to reduce fields or raise the budget. *)
Theorem page_fits_budget (env : Env) (sid : jsstring)
  (limit : option number) (cursor : option jsstring) (budget : option number)
  (fields : jsvalue) (w w' : World) (p : PagePayload) :
  opencode_get_messages env sid limit cursor budget fields w
  = (Ok (MessagePage p), w') ->
  estimateTokensFromObject (payload_json p) <= bg_max_output_tokens (pl_budget p)
  \/ (pl_items p = []
      /\ pg_has_more (pl_page p) = true
      /\ pl_notice p = Some budget_notice).
Proof.
  intros Hcall.
  destruct (get_messages_page env sid limit cursor budget fields w w' p Hcall)
    as (c & messages & _ & _ & _ & ->).
  destruct (build_page_fields sid cursor (page_size limit) (offset c)
              (output_budget budget) (parseRequestedFields fields) messages)
    as (_ & _ & _ & _ & Hbudget).
  destruct (build_page_cases sid cursor (page_size limit) (offset c)
              (output_budget budget) (parseRequestedFields fields) messages)
    as (k & [[_ Hfits]|(_ & _ & Hitems & Hnotice & Hmore)]).
  - left. rewrite Hbudget. unfold over_budget in Hfits.
    apply Z.ltb_ge in Hfits. exact Hfits.
  - right. repeat split; assumption.
Qed.

Lemma page_fits_budget_witness :
  exists p w',
    opencode_get_messages (history_env five_messages) ses_1 (Some (Int 5)) None
      (Some (Int 100)) all_fields start_world
    = (Ok (MessagePage p), w')
    /\ List.length (pl_items p) = 1%nat
    /\ (estimateTokensFromObject (payload_json p)
        <= bg_max_output_tokens (pl_budget p)
        \/ (pl_items p = []
            /\ pg_has_more (pl_page p) = true
            /\ pl_notice p = Some budget_notice)).
Proof.
  assert (Hcall : exists p w',
             opencode_get_messages (history_env five_messages) ses_1 (Some (Int 5))
               None (Some (Int 100)) all_fields start_world
             = (Ok (MessagePage p), w')
             /\ List.length (pl_items p) = 1%nat)
    by (vm_compute; do 2 eexists; split; reflexivity).
  destruct Hcall as (p & w' & Hcall & Hlen).
  exists p, w'. split; [exact Hcall|]. split; [exact Hlen|].
  exact (page_fits_budget _ _ _ _ _ _ _ _ _ Hcall).
Defined.

Lemma decodeCursor_error (cursor : option jsstring) (msg : jsstring) :
  decodeCursor cursor = Throw msg -> msg = invalid_cursor.
Proof.
  unfold decodeCursor. destruct cursor as [[|c s]|]; try discriminate.
  destruct (JSON_parse _) as [parsed|]; [|congruence].
  destruct parsed as [|b|x|t|elements|members]; try congruence;
    destruct (Number _) as [[z|m k]|]; try congruence;
    destruct (z <? 0); congruence.
Qed.

(** X7.  A cursor that does not decode ends [opencode_get_messages] with
    the invalid-cursor message and nothing is requested.  Otherwise the
    call issues one request and no more, for the messages up to the end
    of the page and one beyond; when that request is answered with a
    status that is not 2xx, the call ends with the message that names
    the status. *)
Theorem get_messages_requests (env : Env) (sid : jsstring)
  (limit : option number) (cursor : option jsstring) (budget : option number)
  (fields : jsvalue) (w : World) :
  let call := opencode_get_messages env sid limit cursor budget fields w in
  match decodeCursor cursor with
  | Throw _ => call = (Throw invalid_cursor, w)
  | Ok c =>
      let request := ListMessages sid (offset c + page_size limit + 1) in
      snd call = after_fetch env request w
      /\ trace (snd call) = trace w ++ [request]
      /\ forall status body text,
           answer env request w = Reply false status body text ->
           fst call
           = Throw (lit "Failed to get messages: " ++ number_to_string (Int status))
  end.
Proof.
  cbv zeta. rewrite get_messages_run.
  destruct (decodeCursor cursor) as [c|msg] eqn:Hc.
  - cbv zeta.
    destruct (messages_of _) as [messages|msg] eqn:Hm; cbn [fst snd];
      (split; [reflexivity|]); (split; [reflexivity|]);
      intros status body text Hanswer; rewrite Hanswer in Hm; cbn [messages_of] in Hm;
      congruence.
  - rewrite (decodeCursor_error cursor msg Hc). reflexivity.
Qed.

(* ================================================================== *)
(** * Reading a session to its end under a budget *)
(* ================================================================== *)

Lemma firstn_length_firstn {A} (n : nat) (l : list A) :
  firstn (List.length (firstn n l)) l = firstn n l.
Proof.
  rewrite length_firstn.
  rewrite <- (firstn_all l) at 3. rewrite firstn_firstn. reflexivity.
Qed.

(** A page that says that nothing more is to come is the payload as
    first assembled. *)
Lemma build_page_no_more (sid : jsstring) (cursor : option jsstring)
  (pageSize offset maxOutputTokens : Z) (fields : list jsstring)
  (messages : list json) :
  let p := build_page sid cursor pageSize offset maxOutputTokens fields messages in
  pg_has_more (pl_page p) = false ->
  p = initial_payload sid cursor pageSize offset maxOutputTokens fields messages.
Proof.
  cbv zeta. intros Hmore.
  destruct (build_page_cases sid cursor pageSize offset maxOutputTokens fields
              messages) as (k & [[Hp _]|(_ & _ & _ & _ & Htrue)]);
    [|congruence].
  destruct k as [|k]; [rewrite Hp; apply dropped_0|].
  destruct (dropped_flags offset (S k)
              (initial_payload sid cursor pageSize offset maxOutputTokens fields
                 messages) ltac:(lia)) as (Htrue & _).
  rewrite <- Hp in Htrue. congruence.
Qed.

Section ReadBudgeted.
Variable env : Env.
Variable sid : jsstring.
Variable history : list json.
Variables limit budget : option number.
Variable fields : jsvalue.

Let N := Z.of_nat (List.length history).
Let ps := page_size limit.
Let requested := parseRequestedFields fields.
Let item (message : json) : json := fst (projectMessage message requested).

Hypothesis remote_prefix :
  forall n L,
    messages_of (remote env n (ListMessages sid L))
    = Ok (firstn (Z.to_nat L) history).

(** A page that says that more is to come returns at least one item. *)
Hypothesis progress :
  forall o w p w',
    0 <= o <= N ->
    opencode_get_messages env sid limit (cursor_at o) budget fields w
    = (Ok (MessagePage p), w') ->
    pg_has_more (pl_page p) = true ->
    pl_items p <> [].

Lemma budgeted_page (o : Z) (w : World) :
  0 <= o <= N ->
  exists p w',
    opencode_get_messages env sid limit (cursor_at o) budget fields w
    = (Ok (MessagePage p), w')
    /\ pl_items p
       = map item (firstn (List.length (pl_items p)) (skipn (Z.to_nat o) history))
    /\ o + array_length (pl_items p) <= N
    /\ if pg_has_more (pl_page p) then
         pg_next_cursor (pl_page p) = cursor_at (o + array_length (pl_items p))
         /\ pl_items p <> []
       else
         pg_next_cursor (pl_page p) = None
         /\ pl_items p = map item (skipn (Z.to_nat o) history).
Proof.
  intros Ho. pose proof (page_size_range limit) as Hps. fold ps in Hps.
  set (messages := firstn (Z.to_nat (o + ps + 1)) history).
  assert (Hrun :
            opencode_get_messages env sid limit (cursor_at o) budget fields w
            = (Ok (MessagePage
                     (build_page sid (cursor_at o) ps o (output_budget budget)
                        requested messages)),
               after_fetch env (ListMessages sid (o + ps + 1)) w)).
  { rewrite get_messages_run, decodeCursor_cursor_at by lia. cbv zeta.
    cbn [offset]. unfold answer. rewrite remote_prefix. reflexivity. }
  set (p := build_page _ _ _ _ _ _ _) in *.
  set (rest := skipn (Z.to_nat o) history).
  assert (Hraw : raw_page messages ps o = firstn (Z.to_nat ps) rest)
    by (apply raw_page_of_window; lia).
  assert (Hrest : List.length rest = Z.to_nat (N - o))
    by (subst rest N; rewrite length_skipn; lia).
  destruct (build_page_projection sid (cursor_at o) ps o (output_budget budget)
              requested messages) as (_ & _ & k & Hitems).
  fold p in Hitems. rewrite Hraw, firstn_firstn in Hitems. fold item in Hitems.
  assert (Hlen : List.length (pl_items p)
                 = List.length (firstn (Nat.min k (Z.to_nat ps)) rest))
    by (rewrite Hitems, length_map; reflexivity).
  assert (Hshape : pl_items p = map item (firstn (List.length (pl_items p)) rest))
    by (rewrite Hlen, firstn_length_firstn; exact Hitems).
  assert (Hbound : o + array_length (pl_items p) <= N).
  { unfold array_length. rewrite Hlen, length_firstn, Hrest. lia. }
  exists p, (after_fetch env (ListMessages sid (o + ps + 1)) w).
  split; [exact Hrun|]. split; [exact Hshape|]. split; [exact Hbound|].
  destruct (build_page_consistent sid (cursor_at o) ps o (output_budget budget)
              requested messages) as [_ Hcur].
  fold p in Hcur. rewrite Hcur.
  destruct (pg_has_more (pl_page p)) eqn:Hmore.
  - pose proof (progress o w p _ Ho Hrun Hmore) as Hsome.
    split; [|exact Hsome].
    unfold cursor_at.
    replace (o + array_length (pl_items p) =? 0) with false; [reflexivity|].
    symmetry. apply Z.eqb_neq. unfold array_length.
    destruct (pl_items p); [congruence|cbn [List.length]; lia].
  - split; [reflexivity|].
    pose proof (build_page_no_more sid (cursor_at o) ps o (output_budget budget)
                  requested messages Hmore) as Hp0.
    fold p in Hp0.
    destruct (fill_budget (output_budget budget) []
                (projected_page messages ps o requested))
      as [kept truncated] eqn:Hfill.
    destruct (initial_payload_filled sid (cursor_at o) ps o (output_budget budget)
                requested messages kept truncated Hfill) as (Hk & _ & Hm0).
    rewrite <- Hp0 in Hk, Hm0. rewrite Hmore in Hm0.
    symmetry in Hm0. apply orb_false_iff in Hm0. destruct Hm0 as [Hall Hend].
    apply Z.ltb_ge in Hall, Hend.
    destruct (fill_budget_spec _ _ _ _ _ Hfill) as (taken & more & Hpage & -> & _).
    cbn [app] in *. subst taken.
    assert (Hmore_nil : more = []).
    { rewrite Hpage in Hall. unfold array_length in Hall.
      rewrite length_app in Hall. destruct more; [reflexivity|].
      cbn [List.length] in Hall. lia. }
    subst more. rewrite app_nil_r in Hpage.
    unfold projected_page in Hpage. rewrite map_map, Hraw in Hpage.
    fold item in Hpage. rewrite <- Hpage. f_equal.
    apply firstn_all2. rewrite Hraw in Hend. unfold array_length in Hend.
    rewrite length_firstn in Hend. subst messages.
    rewrite length_firstn in Hend. fold N in Hend. lia.
Qed.

Lemma read_budgeted (fuel : nat) :
  forall o w,
    0 <= o <= N ->
    N - o < Z.of_nat fuel ->
    exists earlier final,
      read_all env sid limit budget fields fuel (cursor_at o) w
      = Some (earlier ++ [final])
      /\ List.concat (map pl_items (earlier ++ [final]))
         = map item (skipn (Z.to_nat o) history)
      /\ Forall (fun p => pg_has_more (pl_page p) = true
                          /\ pl_items p <> []) earlier
      /\ pg_has_more (pl_page final) = false
      /\ pg_next_cursor (pl_page final) = None.
Proof.
  induction fuel as [|fuel IH]; intros o w Ho Hfuel; [cbn in Hfuel; lia|].
  destruct (budgeted_page o w Ho) as (p & w' & Hrun & Hshape & Hbound & Hnext).
  cbn [read_all]. rewrite Hrun.
  destruct (pg_has_more (pl_page p)) eqn:Hmore.
  - destruct Hnext as [Hnext Hsome]. rewrite Hnext.
    assert (Hpos : 0 < array_length (pl_items p)).
    { unfold array_length. destruct (pl_items p); [congruence|].
      cbn [List.length]. lia. }
    assert (Hnz : cursor_at (o + array_length (pl_items p))
                  = Some (encodeCursor {| offset := o + array_length (pl_items p) |})).
    { unfold cursor_at.
      replace (o + array_length (pl_items p) =? 0) with false
        by (symmetry; apply Z.eqb_neq; lia).
      reflexivity. }
    rewrite Hnz. cbv iota. rewrite <- Hnz.
    destruct (IH (o + array_length (pl_items p)) w' ltac:(lia) ltac:(lia))
      as (earlier & final & -> & Hcat & Hall & Hlast & Hnone).
    exists (p :: earlier), final. cbn [option_map app].
    split; [reflexivity|]. split; [|split; [|split]]; try assumption.
    + cbn [map List.concat]. rewrite Hcat, Hshape at 1.
      rewrite <- map_app. f_equal.
      replace (Z.to_nat (o + array_length (pl_items p)))
        with (List.length (pl_items p) + Z.to_nat o)%nat
        by (unfold array_length; lia).
      rewrite <- skipn_skipn. apply firstn_skipn.
    + constructor; [split|]; assumption.
  - destruct Hnext as [Hnext Hitems]. rewrite Hnext.
    exists [], p. cbn [app map List.concat]. rewrite app_nil_r.
    split; [reflexivity|]. split; [exact Hitems|]. split; [constructor|].
    split; [exact Hmore|exact Hnext].
Qed.
End ReadBudgeted.

(** X8.  Let the remote agent answer a request for [L] messages with the
    first [L] messages of [history], and let every page that says that
    more is to come return at least one item.  Then, whatever the
    limit, the budget and the fields, a caller that starts without a
    cursor and passes on each [next_cursor] is done within
    [length history + 1] calls; the items of the pages put together
    are the projections of the messages of the history, each once and
    in order; every page but the last has items and [has_more = true];
    the last has [has_more = false] and no [next_cursor]. *)
Theorem budgeted_pagination_exhaustive (env : Env) (sid : jsstring)
  (history : list json) (limit budget : option number) (fields : jsvalue)
  (w : World) :
  (forall n L,
      messages_of (remote env n (ListMessages sid L))
      = Ok (firstn (Z.to_nat L) history)) ->
  (forall o w0 p w',
      0 <= o <= Z.of_nat (List.length history) ->
      opencode_get_messages env sid limit (cursor_at o) budget fields w0
      = (Ok (MessagePage p), w') ->
      pg_has_more (pl_page p) = true ->
      pl_items p <> []) ->
  exists earlier final,
    read_all env sid limit budget fields (S (List.length history)) None w
    = Some (earlier ++ [final])
    /\ List.concat (map pl_items (earlier ++ [final]))
       = map (fun message => fst (projectMessage message (parseRequestedFields fields)))
             history
    /\ Forall (fun p => pg_has_more (pl_page p) = true /\ pl_items p <> []) earlier
    /\ pg_has_more (pl_page final) = false
    /\ pg_next_cursor (pl_page final) = None.
Proof.
  intros Hremote Hprogress.
  exact (read_budgeted env sid history limit budget fields Hremote Hprogress
           (S (List.length history)) 0 w ltac:(lia) ltac:(lia)).
Qed.

Lemma budgeted_pagination_exhaustive_witness :
  ((forall n L,
       messages_of (remote (history_env five_messages) n (ListMessages ses_1 L))
       = Ok (firstn (Z.to_nat L) five_messages))
   /\ (forall o w0 p w',
         0 <= o <= Z.of_nat (List.length five_messages) ->
         opencode_get_messages (history_env five_messages) ses_1 (Some (Int 5))
           (cursor_at o) (Some (Int 150)) None w0
         = (Ok (MessagePage p), w') ->
         pg_has_more (pl_page p) = true ->
         pl_items p <> []))
  /\ exists earlier final,
       read_all (history_env five_messages) ses_1 (Some (Int 5)) (Some (Int 150))
         None (S (List.length five_messages)) None start_world
       = Some (earlier ++ [final])
       /\ List.concat (map pl_items (earlier ++ [final]))
          = map (fun message =>
                   fst (projectMessage message (parseRequestedFields None)))
                five_messages
       /\ Forall (fun p => pg_has_more (pl_page p) = true /\ pl_items p <> [])
                 earlier
       /\ pg_has_more (pl_page final) = false
       /\ pg_next_cursor (pl_page final) = None.
Proof.
  assert (H1 : forall n L,
             messages_of (remote (history_env five_messages) n (ListMessages ses_1 L))
             = Ok (firstn (Z.to_nat L) five_messages))
    by (intros n L; reflexivity).
  assert (H2 : forall o w0 p w',
             0 <= o <= Z.of_nat (List.length five_messages) ->
             opencode_get_messages (history_env five_messages) ses_1 (Some (Int 5))
               (cursor_at o) (Some (Int 150)) None w0
             = (Ok (MessagePage p), w') ->
             pg_has_more (pl_page p) = true ->
             pl_items p <> []).
  { intros o w0 p w' Ho Hrun. cbn [five_messages List.length Z.of_nat] in Ho.
    assert (Hcases : o = 0 \/ o = 1 \/ o = 2 \/ o = 3 \/ o = 4 \/ o = 5) by lia.
    destruct Hcases as [->|[->|[->|[->|[->| ->]]]]];
      vm_compute in Hrun; injection Hrun as <- _; vm_compute;
      intros Hmore Hnil; discriminate. }
  split; [split; assumption|].
  exact (budgeted_pagination_exhaustive (history_env five_messages) ses_1
           five_messages (Some (Int 5)) (Some (Int 150)) None start_world H1 H2).
Defined.

Example five_messages_under_a_budget :
  option_map (map (fun p => (List.length (pl_items p), bg_truncated (pl_budget p))))
    (read_all (history_env five_messages) ses_1 (Some (Int 5)) (Some (Int 150))
       None 6 None start_world)
  = Some [(3%nat, true); (2%nat, false)].
Proof. vm_compute. reflexivity. Qed.

(* ================================================================== *)
(** * More about the helpers *)
(* ================================================================== *)

Lemma non_empty_spec (s : jsstring) : non_empty s = true <-> s <> [].
Proof. destruct s; cbn; split; congruence. Qed.


Lemma first_text_bounds (parts : list json) (maxLength : Z) (preview : jsstring) :
  0 <= maxLength ->
  first_text parts maxLength = Some preview ->
  preview <> []
  /\ str_length preview <= maxLength + 3
  /\ exists part text,
       In part parts
       /\ prop (Some part) (lit "type") = Some (JStr (lit "text"))
       /\ prop (Some part) (lit "text") = Some (JStr text)
       /\ (preview = text
           \/ (maxLength < str_length text
               /\ preview = firstn (Z.to_nat maxLength) text ++ lit "...")).
Proof.
  intros Hmax. induction parts as [|part rest IH]; cbn [first_text];
    [discriminate|].
  assert (Hrest : first_text rest maxLength = Some preview ->
                  preview <> []
                  /\ str_length preview <= maxLength + 3
                  /\ exists part0 text,
                       In part0 (part :: rest)
                       /\ prop (Some part0) (lit "type") = Some (JStr (lit "text"))
                       /\ prop (Some part0) (lit "text") = Some (JStr text)
                       /\ (preview = text
                           \/ (maxLength < str_length text
                               /\ preview
                                  = firstn (Z.to_nat maxLength) text ++ lit "..."))).
  { intros H. destruct (IH H) as (H1 & H2 & p & t & Hin & H3).
    split; [exact H1|]. split; [exact H2|].
    exists p, t. split; [right; exact Hin|exact H3]. }
  destruct (not_an_object (Some part)); [exact Hrest|].
  destruct (prop (Some part) (lit "type")) as [[| | |ty| |]|] eqn:Hty;
    try exact Hrest.
  destruct (prop (Some part) (lit "text")) as [[| | |text| |]|] eqn:Htx;
    try exact Hrest.
  destruct (str_eqb ty (lit "text")) eqn:Heq; [|exact Hrest].
  apply str_eqb_eq in Heq. subst ty.
  destruct (Z.ltb_spec 0 (str_length text)) as [Hpos|Hzero]; [|exact Hrest].
  cbn [andb]. intros [= <-].
  unfold str_length in *.
  destruct (Z.ltb_spec maxLength (Z.of_nat (List.length text))) as [Hlong|Hshort].
  - split; [intros Hnil; apply app_eq_nil in Hnil; destruct Hnil; discriminate|].
    split.
    + rewrite length_app, length_firstn.
      change (List.length (lit "...")) with 3%nat. lia.
    + exists part, text. split; [left; reflexivity|].
      split; [exact Hty|]. split; [exact Htx|]. right. split; [exact Hlong|reflexivity].
  - split; [destruct text; [cbn in Hpos; lia|discriminate]|].
    split; [lia|].
    exists part, text. split; [left; reflexivity|].
    split; [exact Hty|]. split; [exact Htx|]. left. reflexivity.
Qed.

(** X10.  A text preview is never empty and never longer than 183
    characters: it is the text of a part of type [text] of the message,
    or its first 180 characters followed by three dots when the text is
    longer than that. *)
Theorem text_preview_bounds (message : json) (preview : jsstring) :
  getFirstTextPreview message = Some preview ->
  preview <> []
  /\ str_length preview <= 183
  /\ exists parts part text,
       prop (Some message) (lit "parts") = Some (JArr parts)
       /\ In part parts
       /\ prop (Some part) (lit "type") = Some (JStr (lit "text"))
       /\ prop (Some part) (lit "text") = Some (JStr text)
       /\ (preview = text
           \/ (180 < str_length text /\ preview = firstn 180 text ++ lit "...")).
Proof.
  unfold getFirstTextPreview.
  destruct (not_an_object (Some message)); [discriminate|].
  destruct (prop (Some message) (lit "parts")) as [[| | | |parts|]|];
    try discriminate.
  intros H.
  destruct (first_text_bounds parts 180 preview ltac:(lia) H)
    as (H1 & H2 & part & text & Hin & Hty & Htx & Hshape).
  split; [exact H1|]. split; [lia|].
  exists parts, part, text. repeat split; assumption.
Qed.

Lemma text_preview_bounds_witness :
  getFirstTextPreview oversized_message = Some (repeat 97 180 ++ lit "...")
  /\ repeat 97 180 ++ lit "..." <> []
  /\ str_length (repeat 97 180 ++ lit "...") <= 183
  /\ exists parts part text,
       prop (Some oversized_message) (lit "parts") = Some (JArr parts)
       /\ In part parts
       /\ prop (Some part) (lit "type") = Some (JStr (lit "text"))
       /\ prop (Some part) (lit "text") = Some (JStr text)
       /\ (repeat 97 180 ++ lit "..." = text
           \/ (180 < str_length text
               /\ repeat 97 180 ++ lit "..." = firstn 180 text ++ lit "...")).
Proof.
  assert (H : getFirstTextPreview oversized_message
              = Some (repeat 97 180 ++ lit "...")) by (vm_compute; reflexivity).
  split; [exact H|].
  exact (text_preview_bounds oversized_message _ H).
Defined.

(** X11.  [findLatestAssistantReplyByParentId] returns a message exactly
    when it is the last message of the window that is an assistant
    message with the given parent, and it returns nothing exactly when
    the window has no such message. *)
Theorem latest_reply_found (window : list json) (target : jsstring) :
  (forall m,
      findLatestAssistantReplyByParentId window target = Some m
      <-> latest_reply window target m)
  /\ (findLatestAssistantReplyByParentId window target = None
      <-> no_reply window target)
  /\ (forall m,
        findLatestAssistantReplyByParentId window target = Some m ->
        In m window
        /\ getMessageRole m = Some (lit "assistant")
        /\ getMessageParentId m = Some target).
Proof.
  split; [intros m; apply findLatest_some|]. split; [apply findLatest_none|].
  intros m Hm. apply findLatest_some in Hm.
  destruct Hm as (older & newer & -> & Hreply & _).
  split; [apply in_or_app; right; left; reflexivity|].
  unfold is_reply_to in Hreply. apply andb_true_iff in Hreply.
  destruct Hreply as [Hrole Hparent]. unfold opt_str_is in *.
  destruct (getMessageRole m) as [role|]; [|discriminate].
  destruct (getMessageParentId m) as [parent|]; [|discriminate].
  apply str_eqb_eq in Hrole, Hparent. subst. split; reflexivity.
Qed.

(* ================================================================== *)
(** * Pending questions *)
(* ================================================================== *)

(** X12.  Whatever the remote agent sends, [normalizePendingQuestions]
    returns questions with a non-empty [id] and a non-empty [sessionID]
    only, at most one for each entry of the array it was given, and
    none for a value that is no array. *)
Theorem pending_questions_normalized (value : json) :
  Forall (fun question => pq_id question <> [] /\ pq_sessionID question <> [])
         (normalizePendingQuestions value)
  /\ array_length (normalizePendingQuestions value)
     <= match value with
        | JArr items => array_length items
        | _ => 0
        end
  /\ ((forall items, value <> JArr items) -> normalizePendingQuestions value = []).
Proof.
  split; [|split].
  - destruct value as [| | | |items|]; try apply Forall_nil.
    cbn [normalizePendingQuestions]. apply Forall_forall.
    intros question Hin. apply filter_In in Hin. destruct Hin as [_ Hok].
    apply andb_true_iff in Hok. destruct Hok as [Hid Hsid].
    destruct (pq_id question); [discriminate|].
    destruct (pq_sessionID question); [discriminate|]. split; discriminate.
  - destruct value as [| | | |items|]; try (cbn; lia).
    cbn [normalizePendingQuestions]. unfold array_length. apply inj_le.
    etransitivity; [apply filter_length_le|].
    rewrite length_map. apply filter_length_le.
  - intros Hno. destruct value as [| | | |items|]; try reflexivity.
    exfalso. apply (Hno items). reflexivity.
Qed.

Lemma list_questions_run (env : Env) (session_id : option jsstring) (w : World) :
  opencode_list_questions env session_id w
  = (Ok {| ql_count :=
             array_length
               match session_id with
               | Some (c :: s) => pending_of (answer env ListQuestions w) (c :: s)
               | _ => normalizePendingQuestions
                        (optional_json_of (answer env ListQuestions w))
               end;
           ql_session_filter := session_id;
           ql_items :=
             match session_id with
             | Some (c :: s) => pending_of (answer env ListQuestions w) (c :: s)
             | _ => normalizePendingQuestions
                      (optional_json_of (answer env ListQuestions w))
             end |},
     after_fetch env ListQuestions w).
Proof.
  unfold opencode_list_questions. rewrite bind_run, fetchOptionalJson_run.
  destruct session_id as [[|c s]|]; reflexivity.
Qed.


Example list_questions_of_a_blocked_session :
  fst (opencode_list_questions blocked_env (Some ses_1) start_world)
  = Ok {| ql_count := 1;
          ql_session_filter := Some ses_1;
          ql_items := [{| pq_id := lit "que_1";
                          pq_sessionID := ses_1;
                          pq_questions := [{| q_question := lit "Proceed?";
                                              q_header := lit "Confirm" |}] |}] |}.
Proof. vm_compute. reflexivity. Qed.

(* ================================================================== *)
(** * getAuthHeader *)
(* ================================================================== *)

Lemma unbase64_b64_char (i : Z) :
  0 <= i < 64 -> unbase64 (b64_char i) = Some i /\ b64_char i <> 61.
Proof.
  intros Hi. unfold unbase64, b64_char.
  repeat match goal with
         | |- context [if ?b then _ else _] => destruct b eqn:?
         end; zbool; split; try (f_equal; dlia); try dlia.
Qed.

Lemma b64_char_byte (i : Z) :
  0 <= i < 64 -> b64_char i mod 256 = b64_char i.
Proof.
  intros Hi. apply Z.mod_small. unfold b64_char.
  repeat match goal with
         | |- context [if ?b then _ else _] => destruct b eqn:?
         end; zbool; lia.
Qed.

Lemma sextets_of_padded (vs : list Z) (padding : jsstring) :
  Forall (fun v => 0 <= v < 64) vs ->
  sextets_of_string (map b64_char vs ++ padding) = vs ++ sextets_of_string padding.
Proof.
  induction 1 as [|v vs Hv _ IH]; cbn [map app sextets_of_string]; [reflexivity|].
  cbv zeta. rewrite (b64_char_byte v Hv).
  destruct (unbase64_b64_char v Hv) as [-> Hne].
  apply Z.eqb_neq in Hne. rewrite Hne, IH. reflexivity.
Qed.

Lemma base64_padding_sextets (bs : list Z) :
  sextets_of_string (base64_padding bs) = [].
Proof.
  unfold base64_padding.
  destruct (List.length bs mod 3)%nat as [|[|[|n]]]; reflexivity.
Qed.

Lemma base64_roundtrip (bs : list Z) :
  wf_bytes bs -> base64_decode (base64_encode bs) = bs.
Proof.
  intros Hbs. unfold base64_decode, base64_encode.
  rewrite sextets_of_padded by (apply sextets_of_bytes_range; exact Hbs).
  rewrite base64_padding_sextets, app_nil_r.
  apply bytes_of_sextets_of_bytes. exact Hbs.
Qed.

Lemma base64_encode_length (bs : list Z) :
  (List.length (base64_encode bs) mod 4 = 0)%nat.
Proof.
  induction bs as [| a | a b | a b c rest IH] using list_ind3;
    try reflexivity.
  unfold base64_encode, base64_padding in *.
  cbn [sextets_of_bytes map app List.length].
  replace (S (S (S (List.length rest)))) with (List.length rest + 1 * 3)%nat by lia.
  rewrite Nat.Div0.mod_add.
  set (tail := map b64_char (sextets_of_bytes rest) ++ _) in *.
  replace (S (S (S (S (List.length tail))))) with (List.length tail + 1 * 4)%nat
    by lia.
  rewrite Nat.Div0.mod_add. exact IH.
Qed.

(** X14.  [getAuthHeader] gives no header or the one header
    [Authorization].  There is a header exactly when a secret is
    configured for the kind of authentication: a token or a password
    for [bearer], a password for [basic]; any other kind gives none.
    For [bearer] the token is used when there is one, the password
    otherwise. *)
Theorem auth_header_needs_a_secret (config : Config) :
  let headers := getAuthHeader config in
  (headers = [] \/ exists value, headers = [(lit "Authorization", value)])
  /\ (headers <> []
      <-> (cfg_authType config = lit "bearer"
           /\ (cfg_token config <> [] \/ cfg_password config <> []))
          \/ (cfg_authType config = lit "basic" /\ cfg_password config <> []))
  /\ (cfg_authType config = lit "bearer" ->
      headers
      = if non_empty (cfg_token config) then
          [(lit "Authorization", lit "Bearer " ++ cfg_token config)]
        else if non_empty (cfg_password config) then
          [(lit "Authorization", lit "Bearer " ++ cfg_password config)]
        else []).
Proof.
  cbv zeta. unfold getAuthHeader.
  destruct (str_eqb_spec (cfg_authType config) (lit "bearer")) as [Hb|Hb].
  - destruct (cfg_token config) as [|t ts] eqn:Ht; cbn [non_empty is_nil negb].
    + destruct (cfg_password config) as [|q qs] eqn:Hp; cbn [non_empty is_nil negb].
      * split; [left; reflexivity|]. split; [|reflexivity].
        split; [congruence|]. intros [[_ [H|H]]|[_ H]]; congruence.
      * split; [right; eexists; reflexivity|]. split; [|reflexivity].
        split; [|discriminate]. intros _. left. split; [exact Hb|].
        right. discriminate.
    + split; [right; eexists; reflexivity|]. split; [|reflexivity].
      split; [|discriminate]. intros _. left. split; [exact Hb|].
      left. discriminate.
  - destruct (str_eqb_spec (cfg_authType config) (lit "basic")) as [Hc|Hc].
    + cbv zeta.
      destruct (cfg_password config) as [|q qs] eqn:Hp; cbn [non_empty is_nil negb].
      * split; [left; reflexivity|]. split; [|congruence].
        split; [congruence|]. intros [[H _]|[_ H]]; congruence.
      * split; [right; eexists; reflexivity|]. split; [|congruence].
        split; [|discriminate]. intros _. right. split; [exact Hc|discriminate].
    + split; [left; reflexivity|]. split; [|congruence].
      split; [congruence|]. intros [[H _]|[H _]]; congruence.
Qed.

(** X15.  For [basic] authentication with a password, the header is
    [Basic] followed by credentials that are padded to a multiple of
    four characters and that decode, as base64 and then UTF-8, to the
    user name, a colon and the password; the user name is [opencode]
    when none is configured. *)
Theorem basic_credentials_roundtrip (config : Config) :
  cfg_authType config = lit "basic" ->
  cfg_password config <> [] ->
  wf_utf16 (cfg_username config) ->
  wf_utf16 (cfg_password config) ->
  exists credentials,
    getAuthHeader config = [(lit "Authorization", lit "Basic " ++ credentials)]
    /\ (List.length credentials mod 4 = 0)%nat
    /\ utf8_decode (base64_decode credentials)
       = (if non_empty (cfg_username config) then cfg_username config
          else lit "opencode")
         ++ lit ":" ++ cfg_password config.
Proof.
  intros Htype Hpass Hu Hp. unfold getAuthHeader. rewrite Htype.
  change (str_eqb (lit "basic") (lit "bearer")) with false.
  rewrite str_eqb_refl. cbv iota zeta.
  replace (non_empty (cfg_password config)) with true
    by (symmetry; apply non_empty_spec; exact Hpass).
  eexists. split; [reflexivity|]. split; [apply base64_encode_length|].
  set (user := if non_empty (cfg_username config) then cfg_username config
               else lit "opencode").
  assert (Hwf : wf_utf16 (user ++ lit ":" ++ cfg_password config)).
  { apply wf_utf16_app; [|apply wf_utf16_app; [|exact Hp]].
    - subst user. destruct (non_empty (cfg_username config)); [exact Hu|].
      apply wf_utf16_plain. vm_compute. repeat constructor; discriminate.
    - apply wf_utf16_plain. vm_compute. repeat constructor; discriminate. }
  rewrite base64_roundtrip by (apply utf8_encode_bytes; exact Hwf).
  apply utf8_roundtrip. exact Hwf.
Qed.

Lemma basic_credentials_roundtrip_witness :
  (cfg_authType basic_config = lit "basic"
   /\ cfg_password basic_config <> []
   /\ wf_utf16 (cfg_username basic_config)
   /\ wf_utf16 (cfg_password basic_config))
  /\ exists credentials,
       getAuthHeader basic_config
       = [(lit "Authorization", lit "Basic " ++ credentials)]
       /\ (List.length credentials mod 4 = 0)%nat
       /\ utf8_decode (base64_decode credentials)
          = (if non_empty (cfg_username basic_config) then cfg_username basic_config
             else lit "opencode")
            ++ lit ":" ++ cfg_password basic_config.
Proof.
  assert (H1 : cfg_authType basic_config = lit "basic") by reflexivity.
  assert (H2 : cfg_password basic_config <> []) by discriminate.
  assert (H3 : wf_utf16 (cfg_username basic_config)) by apply wf16_nil.
  assert (H4 : wf_utf16 (cfg_password basic_config)).
  { apply wf_utf16_plain. vm_compute. repeat constructor; discriminate. }
  split; [exact (conj H1 (conj H2 (conj H3 H4)))|].
  exact (basic_credentials_roundtrip basic_config H1 H2 H3 H4).
Defined.

Example basic_header_of_the_default_user :
  getAuthHeader basic_config
  = [(lit "Authorization", lit "Basic b3BlbmNvZGU6czNjcmV0")].
Proof. vm_compute. reflexivity. Qed.

(* ================================================================== *)
(** * More about opencode_chat_async *)
(* ================================================================== *)

(** The session of a call: the one given, untouched, or one request to
    create it. *)
Lemma target_session_cases (env : Env) (session directory : option jsstring)
  (w : World) :
  match session with
  | Some (c :: s) =>
      target_session env session directory w = (Ok (Some (JStr (c :: s))), w)
  | _ =>
      exists r,
        target_session env session directory w
        = (r, after_fetch env (CreateSession (directory_param directory)) w)
  end.
Proof.
  assert (Hcreate :
            exists r,
              (createResponse <- fetch env (CreateSession (directory_param directory)) ;;
               if negb (response_ok createResponse)
               then throw (status_and_text (lit "Failed to create session: ")
                             createResponse)
               else created_session_id createResponse) w
              = (r, after_fetch env (CreateSession (directory_param directory)) w)).
  { rewrite bind_run, fetch_run.
    destruct (answer env _ w) as [reason|ok st body txt]; [eexists; reflexivity|].
    cbn [response_ok]. destruct ok; cbn [negb]; [|eexists; reflexivity].
    unfold created_session_id. rewrite bind_run.
    destruct body as [v|msg]; cbn [response_json ret throw]; [|eexists; reflexivity].
    destruct v; eexists; reflexivity. }
  unfold target_session. destruct session as [[|c s]|];
    [exact Hcreate|reflexivity|exact Hcreate].
Qed.

Lemma chat_async_failed_session (env : Env) (message : jsstring)
  (session directory : option jsstring) (w w1 : World) (msg : jsstring) :
  target_session env session directory w = (Throw msg, w1) ->
  opencode_chat_async env message session directory w = (Throw msg, w1).
Proof.
  intros H. unfold opencode_chat_async. rewrite bind_run, H. reflexivity.
Qed.

Lemma after_fetch_now (env : Env) (req : Request) (w : World) :
  now w <= now (after_fetch env req w).
Proof. unfold after_fetch. cbn [now]. lia. Qed.

Lemma number_to_string_wf (n : Z) :
  0 <= n -> wf_string (number_to_string (Int n)).
Proof.
  intros Hn. unfold number_to_string.
  replace (n <? 0) with false by (symmetry; apply Z.ltb_ge; lia).
  eapply Forall_impl; [|apply digits_plain; exact Hn].
  cbv beta. intros; lia.
Qed.

(** A handle without a session does not decode. *)
Lemma handle_without_session (mid : jsstring) (t : Z) :
  wf_string mid -> 0 <= t ->
  decodeAsyncRequestId (encodeAsyncRequestId_of None mid (Int t))
  = Throw invalid_async_request_id.
Proof.
  intros Hmid Ht. unfold decodeAsyncRequestId, encodeAsyncRequestId_of.
  cbn [app].
  set (ms := [(lit "message_id", JStr mid); (lit "submitted_at_ms", JNum (Int t))]).
  assert (Hflat : Forall flat_member ms).
  { subst ms. repeat (apply Forall_cons; [split; [apply lit_wf|]|]);
      cbn [snd]; try apply Forall_nil; constructor; assumption. }
  assert (Hne : ms <> []) by (subst ms; discriminate).
  rewrite (token_roundtrip ms Hne Hflat). subst ms. reflexivity.
Qed.

(** X16.  The handle that [opencode_chat_async] returns names the prompt
    that was posted.  The last request of an accepted call is the one
    prompt, posted with the message id of the result to the session of
    the result as the URL writes it, and the time of submission lies
    within the call.  When that session is a string, one that was
    given or the string [id] of a created session, the handle is the
    encoding of the session, the message id and the time, and decodes
    to them.  When the remote agent created a session without an [id],
    the handle holds no session and does not decode. *)
Theorem accepted_handle_names_the_prompt (env : Env) (message : jsstring)
  (session directory : option jsstring) (w w' : World)
  (target : jsvalue) (mid : jsstring) (t : Z) (token : jsstring) :
  opencode_chat_async env message session directory w
  = (Ok (AsyncAccepted target mid t token), w') ->
  0 <= now w ->
  (forall n, wf_string (random_suffix env n)) ->
  (exists earlier,
      trace w'
      = earlier ++ [ListQuestions;
                    PromptAsync (template_text target) (directory_param directory)
                      mid message])
  /\ now w <= t <= now w'
  /\ (forall sid,
        target = Some (JStr sid) -> wf_string sid ->
        let payload := {| session_id := sid; message_id := mid;
                          submitted_at_ms := Int t |} in
        token = encodeAsyncRequestId payload
        /\ decodeAsyncRequestId token = Ok payload)
  /\ (target = None ->
      decodeAsyncRequestId token = Throw invalid_async_request_id).
Proof.
  intros Hcall Hnow Hsuffix.
  destruct (target_session env session directory w) as [[target0|msg] w1] eqn:Htarget;
    [|rewrite (chat_async_failed_session _ _ _ _ _ _ _ Htarget) in Hcall;
      discriminate].
  assert (Hclock : now w <= now w1).
  { pose proof (target_session_cases env session directory w) as Hcases.
    destruct session as [[|c s]|];
      try (destruct Hcases as (r & Hr); rewrite Hr in Htarget;
           injection Htarget as _ <-; apply after_fetch_now).
    rewrite Hcases in Htarget. injection Htarget as _ <-. lia. }
  rewrite (chat_async_run env message session directory w w1 target0 Htarget)
    in Hcall.
  cbv zeta in Hcall.
  destruct (0 <? array_length _); [discriminate|].
  rewrite fetch_run in Hcall.
  destruct (answer env _ _) as [reason|ok st body txt]; [discriminate|].
  cbn [response_ok] in Hcall. destruct (negb ok); [discriminate|].
  injection Hcall as <- <- <- <- <-.
  assert (Hmid : wf_string (lit "msg_async_" ++ number_to_string (Int (now w1))
                            ++ lit "_" ++ random_suffix env (draws w1))).
  { unfold wf_string.
    apply Forall_app. split; [apply lit_wf|].
    apply Forall_app. split; [apply number_to_string_wf; lia|].
    apply Forall_app. split; [apply lit_wf|apply Hsuffix]. }
  split; [|split; [|split]].
  - exists (trace w1). cbn [after_fetch drawn trace]. rewrite <- app_assoc.
    reflexivity.
  - split; [exact Hclock|]. cbn [after_fetch drawn now]. lia.
  - intros sid -> Hsid. cbv zeta. split; [reflexivity|].
    change (encodeAsyncRequestId_of (Some (JStr sid)) ?m ?n)
      with (encodeAsyncRequestId
              {| session_id := sid; message_id := m; submitted_at_ms := n |}).
    apply decodeAsyncRequestId_encodeAsyncRequestId;
      cbn [session_id message_id submitted_at_ms].
    + exact Hsid.
    + exact Hmid.
    + exists (now w1). split; [reflexivity|lia].
  - intros ->. apply handle_without_session; [exact Hmid|lia].
Qed.

Lemma accepted_handle_names_the_prompt_witness :
  exists w',
    (opencode_chat_async no_question_env (lit "ping") (Some ses_1) None start_world
     = (Ok (AsyncAccepted (Some (JStr ses_1)) msg_1 1000 sample_token), w')
     /\ 0 <= now start_world
     /\ (forall n, wf_string (random_suffix no_question_env n)))
    /\ (exists earlier,
          trace w'
          = earlier ++ [ListQuestions;
                        PromptAsync ses_1 (directory_param None) msg_1 (lit "ping")])
    /\ now start_world <= 1000 <= now w'
    /\ sample_token = encodeAsyncRequestId sample_handle
    /\ decodeAsyncRequestId sample_token = Ok sample_handle.
Proof.
  assert (H1 : exists w',
             opencode_chat_async no_question_env (lit "ping") (Some ses_1) None
               start_world
             = (Ok (AsyncAccepted (Some (JStr ses_1)) msg_1 1000 sample_token), w'))
    by (eexists; vm_compute; reflexivity).
  destruct H1 as (w' & H1).
  assert (H2 : 0 <= now start_world) by (vm_compute; discriminate).
  assert (H3 : forall n, wf_string (random_suffix no_question_env n))
    by (intros n; apply lit_wf).
  destruct (accepted_handle_names_the_prompt no_question_env (lit "ping")
              (Some ses_1) None start_world w' (Some (JStr ses_1)) msg_1 1000
              sample_token H1 H2 H3)
    as (Htrace & Htime & Hstring & _).
  exists w'. split; [exact (conj H1 (conj H2 H3))|].
  split; [exact Htrace|]. split; [exact Htime|].
  exact (Hstring ses_1 eq_refl (lit_wf "ses_1")).
Defined.

(** A remote agent that creates a session without an [id]: the message
    is posted to [/session/undefined/prompt_async], the call reports
    acceptance, and the handle it returns is rejected by the decoder. *)
Example accepted_without_a_session :
  let out := opencode_chat_async no_question_env (lit "ping") None None start_world in
  match fst out with
  | Ok (AsyncAccepted None mid 1005 token) =>
      mid = lit "msg_async_1005_abc"
      /\ decodeAsyncRequestId token = Throw invalid_async_request_id
  | _ => False
  end
  /\ trace (snd out)
     = [CreateSession None; ListQuestions;
        PromptAsync (lit "undefined") None (lit "msg_async_1005_abc") (lit "ping")].
Proof. vm_compute. repeat split. Qed.

(** X17.  The requests of [opencode_chat_async], whatever its outcome:
    a session is created only when none is given, and then first; a
    prompt is posted at most once, as the last request, right after the
    question check, and to the session that was given when one was. *)
Theorem chat_async_requests (env : Env) (message : jsstring)
  (session directory : option jsstring) (w : World) :
  let out := opencode_chat_async env message session directory w in
  exists created rest,
    trace (snd out) = trace w ++ created ++ rest
    /\ match session with
       | Some (c :: s) => created = []
       | _ => created = [CreateSession (directory_param directory)]
       end
    /\ (rest = []
        \/ rest = [ListQuestions]
        \/ exists sid mid,
             rest = [ListQuestions;
                     PromptAsync sid (directory_param directory) mid message]
             /\ forall given, session = Some given -> given <> [] -> sid = given).
Proof.
  cbv zeta.
  pose proof (target_session_cases env session directory w) as Hcases.
  set (created := match session with
                  | Some (c :: s) => []
                  | _ => [CreateSession (directory_param directory)]
                  end).
  assert (Htarget : exists r w1,
             target_session env session directory w = (r, w1)
             /\ trace w1 = trace w ++ created
             /\ forall given target, session = Some given -> given <> [] ->
                                     r = Ok target -> template_text target = given).
  { subst created. destruct session as [[|c s]|].
    - destruct Hcases as (r & ->). do 2 eexists. split; [reflexivity|].
      split; [reflexivity|]. intros given target [= <-] Hne. congruence.
    - rewrite Hcases. do 2 eexists. split; [reflexivity|].
      split; [cbn [app]; rewrite app_nil_r; reflexivity|].
      intros given target [= <-] _ [= <-]. reflexivity.
    - destruct Hcases as (r & ->). do 2 eexists. split; [reflexivity|].
      split; [reflexivity|]. intros given target Hs. discriminate. }
  destruct Htarget as (r & w1 & Htarget & Htrace & Hgiven).
  assert (Hcreated : match session with
                     | Some (c :: s) => created = []
                     | _ => created = [CreateSession (directory_param directory)]
                     end)
    by (subst created; destruct session as [[|c s]|]; reflexivity).
  exists created. destruct r as [target|msg].
  - rewrite (chat_async_run env message session directory w w1 target Htarget).
    cbv zeta. set (sid := template_text target). destruct (0 <? array_length _).
    + exists [ListQuestions]. cbn [snd after_fetch drawn trace].
      rewrite Htrace, <- app_assoc. split; [reflexivity|].
      split; [exact Hcreated|]. right. left. reflexivity.
    + rewrite fetch_run.
      eexists [ListQuestions; PromptAsync sid (directory_param directory) _ message].
      assert (Htr : trace (after_fetch env
                             (PromptAsync sid (directory_param directory)
                                (lit "msg_async_" ++ number_to_string (Int (now w1))
                                 ++ lit "_" ++ random_suffix env (draws w1)) message)
                             (after_fetch env ListQuestions (drawn w1)))
                    = trace w ++ created
                      ++ [ListQuestions;
                          PromptAsync sid (directory_param directory)
                            (lit "msg_async_" ++ number_to_string (Int (now w1))
                             ++ lit "_" ++ random_suffix env (draws w1)) message]).
      { cbn [after_fetch drawn trace]. rewrite Htrace, <- !app_assoc. reflexivity. }
      split.
      * destruct (answer env _ _) as [reason|ok st body txt]; [exact Htr|].
        cbn [response_ok]. destruct (negb ok); exact Htr.
      * split; [exact Hcreated|]. right. right. do 2 eexists.
        split; [reflexivity|]. intros given Hs Hne.
        apply (Hgiven given target Hs Hne). reflexivity.
  - rewrite (chat_async_failed_session _ _ _ _ _ _ _ Htarget).
    exists []. cbn [snd]. rewrite app_nil_r. split; [exact Htrace|].
    split; [exact Hcreated|]. left. reflexivity.
Qed.

(* ================================================================== *)
(** * More about opencode_wait_for_reply *)
(* ================================================================== *)

(** ** Computations that only read *)

Lemma reads_only_ret {A} (a : A) : reads_only (ret a).
Proof.
  intros w r w' [= <- <-]. split; [lia|]. split; [reflexivity|].
  exists []. split; [rewrite app_nil_r; reflexivity|reflexivity].
Qed.

Lemma reads_only_throw {A} (msg : jsstring) : reads_only (@throw A msg).
Proof.
  intros w r w' [= <- <-]. split; [lia|]. split; [reflexivity|].
  exists []. split; [rewrite app_nil_r; reflexivity|reflexivity].
Qed.

Lemma reads_only_Date_now : reads_only Date_now.
Proof.
  intros w r w' [= <- <-]. split; [lia|]. split; [reflexivity|].
  exists []. split; [rewrite app_nil_r; reflexivity|reflexivity].
Qed.

Lemma reads_only_sleep (ms : Z) : reads_only (sleep ms).
Proof.
  intros w r w' [= <- <-]. cbn [after_sleep now draws trace].
  pose proof (timer_delay_pos ms).
  split; [lia|]. split; [reflexivity|].
  exists []. split; [rewrite app_nil_r; reflexivity|reflexivity].
Qed.

Lemma reads_only_fetch (env : Env) (req : Request) :
  read_request req = true -> reads_only (fetch env req).
Proof.
  intros Hreq w r w' H. rewrite fetch_run in H. injection H as _ <-.
  cbn [after_fetch now draws trace]. split; [lia|]. split; [reflexivity|].
  exists [req]. split; [reflexivity|]. cbn [forallb]. rewrite Hreq. reflexivity.
Qed.

Lemma reads_only_seq {A B} (m : M A) (k : A -> M B) (w : World)
  (r : result B) (w' : World) :
  reads_only m -> (forall a, reads_only (k a)) ->
  bind m k w = (r, w') ->
  now w <= now w'
  /\ draws w' = draws w
  /\ exists requests,
       trace w' = trace w ++ requests /\ forallb read_request requests = true.
Proof.
  intros Hm Hk H. rewrite bind_run in H.
  destruct (m w) as [[a|msg] w1] eqn:Hrun.
  - destruct (Hm w _ _ Hrun) as (H1 & H2 & reqs1 & H3 & H4).
    destruct (Hk a w1 _ _ H) as (K1 & K2 & reqs2 & K3 & K4).
    split; [lia|]. split; [congruence|].
    exists (reqs1 ++ reqs2). split; [rewrite K3, H3, app_assoc; reflexivity|].
    rewrite forallb_app, H4, K4. reflexivity.
  - injection H as <- <-. exact (Hm w _ _ Hrun).
Qed.

Lemma reads_only_bind {A B} (m : M A) (k : A -> M B) :
  reads_only m -> (forall a, reads_only (k a)) -> reads_only (bind m k).
Proof. intros Hm Hk w r w' H. exact (reads_only_seq m k w r w' Hm Hk H). Qed.

Lemma reads_only_try_catch {A} (m handler : M A) :
  reads_only m -> reads_only handler -> reads_only (try_catch m handler).
Proof.
  intros Hm Hh w r w' H. unfold try_catch in H.
  destruct (m w) as [[a|msg] w1] eqn:Hrun.
  - injection H as <- <-. exact (Hm w _ _ Hrun).
  - destruct (Hm w _ _ Hrun) as (H1 & H2 & reqs1 & H3 & H4).
    destruct (Hh w1 _ _ H) as (K1 & K2 & reqs2 & K3 & K4).
    split; [lia|]. split; [congruence|].
    exists (reqs1 ++ reqs2). split; [rewrite K3, H3, app_assoc; reflexivity|].
    rewrite forallb_app, H4, K4. reflexivity.
Qed.

Ltac reads :=
  repeat first
    [ apply reads_only_ret
    | apply reads_only_throw
    | apply reads_only_Date_now
    | apply reads_only_fetch; reflexivity
    | apply reads_only_try_catch
    | apply reads_only_bind; [|intros ?]
    | assumption ].

Lemma reads_only_response_json (r : Response) : reads_only (response_json r).
Proof. destruct r as [|ok st [v|] txt]; cbn [response_json]; reads. Qed.

Lemma reads_only_fetchSessionMessages (env : Env) (sid : jsstring) (limit : Z) :
  reads_only (fetchSessionMessages env sid limit).
Proof.
  unfold fetchSessionMessages. reads.
  destruct (negb (response_ok a)); reads.
  - apply reads_only_response_json.
  - destruct a0; reads.
Qed.

Lemma reads_only_fetchOptionalJson (env : Env) (req : Request) :
  read_request req = true -> reads_only (fetchOptionalJson env req).
Proof.
  intros Hreq. unfold fetchOptionalJson. apply reads_only_try_catch; [|reads].
  apply reads_only_bind; [apply reads_only_fetch; exact Hreq|intros response].
  destruct (negb (response_ok response)); [reads|apply reads_only_response_json].
Qed.

Lemma reads_only_fetchPendingQuestionsForSession (env : Env) (sid : jsvalue) :
  reads_only (fetchPendingQuestionsForSession env sid).
Proof.
  unfold fetchPendingQuestionsForSession.
  apply reads_only_bind; [apply reads_only_fetchOptionalJson; reflexivity|].
  intros raw. reads.
Qed.

Lemma reads_only_fetchSessionStatusForSession (env : Env) (sid : jsstring) :
  reads_only (fetchSessionStatusForSession env sid).
Proof.
  unfold fetchSessionStatusForSession.
  apply reads_only_bind; [apply reads_only_fetchOptionalJson; reflexivity|].
  intros raw. reads.
Qed.

Section WaitReads.
Variable env : Env.
Variables aid sid target : jsstring.
Variables timeoutMs intervalMs limit startTime deadline : Z.

Lemma reads_only_resolve_reply (candidate : json) :
  reads_only (resolve_reply env aid sid target timeoutMs intervalMs limit startTime
                candidate).
Proof.
  unfold resolve_reply.
  apply reads_only_bind; [apply reads_only_fetchSessionStatusForSession|].
  intros status. apply reads_only_bind; [|intros resolved; reads].
  destruct (status_is status idle); [|reads].
  apply reads_only_bind; [|intros refreshed; reads].
  apply reads_only_try_catch; [|reads].
  apply reads_only_bind; [apply reads_only_fetchSessionMessages|intros ms; reads].
Qed.

Lemma reads_only_poll_loop (fuel : nat) :
  reads_only (poll_loop env aid sid target timeoutMs intervalMs limit startTime
                deadline fuel).
Proof.
  induction fuel as [|fuel IH]; cbn [poll_loop]; [reads|].
  apply reads_only_bind; [reads|intros t].
  destruct (t <? deadline); [|reads].
  apply reads_only_bind; [apply reads_only_fetchSessionMessages|intros messages].
  destruct (findLatestAssistantReplyByParentId messages target) as [candidate|].
  - apply reads_only_bind; [apply reads_only_resolve_reply|intros r; reads].
  - apply reads_only_bind; [apply reads_only_fetchPendingQuestionsForSession|].
    intros pending. destruct (0 <? array_length pending); [reads|].
    apply reads_only_bind; [apply reads_only_sleep|intros _; exact IH].
Qed.

Lemma reads_only_timeout_payload :
  reads_only (timeout_payload env aid sid target timeoutMs intervalMs limit
                startTime).
Proof.
  unfold timeout_payload.
  apply reads_only_bind; [|intros report; reads].
  apply reads_only_try_catch; [|reads].
  apply reads_only_bind; [|intros r; reads].
  unfold timeout_report.
  apply reads_only_bind;
    [apply reads_only_try_catch; [apply reads_only_fetchSessionMessages|reads]|].
  intros latest. cbv zeta.
  apply reads_only_bind;
    [apply reads_only_try_catch;
     [apply reads_only_fetchSessionStatusForSession|reads]|].
  intros status.
  apply reads_only_bind;
    [apply reads_only_try_catch;
     [apply reads_only_fetchOptionalJson; reflexivity|reads]|].
  intros permissions.
  apply reads_only_bind;
    [apply reads_only_try_catch;
     [apply reads_only_fetchOptionalJson; reflexivity|reads]|].
  intros questions. reads.
Qed.

(** What the loop returns is a reply or a blocked diagnosis. *)
Lemma poll_loop_results (fuel : nat) :
  forall w r w',
    poll_loop env aid sid target timeoutMs intervalMs limit startTime deadline fuel w
    = (Ok (Returned r), w') ->
    (exists p, r = ReplyReceived p)
    \/ exists pending elapsed,
         r = BlockedWaiting sid aid target pending elapsed intervalMs.
Proof.
  induction fuel as [|fuel IH]; intros w r w' H; [discriminate|].
  rewrite poll_loop_step in H.
  destruct (now w <? deadline); [|discriminate]. cbv zeta in H.
  destruct (messages_of _) as [window|msg]; [|discriminate].
  destruct (findLatestAssistantReplyByParentId window target) as [candidate|].
  - destruct (resolve_reply_run env aid sid target timeoutMs intervalMs limit
                startTime candidate
                (after_fetch env (ListMessages sid limit) w)) as (p & Hp & _).
    rewrite Hp in H. injection H as <- _. left. exists p. reflexivity.
  - destruct (0 <? array_length _).
    + injection H as <- _. right. do 2 eexists. reflexivity.
    + exact (IH _ _ _ H).
Qed.

(** The loop gives up only once the deadline has come. *)
Lemma poll_loop_deadline (fuel : nat) :
  forall w w',
    poll_loop env aid sid target timeoutMs intervalMs limit startTime deadline fuel w
    = (Ok DeadlinePassed, w') ->
    deadline <= now w'.
Proof.
  induction fuel as [|fuel IH]; intros w w' H; [discriminate|].
  rewrite poll_loop_step in H.
  destruct (Z.ltb_spec (now w) deadline) as [Hlt|Hge];
    [|injection H as <-; exact Hge].
  cbv zeta in H.
  destruct (messages_of _) as [window|msg]; [|discriminate].
  destruct (findLatestAssistantReplyByParentId window target) as [candidate|].
  - destruct (resolve_reply env aid sid target timeoutMs intervalMs limit startTime
                candidate _) as [[r|msg] w2]; discriminate.
  - destruct (0 <? array_length _); [discriminate|]. exact (IH _ _ H).
Qed.

(** The loop, entered with fuel for the time that is left, comes to the
    world that [polls_on] names with fuel for the time left there. *)
Lemma poll_loop_reaches (w w0 : World) :
  polls_on env sid target limit intervalMs deadline w w0 ->
  forall fuel,
    deadline - now w <= Z.of_nat fuel * timer_delay intervalMs ->
    exists fuel0,
      poll_loop env aid sid target timeoutMs intervalMs limit startTime deadline
        (S fuel) w
      = poll_loop env aid sid target timeoutMs intervalMs limit startTime deadline
          (S fuel0) w0
      /\ deadline - now w0 <= Z.of_nat fuel0 * timer_delay intervalMs.
Proof.
  pose proof (timer_delay_pos intervalMs) as Hint.
  induction 1 as [w|w w' window Hw Hwin Hnone Hpend _ IH]; intros fuel Hfuel.
  - exists fuel. split; [reflexivity|exact Hfuel].
  - destruct fuel as [|fuel]; [cbn [Z.of_nat] in Hfuel; lia|].
    rewrite poll_loop_step.
    replace (now w <? deadline) with true by (symmetry; apply Z.ltb_lt; lia).
    cbv zeta. rewrite Hwin.
    apply findLatest_none in Hnone. rewrite Hnone, Hpend.
    cbn [array_length List.length Z.of_nat Z.ltb Z.compare].
    apply IH. unfold after_sleep, after_fetch. cbn [now].
    rewrite Nat2Z.inj_succ in Hfuel. lia.
Qed.
End WaitReads.

Lemma timeout_payload_fields (env : Env) (aid sid target : jsstring)
  (timeoutMs intervalMs limit startTime : Z) (w : World) :
  exists p w',
    timeout_payload env aid sid target timeoutMs intervalMs limit startTime w
    = (Ok (TimedOut p), w')
    /\ tp_session_id p = sid
    /\ tp_async_request_id p = aid
    /\ tp_target_parent_message_id p = target
    /\ tp_poll_interval_ms p = intervalMs
    /\ tp_poll_limit p = limit
    /\ tp_elapsed_ms p = now w' - startTime.
Proof.
  unfold timeout_payload, try_catch, bind at 1 2, Date_now, ret.
  destruct (timeout_report env sid target limit w) as [[r|msg] w1];
    do 2 eexists; (split; [reflexivity|]); cbn; repeat split; reflexivity.
Qed.

Lemma wait_fuel (ts pi : option number) :
  0 < wait_interval_ms pi
  /\ 0 < wait_timeout_ms ts
  /\ exists fuel,
       poll_fuel (wait_timeout_ms ts) (wait_interval_ms pi) = S fuel
       /\ wait_timeout_ms ts <= Z.of_nat fuel * timer_delay (wait_interval_ms pi).
Proof.
  assert (Hint : 0 < wait_interval_ms pi) by (unfold wait_interval_ms; lia).
  assert (Ht : 0 < wait_timeout_ms ts) by (unfold wait_timeout_ms; lia).
  split; [exact Hint|]. split; [exact Ht|].
  apply poll_fuel_enough. exact Ht.
Qed.

Lemma reads_only_wait_for_reply (env : Env) (token : jsstring)
  (ts pi pl : option number) :
  reads_only (opencode_wait_for_reply env token ts pi pl).
Proof.
  unfold opencode_wait_for_reply.
  destruct (decodeAsyncRequestId token) as [h|msg]; [|reads]. cbv zeta.
  apply reads_only_bind; [reads|intros start].
  apply reads_only_bind; [apply reads_only_poll_loop|intros exit].
  destruct exit as [r| |]; [reads| |reads].
  apply reads_only_bind; [apply reads_only_timeout_payload|intros r; reads].
Qed.

(** X18.  [opencode_wait_for_reply] only reads.  Whatever the handle,
    the arguments and the remote agent, the requests of the call are
    for messages, the session status, the questions and the
    permissions: it creates no session and posts no prompt.  It draws
    no random number, and a result, when the call gives one, is a
    reply, a blocked diagnosis or a timeout report. *)
Theorem wait_for_reply_only_reads (env : Env) (token : jsstring)
  (ts pi pl : option number) (w : World) :
  let out := opencode_wait_for_reply env token ts pi pl w in
  (forall r,
      fst out = Ok (Some r) ->
      (exists p, r = ReplyReceived p)
      \/ (exists session aid target pending elapsed interval,
            r = BlockedWaiting session aid target pending elapsed interval)
      \/ exists p, r = TimedOut p)
  /\ draws (snd out) = draws w
  /\ exists requests,
       trace (snd out) = trace w ++ requests
       /\ Forall
            (fun req =>
               req = GetSessionStatus \/ req = ListQuestions
               \/ req = ListPermissions
               \/ exists session limit, req = ListMessages session limit)
            requests.
Proof.
  cbv zeta. split.
  - intros r Hr.
    destruct (decodeAsyncRequestId token) as [h|msg] eqn:Hdec;
      [|unfold opencode_wait_for_reply in Hr; rewrite Hdec in Hr; discriminate].
    rewrite (wait_for_reply_run env token ts pi pl w h Hdec) in Hr.
    destruct (poll_loop _ _ _ _ _ _ _ _ _ _ w) as [[[r0| |]|msg] w0] eqn:Hloop;
      try discriminate.
    + injection Hr as <-.
      destruct (poll_loop_results _ _ _ _ _ _ _ _ _ _ _ _ _ Hloop)
        as [(p & ->)|(pending & elapsed & ->)];
        [left; eexists; reflexivity|right; left; repeat eexists].
    + destruct (timeout_payload_fields env token (session_id h) (message_id h)
                  (wait_timeout_ms ts) (wait_interval_ms pi) (wait_poll_limit pl)
                  (now w) w0) as (p & w' & Hp & _).
      rewrite Hp in Hr. injection Hr as <-. right. right. eexists. reflexivity.
  - destruct (opencode_wait_for_reply env token ts pi pl w) as [r w'] eqn:Hcall.
    destruct (reads_only_wait_for_reply env token ts pi pl w r w' Hcall)
      as (_ & Hdraws & requests & Htrace & Hreads).
    split; [exact Hdraws|]. exists requests. split; [exact Htrace|].
    apply Forall_forall. intros req Hin.
    rewrite forallb_forall in Hreads. specialize (Hreads req Hin).
    destruct req; try discriminate Hreads; eauto 6.
Qed.

(** X19.  A timeout is never reported early.  When
    [opencode_wait_for_reply] returns a timeout report, the handle
    decoded, the elapsed time that is reported is the time the call
    took, it is at least the timeout, and the report names the session
    and the message of the handle. *)
Theorem timeout_is_not_early (env : Env) (token : jsstring)
  (ts pi pl : option number) (w w' : World) (p : TimeoutPayload) :
  opencode_wait_for_reply env token ts pi pl w = (Ok (Some (TimedOut p)), w') ->
  exists h,
    decodeAsyncRequestId token = Ok h
    /\ tp_session_id p = session_id h
    /\ tp_target_parent_message_id p = message_id h
    /\ tp_async_request_id p = token
    /\ tp_elapsed_ms p = now w' - now w
    /\ wait_timeout_ms ts <= tp_elapsed_ms p
    /\ 1000 <= wait_timeout_ms ts.
Proof.
  intros Hcall.
  destruct (decodeAsyncRequestId token) as [h|msg] eqn:Hdec;
    [|unfold opencode_wait_for_reply in Hcall; rewrite Hdec in Hcall; discriminate].
  exists h. split; [reflexivity|].
  rewrite (wait_for_reply_run env token ts pi pl w h Hdec) in Hcall.
  destruct (poll_loop _ _ _ _ _ _ _ _ _ _ w) as [[[r0| |]|msg] w0] eqn:Hloop;
    try discriminate.
  - injection Hcall as -> _.
    destruct (poll_loop_results _ _ _ _ _ _ _ _ _ _ _ _ _ Hloop)
      as [(q & Hq)|(pending & elapsed & Hq)]; discriminate.
  - pose proof (poll_loop_deadline _ _ _ _ _ _ _ _ _ _ _ _ Hloop) as Hdeadline.
    destruct (timeout_payload_fields env token (session_id h) (message_id h)
                (wait_timeout_ms ts) (wait_interval_ms pi) (wait_poll_limit pl)
                (now w) w0) as (q & w1 & Hq & H1 & H2 & H3 & _ & _ & H6).
    pose proof (reads_only_timeout_payload env token (session_id h) (message_id h)
                  (wait_timeout_ms ts) (wait_interval_ms pi) (wait_poll_limit pl)
                  (now w) w0 _ _ Hq) as (Hclock & _).
    rewrite Hq in Hcall. injection Hcall as <- <-.
    repeat split; try assumption; [lia|unfold wait_timeout_ms; lia].
Qed.

Lemma timeout_is_not_early_witness :
  exists p w',
    opencode_wait_for_reply no_question_env sample_token (Some (Int 1)) None None
      start_world
    = (Ok (Some (TimedOut p)), w')
    /\ exists h,
         decodeAsyncRequestId sample_token = Ok h
         /\ tp_session_id p = session_id h
         /\ tp_target_parent_message_id p = message_id h
         /\ tp_async_request_id p = sample_token
         /\ tp_elapsed_ms p = now w' - now start_world
         /\ wait_timeout_ms (Some (Int 1)) <= tp_elapsed_ms p
         /\ 1000 <= wait_timeout_ms (Some (Int 1)).
Proof.
  assert (Hcall : exists p w',
             opencode_wait_for_reply no_question_env sample_token (Some (Int 1))
               None None start_world
             = (Ok (Some (TimedOut p)), w'))
    by (vm_compute; do 2 eexists; reflexivity).
  destruct Hcall as (p & w' & Hcall).
  exists p, w'. split; [exact Hcall|].
  exact (timeout_is_not_early no_question_env sample_token (Some (Int 1)) None None
           start_world w' p Hcall).
Defined.

Section WaitOutcomes.
Variable env : Env.
Variable token : jsstring.
Variables ts pi pl : option number.
Variables w w0 : World.
Variable h : AsyncRequestPayload.

Let sid := session_id h.
Let target := message_id h.
Let limit := wait_poll_limit pl.
Let interval := wait_interval_ms pi.
Let deadline := now w + wait_timeout_ms ts.

Hypothesis decoded : decodeAsyncRequestId token = Ok h.
Hypothesis polled : polls_on env sid target limit interval deadline w w0.

(** The call is the loop entered at [w0], with fuel for what is left. *)
Lemma wait_from :
  exists fuel0,
    deadline - now w0 <= Z.of_nat fuel0 * timer_delay interval
    /\ opencode_wait_for_reply env token ts pi pl w
       = match poll_loop env token sid target (wait_timeout_ms ts) interval limit
                 (now w) deadline (S fuel0) w0 with
         | (Ok (Returned r), w') => (Ok (Some r), w')
         | (Ok DeadlinePassed, w') =>
             match timeout_payload env token sid target (wait_timeout_ms ts)
                     interval limit (now w) w' with
             | (Ok r, w'') => (Ok (Some r), w'')
             | (Throw msg, w'') => (Throw msg, w'')
             end
         | (Ok OutOfFuel, w') => (Ok None, w')
         | (Throw msg, w') => (Throw msg, w')
         end.
Proof.
  destruct (wait_fuel ts pi) as (Hint & Ht & fuel & Hfuel & Hbound).
  destruct (poll_loop_reaches env token sid target (wait_timeout_ms ts) interval
              limit (now w) deadline w w0 polled fuel
              ltac:(subst deadline interval; lia)) as (fuel0 & Heq & Hleft).
  exists fuel0. split; [exact Hleft|].
  rewrite (wait_for_reply_run env token ts pi pl w h decoded), Hfuel.
  fold sid target limit interval deadline. rewrite Heq. reflexivity.
Qed.

Lemma wait_blocked (window : list json) :
  now w0 < deadline ->
  messages_of (answer env (ListMessages sid limit) w0) = Ok window ->
  no_reply window target ->
  let w1 := after_fetch env (ListMessages sid limit) w0 in
  let w2 := after_fetch env ListQuestions w1 in
  pending_of (answer env ListQuestions w1) sid <> [] ->
  opencode_wait_for_reply env token ts pi pl w
  = (Ok (Some (BlockedWaiting sid token target
                 (map summarize (pending_of (answer env ListQuestions w1) sid))
                 (now w2 - now w) interval)), w2).
Proof.
  intros Hnow Hwin Hnone w1 w2 Hpending.
  destruct wait_from as (fuel0 & _ & ->). rewrite poll_loop_step.
  replace (now w0 <? deadline) with true by (symmetry; apply Z.ltb_lt; lia).
  cbv zeta. rewrite Hwin. apply findLatest_none in Hnone. rewrite Hnone.
  fold w1 w2.
  destruct (pending_of (answer env ListQuestions w1) sid) as [|q qs];
    [congruence|].
  replace (0 <? array_length (q :: qs)) with true
    by (symmetry; apply Z.ltb_lt; unfold array_length; cbn [List.length]; lia).
  reflexivity.
Qed.

Lemma wait_replied (window : list json) (candidate : json) :
  now w0 < deadline ->
  messages_of (answer env (ListMessages sid limit) w0) = Ok window ->
  latest_reply window target candidate ->
  let w1 := after_fetch env (ListMessages sid limit) w0 in
  exists r,
    opencode_wait_for_reply env token ts pi pl w
    = (Ok (Some (ReplyReceived r)), resolved_world env sid limit w1)
    /\ rp_reply r = resolved_reply env sid target limit candidate w1
    /\ trace (resolved_world env sid limit w1)
       = trace w0
         ++ [ListMessages sid limit; GetSessionStatus]
         ++ (if status_is (status_answer env sid w1) idle
             then [ListMessages sid limit] else []).
Proof.
  intros Hnow Hwin Hlatest w1.
  destruct wait_from as (fuel0 & _ & ->). rewrite poll_loop_step.
  replace (now w0 <? deadline) with true by (symmetry; apply Z.ltb_lt; lia).
  cbv zeta. rewrite Hwin. apply findLatest_some in Hlatest. rewrite Hlatest.
  fold w1.
  destruct (resolve_reply_run env token sid target (wait_timeout_ms ts) interval
              limit (now w) candidate w1) as (r & -> & Hreply & _).
  exists r. split; [reflexivity|]. split; [exact Hreply|].
  unfold resolved_world. subst w1.
  destruct (status_is _ idle); cbn [after_fetch trace];
    rewrite <- ?app_assoc; reflexivity.
Qed.

Lemma wait_timed_out :
  deadline <= now w0 ->
  exists p w',
    opencode_wait_for_reply env token ts pi pl w = (Ok (Some (TimedOut p)), w')
    /\ tp_elapsed_ms p = now w' - now w
    /\ wait_timeout_ms ts <= tp_elapsed_ms p.
Proof.
  intros Hpast.
  destruct wait_from as (fuel0 & _ & ->). rewrite poll_loop_step.
  replace (now w0 <? deadline) with false by (symmetry; apply Z.ltb_ge; lia).
  destruct (timeout_payload_fields env token sid target (wait_timeout_ms ts)
              interval limit (now w) w0) as (p & w' & Hp & _ & _ & _ & _ & _ & He).
  pose proof (reads_only_timeout_payload env token sid target (wait_timeout_ms ts)
                interval limit (now w) w0 _ _ Hp) as (Hclock & _).
  rewrite Hp. exists p, w'. split; [reflexivity|]. split; [exact He|].
  subst deadline. lia.
Qed.
End WaitOutcomes.

(** X20.  A pending question ends the wait.  When an iteration of the
    polling loop, entered before the deadline, fetches a window without
    a reply to the handle and the question check that follows finds
    pending questions of the session, the call returns the blocked
    diagnosis with the summary of every one of them, right after the
    question check and without sleeping. *)
Theorem wait_reports_block (env : Env) (token : jsstring)
  (ts pi pl : option number) (w w0 : World) (h : AsyncRequestPayload)
  (window : list json) :
  decodeAsyncRequestId token = Ok h ->
  polls_on env (session_id h) (message_id h) (wait_poll_limit pl)
    (wait_interval_ms pi) (now w + wait_timeout_ms ts) w w0 ->
  now w0 < now w + wait_timeout_ms ts ->
  messages_of (answer env (ListMessages (session_id h) (wait_poll_limit pl)) w0)
  = Ok window ->
  no_reply window (message_id h) ->
  let w1 := after_fetch env (ListMessages (session_id h) (wait_poll_limit pl)) w0 in
  let w2 := after_fetch env ListQuestions w1 in
  pending_of (answer env ListQuestions w1) (session_id h) <> [] ->
  opencode_wait_for_reply env token ts pi pl w
  = (Ok (Some (BlockedWaiting (session_id h) token (message_id h)
                 (map summarize
                      (pending_of (answer env ListQuestions w1) (session_id h)))
                 (now w2 - now w) (wait_interval_ms pi))), w2).
Proof.
  intros Hdec Hpolls Hnow Hwin Hnone.
  exact (wait_blocked env token ts pi pl w w0 h Hdec Hpolls window Hnow Hwin Hnone).
Qed.

Lemma wait_reports_block_witness :
  (decodeAsyncRequestId sample_token = Ok sample_handle
   /\ polls_on blocked_env (session_id sample_handle) (message_id sample_handle)
        (wait_poll_limit None) (wait_interval_ms None)
        (now start_world + wait_timeout_ms None) start_world start_world
   /\ now start_world < now start_world + wait_timeout_ms None
   /\ messages_of
        (answer blocked_env
           (ListMessages (session_id sample_handle) (wait_poll_limit None))
           start_world)
      = Ok [user_message "m1" "ping"]
   /\ no_reply [user_message "m1" "ping"] (message_id sample_handle)
   /\ pending_of
        (answer blocked_env ListQuestions
           (after_fetch blocked_env
              (ListMessages (session_id sample_handle) (wait_poll_limit None))
              start_world))
        (session_id sample_handle) <> [])
  /\ opencode_wait_for_reply blocked_env sample_token None None None start_world
     = (Ok (Some (BlockedWaiting ses_1 sample_token msg_1
                    [{| qs_request_id := lit "que_1";
                        qs_question_count := 1;
                        qs_headers := [lit "Confirm"] |}]
                    10 500)),
        after_fetch blocked_env ListQuestions
          (after_fetch blocked_env (ListMessages ses_1 200) start_world)).
Proof.
  assert (H1 : decodeAsyncRequestId sample_token = Ok sample_handle)
    by (vm_compute; reflexivity).
  assert (H2 : polls_on blocked_env (session_id sample_handle)
                 (message_id sample_handle) (wait_poll_limit None)
                 (wait_interval_ms None) (now start_world + wait_timeout_ms None)
                 start_world start_world) by apply polls_here.
  assert (H3 : now start_world < now start_world + wait_timeout_ms None)
    by (vm_compute; reflexivity).
  assert (H4 : messages_of
                 (answer blocked_env
                    (ListMessages (session_id sample_handle) (wait_poll_limit None))
                    start_world)
               = Ok [user_message "m1" "ping"]) by reflexivity.
  assert (H5 : no_reply [user_message "m1" "ping"] (message_id sample_handle))
    by (repeat constructor).
  assert (H6 : pending_of
                 (answer blocked_env ListQuestions
                    (after_fetch blocked_env
                       (ListMessages (session_id sample_handle)
                          (wait_poll_limit None)) start_world))
                 (session_id sample_handle) <> [])
    by (vm_compute; discriminate).
  split; [exact (conj H1 (conj H2 (conj H3 (conj H4 (conj H5 H6)))))|].
  exact (wait_reports_block blocked_env sample_token None None None start_world
           start_world sample_handle _ H1 H2 H3 H4 H5 H6).
Defined.

(** X21.  A reply wins over a pending question.  When an iteration of
    the polling loop, entered before the deadline, fetches a window in
    which [candidate] is the newest reply to the handle, the call
    returns a reply, whatever questions are pending: the requests of
    that iteration are the message fetch, the status fetch and, for an
    idle session, one more message fetch; the questions are not asked
    for. *)
Theorem wait_prefers_reply (env : Env) (token : jsstring)
  (ts pi pl : option number) (w w0 : World) (h : AsyncRequestPayload)
  (window : list json) (candidate : json) :
  decodeAsyncRequestId token = Ok h ->
  polls_on env (session_id h) (message_id h) (wait_poll_limit pl)
    (wait_interval_ms pi) (now w + wait_timeout_ms ts) w w0 ->
  now w0 < now w + wait_timeout_ms ts ->
  messages_of (answer env (ListMessages (session_id h) (wait_poll_limit pl)) w0)
  = Ok window ->
  latest_reply window (message_id h) candidate ->
  let request := ListMessages (session_id h) (wait_poll_limit pl) in
  let w1 := after_fetch env request w0 in
  let w' := resolved_world env (session_id h) (wait_poll_limit pl) w1 in
  exists r,
    opencode_wait_for_reply env token ts pi pl w = (Ok (Some (ReplyReceived r)), w')
    /\ rp_reply r
       = resolved_reply env (session_id h) (message_id h) (wait_poll_limit pl)
           candidate w1
    /\ trace w'
       = trace w0
         ++ [request; GetSessionStatus]
         ++ (if status_is (status_answer env (session_id h) w1) idle
             then [request] else []).
Proof.
  intros Hdec Hpolls Hnow Hwin Hlatest.
  exact (wait_replied env token ts pi pl w w0 h Hdec Hpolls window candidate Hnow
           Hwin Hlatest).
Qed.

(** X22.  Silence until the deadline gives a timeout report, never an
    error.  When the polling loop has gone through its iterations,
    finding neither a reply nor a pending question, and comes to test
    its condition at or after the deadline, the call returns a timeout
    report whose elapsed time is the time the call took and is at least
    the timeout, whatever becomes of the requests for the diagnostics. *)
Theorem wait_times_out (env : Env) (token : jsstring)
  (ts pi pl : option number) (w w0 : World) (h : AsyncRequestPayload) :
  decodeAsyncRequestId token = Ok h ->
  polls_on env (session_id h) (message_id h) (wait_poll_limit pl)
    (wait_interval_ms pi) (now w + wait_timeout_ms ts) w w0 ->
  now w + wait_timeout_ms ts <= now w0 ->
  exists p w',
    opencode_wait_for_reply env token ts pi pl w = (Ok (Some (TimedOut p)), w')
    /\ tp_elapsed_ms p = now w' - now w
    /\ wait_timeout_ms ts <= tp_elapsed_ms p.
Proof.
  intros Hdec Hpolls Hpast.
  exact (wait_timed_out env token ts pi pl w w0 h Hdec Hpolls Hpast).
Qed.

Lemma wait_prefers_reply_witness :
  (decodeAsyncRequestId sample_token = Ok sample_handle
   /\ polls_on idle_env (session_id sample_handle) (message_id sample_handle)
        (wait_poll_limit None) (wait_interval_ms None)
        (now start_world + wait_timeout_ms None) start_world start_world
   /\ now start_world < now start_world + wait_timeout_ms None
   /\ messages_of
        (answer idle_env
           (ListMessages (session_id sample_handle) (wait_poll_limit None))
           start_world)
      = Ok [user_message "m1" "ping"; assistant_message "m2" msg_1 "po";
            assistant_message "m3" msg_1 "pon"]
   /\ latest_reply
        [user_message "m1" "ping"; assistant_message "m2" msg_1 "po";
         assistant_message "m3" msg_1 "pon"]
        (message_id sample_handle) (assistant_message "m3" msg_1 "pon"))
  /\ exists r,
       opencode_wait_for_reply idle_env sample_token None None None start_world
       = (Ok (Some (ReplyReceived r)),
          resolved_world idle_env (session_id sample_handle) (wait_poll_limit None)
            (after_fetch idle_env
               (ListMessages (session_id sample_handle) (wait_poll_limit None))
               start_world))
       /\ rp_reply r
          = resolved_reply idle_env (session_id sample_handle)
              (message_id sample_handle) (wait_poll_limit None)
              (assistant_message "m3" msg_1 "pon")
              (after_fetch idle_env
                 (ListMessages (session_id sample_handle) (wait_poll_limit None))
                 start_world)
       /\ trace
            (resolved_world idle_env (session_id sample_handle)
               (wait_poll_limit None)
               (after_fetch idle_env
                  (ListMessages (session_id sample_handle) (wait_poll_limit None))
                  start_world))
          = trace start_world
            ++ [ListMessages (session_id sample_handle) (wait_poll_limit None);
                GetSessionStatus]
            ++ (if status_is
                     (status_answer idle_env (session_id sample_handle)
                        (after_fetch idle_env
                           (ListMessages (session_id sample_handle)
                              (wait_poll_limit None)) start_world)) idle
                then [ListMessages (session_id sample_handle) (wait_poll_limit None)]
                else []).
Proof.
  assert (H1 : decodeAsyncRequestId sample_token = Ok sample_handle)
    by (vm_compute; reflexivity).
  assert (H2 : polls_on idle_env (session_id sample_handle)
                 (message_id sample_handle) (wait_poll_limit None)
                 (wait_interval_ms None) (now start_world + wait_timeout_ms None)
                 start_world start_world) by apply polls_here.
  assert (H3 : now start_world < now start_world + wait_timeout_ms None)
    by (vm_compute; reflexivity).
  assert (H4 : messages_of
                 (answer idle_env
                    (ListMessages (session_id sample_handle) (wait_poll_limit None))
                    start_world)
               = Ok [user_message "m1" "ping"; assistant_message "m2" msg_1 "po";
                     assistant_message "m3" msg_1 "pon"]) by reflexivity.
  assert (H5 : latest_reply
                 [user_message "m1" "ping"; assistant_message "m2" msg_1 "po";
                  assistant_message "m3" msg_1 "pon"]
                 (message_id sample_handle) (assistant_message "m3" msg_1 "pon")).
  { exists [user_message "m1" "ping"; assistant_message "m2" msg_1 "po"], [].
    split; [reflexivity|]. split; [vm_compute; reflexivity|constructor]. }
  split; [exact (conj H1 (conj H2 (conj H3 (conj H4 H5))))|].
  exact (wait_prefers_reply idle_env sample_token None None None start_world
           start_world sample_handle _ _ H1 H2 H3 H4 H5).
Defined.

Lemma wait_times_out_witness :
  exists w0,
    (decodeAsyncRequestId sample_token = Ok sample_handle
     /\ polls_on no_question_env (session_id sample_handle)
          (message_id sample_handle) (wait_poll_limit None) (wait_interval_ms None)
          (now start_world + wait_timeout_ms (Some (Int 1))) start_world w0
     /\ now start_world + wait_timeout_ms (Some (Int 1)) <= now w0)
    /\ exists p w',
         opencode_wait_for_reply no_question_env sample_token (Some (Int 1)) None
           None start_world
         = (Ok (Some (TimedOut p)), w')
         /\ tp_elapsed_ms p = now w' - now start_world
         /\ wait_timeout_ms (Some (Int 1)) <= tp_elapsed_ms p.
Proof.
  assert (H1 : decodeAsyncRequestId sample_token = Ok sample_handle)
    by (vm_compute; reflexivity).
  assert (H2 : exists w0,
             polls_on no_question_env (session_id sample_handle)
               (message_id sample_handle) (wait_poll_limit None)
               (wait_interval_ms None)
               (now start_world + wait_timeout_ms (Some (Int 1))) start_world w0
             /\ now start_world + wait_timeout_ms (Some (Int 1)) <= now w0).
  { eexists. split.
    - eapply polls_later;
        [vm_compute; reflexivity | reflexivity | repeat constructor
        | vm_compute; reflexivity | ].
      eapply polls_later;
        [vm_compute; reflexivity | reflexivity | repeat constructor
        | vm_compute; reflexivity | ].
      apply polls_here.
    - vm_compute. discriminate. }
  destruct H2 as (w0 & H2 & H3).
  exists w0. split; [exact (conj H1 (conj H2 H3))|].
  exact (wait_times_out no_question_env sample_token (Some (Int 1)) None None
           start_world w0 sample_handle H1 H2 H3).
Defined.

(** X23.  The accessors of a message give a string of the message or
    nothing, on any JSON value: an id, a role or a parent id that is
    returned is the non-empty string member of that name of
    [message.info], and every part type returned is a non-empty
    string. *)
Theorem accessors_give_members (message : json) :
  (forall id, getMessageId message = Some id ->
      id <> []
      /\ exists info, prop (Some message) (lit "info") = Some info
                      /\ prop (Some info) (lit "id") = Some (JStr id))
  /\ (forall role, getMessageRole message = Some role ->
        role <> []
        /\ exists info, prop (Some message) (lit "info") = Some info
                        /\ prop (Some info) (lit "role") = Some (JStr role))
  /\ (forall parent, getMessageParentId message = Some parent ->
        parent <> []
        /\ exists info, prop (Some message) (lit "info") = Some info
                        /\ prop (Some info) (lit "parentID") = Some (JStr parent))
  /\ Forall (fun type => type <> []) (getPartTypes message).
Proof.
  split; [intros id; apply info_string_member|].
  split; [intros role; apply info_string_member|].
  split; [intros parent; apply info_string_member|].
  unfold getPartTypes.
  destruct (not_an_object (Some message)); [constructor|].
  destruct (prop (Some message) (lit "parts")) as [[| | | |parts|]|];
    try constructor.
  apply Forall_forall. intros type Hin. apply in_flat_map in Hin.
  destruct Hin as (part & _ & Hin).
  destruct (not_an_object (Some part)); [destruct Hin|].
  destruct (prop (Some part) (lit "type")) as [[| | |t| |]|]; try destruct Hin.
  destruct t as [|c t]; [destruct Hin|].
  destruct Hin as [<-|[]]. discriminate.
Qed.

(* ================================================================== *)
(** * The budget report of a page *)
(* ================================================================== *)

Lemma initial_payload_report (sid : jsstring) (cursor : option jsstring)
  (pageSize offset maxOutputTokens : Z) (fields : list jsstring)
  (messages : list json) :
  let p0 := initial_payload sid cursor pageSize offset maxOutputTokens fields messages in
  bg_estimated_output_tokens (pl_budget p0)
  = estimateTokensFromObject (JArr (pl_items p0))
  /\ bg_finish_reason (pl_budget p0)
     = (if bg_truncated (pl_budget p0) then lit "length" else lit "stop")
  /\ (bg_truncated (pl_budget p0) = true -> pg_has_more (pl_page p0) = true)
  /\ pl_notice p0 = None.
Proof.
  cbv zeta.
  destruct (fill_budget maxOutputTokens []
              (projected_page messages pageSize offset fields))
    as [kept truncated] eqn:Hfill.
  destruct (initial_payload_filled sid cursor pageSize offset maxOutputTokens fields
              messages kept truncated Hfill) as (Hitems & Htr & Hmore).
  rewrite Htr, Hmore.
  assert (Hrest : bg_estimated_output_tokens
                    (pl_budget (initial_payload sid cursor pageSize offset
                                  maxOutputTokens fields messages))
                  = estimateTokensFromObject
                      (JArr (pl_items (initial_payload sid cursor pageSize offset
                                         maxOutputTokens fields messages)))
                  /\ bg_finish_reason
                       (pl_budget (initial_payload sid cursor pageSize offset
                                     maxOutputTokens fields messages))
                     = (if truncated then lit "length" else lit "stop")
                  /\ pl_notice (initial_payload sid cursor pageSize offset
                                  maxOutputTokens fields messages) = None).
  { unfold initial_payload. cbv zeta.
    fold (projected_page messages pageSize offset fields). rewrite Hfill.
    cbn. repeat split; reflexivity. }
  destruct Hrest as (He & Hf & Hn).
  split; [exact He|]. split; [exact Hf|]. split; [|exact Hn].
  intros ->. apply orb_true_iff. left. apply Z.ltb_lt.
  destruct (fill_budget_spec _ _ _ _ _ Hfill)
    as (taken & rest & Hpage & Hkept & Hiff & _).
  cbn [app] in Hkept. rewrite Hpage, Hkept. unfold array_length.
  rewrite length_app.
  destruct rest; [exfalso; apply Hiff; reflexivity|cbn [List.length]; lia].
Qed.

(** X24.  The budget report of a page: [estimated_output_tokens] is the
    estimate of the items that are returned; [finish_reason] is
    ["length"] for a truncated page and ["stop"] otherwise; a truncated
    page always says that more is to come; and a notice, when there is
    one, comes with a truncated page without items. *)
Theorem page_budget_report (env : Env) (sid : jsstring)
  (limit : option number) (cursor : option jsstring) (budget : option number)
  (fields : jsvalue) (w w' : World) (p : PagePayload) :
  opencode_get_messages env sid limit cursor budget fields w
  = (Ok (MessagePage p), w') ->
  bg_estimated_output_tokens (pl_budget p)
  = estimateTokensFromObject (JArr (pl_items p))
  /\ bg_finish_reason (pl_budget p)
     = (if bg_truncated (pl_budget p) then lit "length" else lit "stop")
  /\ (bg_truncated (pl_budget p) = true -> pg_has_more (pl_page p) = true)
  /\ (pl_notice p = None
      \/ (pl_notice p = Some budget_notice
          /\ pl_items p = []
          /\ bg_truncated (pl_budget p) = true)).
Proof.
  intros Hcall.
  destruct (get_messages_page env sid limit cursor budget fields w w' p Hcall)
    as (c & messages & _ & _ & _ & ->).
  pose proof (initial_payload_report sid cursor (page_size limit) (offset c)
                (output_budget budget) (parseRequestedFields fields) messages)
    as Hinit.
  cbv zeta in Hinit.
  destruct (build_page_cases sid cursor (page_size limit) (offset c)
              (output_budget budget) (parseRequestedFields fields) messages)
    as (k & [[Hp _]|(Hover & Hp & _)]); rewrite Hp; clear Hp.
  - destruct k as [|k]; [rewrite dropped_0; tauto|].
    set (p0 := initial_payload _ _ _ _ _ _ _) in *.
    destruct (dropped_flags (offset c) (S k) p0 ltac:(lia))
      as (Hmore & Htr & Hfin & _ & _ & Hest).
    destruct (dropped_fields (offset c) (S k) p0) as (_ & _ & Hnotice & _).
    destruct Hinit as (_ & _ & _ & Hn0).
    rewrite Htr, Hfin, Hest, Hmore, Hnotice, Hn0.
    repeat split; auto.
  - unfold give_up_page. rewrite Hover. cbn.
    split; [reflexivity|]. split; [reflexivity|]. split; [reflexivity|].
    right. repeat split; reflexivity.
Qed.

Lemma page_budget_report_witness :
  exists p w',
    opencode_get_messages (history_env five_messages) ses_1 (Some (Int 5)) None
      (Some (Int 150)) None start_world
    = (Ok (MessagePage p), w')
    /\ bg_truncated (pl_budget p) = true
    /\ bg_estimated_output_tokens (pl_budget p)
       = estimateTokensFromObject (JArr (pl_items p))
    /\ bg_finish_reason (pl_budget p)
       = (if bg_truncated (pl_budget p) then lit "length" else lit "stop")
    /\ (bg_truncated (pl_budget p) = true -> pg_has_more (pl_page p) = true)
    /\ (pl_notice p = None
        \/ (pl_notice p = Some budget_notice
            /\ pl_items p = []
            /\ bg_truncated (pl_budget p) = true)).
Proof.
  assert (Hcall : exists p w',
             opencode_get_messages (history_env five_messages) ses_1 (Some (Int 5))
               None (Some (Int 150)) None start_world
             = (Ok (MessagePage p), w')
             /\ bg_truncated (pl_budget p) = true)
    by (vm_compute; do 2 eexists; split; reflexivity).
  destruct Hcall as (p & w' & Hcall & Htr).
  exists p, w'. split; [exact Hcall|]. split; [exact Htr|].
  exact (page_budget_report _ _ _ _ _ _ _ _ _ Hcall).
Defined.
